(** * The SMASH cell grid ([grid.h]) and its collaborators, embedded in Rocq

    The development follows the C++ sources:
    - [Grid<Options>] of [src/include/grid.h]: geometry resolution, bucketing,
      ghost cells for periodic boundaries and the half-shell traversal
      [iterate_cells];
    - [DeformedNucleus::y_l_0], [DeformedNucleus::set_parameters_automatic]
      and [DeformedNucleus::deformed_woods_saxon];
    - [ColliderModus::assign_params];
    - [Potentials::skyrme_pot], [Potentials::symmetry_S] and
      [Potentials::symmetry_pot] of [potentials.cc].

    Numbers are modelled as the code has them: [float] is IEEE binary32 and
    [double] is IEEE binary64, both through the executable specification
    [SpecFloat] of the Standard Library; [int] ([size_type]) is [Z].  Code
    that throws, or whose behaviour is undefined, returns in the [outcome]
    monad.

    Three things lie outside the definitions:
    - [std::cbrt] is a function of the C library, which need not be correctly
      rounded: glibc returns 14.999999999999998 for 3375.0.  The constructor
      [Grid_from_bounds_with] therefore takes the library's [cbrt] as a
      parameter, and [Grid_from_bounds] is the constructor where that cube
      root, truncated to [int], is the integer cube root [cbrt_int] of the
      particle count;
    - signed overflow of [int] is undefined in C++ and the index arithmetic is
      done in [Z]: the definitions agree with the program as long as the
      products and sums of [make_index] fit [int] ([make_index_fits]), which
      holds for every index inside a cell array of fewer than 2^31 cells;
    - memory is unbounded: [resize], [push_back] and the copies of cell lists
      always succeed, so [std::bad_alloc] and [std::length_error] have no
      outcome here. *)

From Stdlib Require Import ZArith Lia String.
From Stdlib Require Import Floats.SpecFloat.
From stdpp Require Import base numbers list.

Open Scope Z_scope.

(** ** Outcomes of C++ code: a value, a thrown exception, or undefined
    behaviour (an out-of-range [operator[]], a float-to-int conversion of a
    value that [int] cannot hold, [begin()] of an empty container). *)

Inductive exn : Type :=
  | runtime_error (what : string)
  | domain_error (what : string).

Inductive outcome (A : Type) : Type :=
  | Ok (a : A)
  | Throw (e : exn)
  | Undefined.
Arguments Ok {A} a.
Arguments Throw {A} e.
Arguments Undefined {A}.

#[global] Instance outcome_ret : MRet outcome := @Ok.
#[global] Instance outcome_bind : MBind outcome := fun A B f m =>
  match m with
  | Ok a => f a
  | Throw e => Throw e
  | Undefined => Undefined
  end.

Definition throws {A} (m : outcome A) : bool :=
  match m with Throw _ => true | _ => false end.

Fixpoint foldlM {S A : Type} (f : S -> A -> outcome S) (s : S) (l : list A)
  : outcome S :=
  match l with
  | [] => Ok s
  | a :: l' => s' ← f s a; foldlM f s' l'
  end.

(** [for (int i = lo; i < hi; ++i)] as the list of values [i] takes. *)
Definition range (lo hi : Z) : list Z := seqZ lo (hi - lo).

(** ** Floating point *)

Definition int_min : Z := - 2 ^ 31.
Definition int_max : Z := 2 ^ 31 - 1.

(** The integer part of a finite binary number [(-1)^s * m * 2^e]. *)
Definition Zfloor_fin (s : bool) (m : positive) (e : Z) : Z :=
  let sm := cond_Zopp s (Zpos m) in
  if 0 <=? e then sm * 2 ^ e else sm / 2 ^ (- e).
Definition Zceil_fin (s : bool) (m : positive) (e : Z) : Z :=
  - Zfloor_fin (negb s) m e.
Definition Ztrunc_fin (s : bool) (m : positive) (e : Z) : Z :=
  if s then Zceil_fin s m e else Zfloor_fin s m e.

Module Float32.
Definition prec : Z := 24.
Definition emax : Z := 128.
Definition t : Type := spec_float.

Definition add : t -> t -> t := SFadd prec emax.
Definition sub : t -> t -> t := SFsub prec emax.
Definition mul : t -> t -> t := SFmul prec emax.
Definition div : t -> t -> t := SFdiv prec emax.
Definition neg : t -> t := SFopp.
Definition ltb : t -> t -> bool := SFltb.

(** Conversion from [int] and, rounding to nearest, from [double]. *)
Definition of_int (z : Z) : t := binary_normalize prec emax z 0 false.
Definition of_double (x : spec_float) : t :=
  match x with
  | S754_finite s m e => binary_round prec emax s m e
  | _ => x
  end.

(** [std::floor] and [std::ceil]: the result is again a [float]. *)
Definition floor (x : t) : t :=
  match x with
  | S754_finite s m e => binary_normalize prec emax (Zfloor_fin s m e) 0 s
  | _ => x
  end.
Definition ceil (x : t) : t :=
  match x with
  | S754_finite s m e => binary_normalize prec emax (Zceil_fin s m e) 0 s
  | _ => x
  end.

(** Conversion to [int] truncates; it is undefined when the truncated
    value is not representable. *)
Definition to_int (x : t) : outcome Z :=
  match x with
  | S754_zero _ => Ok 0
  | S754_finite s m e =>
      let z := Ztrunc_fin s m e in
      if (int_min <=? z) && (z <=? int_max) then Ok z else Undefined
  | _ => Undefined
  end.

(** [std::min] and [std::max] as the library defines them. *)
Definition min (a b : t) : t := if ltb b a then b else a.
Definition max (a b : t) : t := if ltb a b then b else a.

(** The literals of [grid.h]. *)
Definition lit_1 : t := of_int 1.
Definition lit_2_5 : t := binary_normalize prec emax 5 (-1) false.
Definition lit_0_1 : t := div (of_int 1) (of_int 10).
End Float32.

Module Float64.
Definition prec : Z := 53.
Definition emax : Z := 1024.
Definition t : Type := spec_float.

Definition add : t -> t -> t := SFadd prec emax.
Definition sub : t -> t -> t := SFsub prec emax.
Definition mul : t -> t -> t := SFmul prec emax.
Definition div : t -> t -> t := SFdiv prec emax.
Definition sqrt : t -> t := SFsqrt prec emax.

Definition of_int (z : Z) : t := binary_normalize prec emax z 0 false.
(** Every [float] is a [double]: the conversion only renormalises. *)
Definition of_float (x : spec_float) : t :=
  match x with
  | S754_finite s m e => binary_round prec emax s m e
  | _ => x
  end.
(** The double nearest to the decimal [n / 10^k]. *)
Definition decimal (n : Z) (k : Z) : t := div (of_int n) (of_int (10 ^ k)).
Definition zero : t := S754_zero false.
(** [M_PI] = 0x400921FB54442D18. *)
Definition M_PI : t := binary_normalize prec emax 7074237752028440 (-51) false.
(** Unary minus, [std::abs] and [<]. *)
Definition neg : t -> t := SFopp.
Definition abs : t -> t := SFabs.
Definition ltb : t -> t -> bool := SFltb.
(** Conversion to [int] truncates; it is undefined when the truncated
    value is not representable. *)
Definition to_int (x : t) : outcome Z :=
  match x with
  | S754_zero _ => Ok 0
  | S754_finite s m e =>
      let z := Ztrunc_fin s m e in
      if (int_min <=? z) && (z <=? int_max) then Ok z else Undefined
  | _ => Undefined
  end.
End Float64.

(** ** Arrays of three and particles *)

Record array3 (A : Type) : Type := Arr3 { at0 : A; at1 : A; at2 : A }.
Arguments Arr3 {A} _ _ _.
Arguments at0 {A} _.
Arguments at1 {A} _.
Arguments at2 {A} _.

Definition ThreeVector : Type := array3 Float64.t.

Record FourVector : Type := FourVec
  { x0 : Float64.t; x1 : Float64.t; x2 : Float64.t; x3 : Float64.t }.

Definition threevec (v : FourVector) : ThreeVector := Arr3 (x1 v) (x2 v) (x3 v).

(** [FourVector::operator+] *)
Definition FourVector_add (a b : FourVector) : FourVector :=
  FourVec (Float64.add (x0 a) (x0 b)) (Float64.add (x1 a) (x1 b))
          (Float64.add (x2 a) (x2 b)) (Float64.add (x3 a) (x3 b)).
Definition FourVector_sub (a b : FourVector) : FourVector :=
  FourVec (Float64.sub (x0 a) (x0 b)) (Float64.sub (x1 a) (x1 b))
          (Float64.sub (x2 a) (x2 b)) (Float64.sub (x3 a) (x3 b)).

(** Of [ParticleData] the grid reads the position and, for ghost copies,
    sets it; [id] is the particle's identity, which a copy keeps. *)
Record ParticleData : Type := Particle { id : Z; position : FourVector }.

Definition set_4position (p : ParticleData) (pos : FourVector) : ParticleData :=
  Particle (id p) pos.

Abbreviation ParticleList := (list ParticleData).

(** ** The grid *)

Inductive GridOptions : Type := Normal | PeriodicBoundaries.

Record Grid : Type := mkGrid {
  min_position_ : array3 Float32.t;
  index_factor_ : array3 Float32.t;
  number_of_cells_ : array3 Z;
  cells_ : list ParticleList
}.

Definition set_cells (g : Grid) (cells : list ParticleList) : Grid :=
  mkGrid (min_position_ g) (index_factor_ g) (number_of_cells_ g) cells.

(** [max_interaction_length] is 2.5 on every axis. *)
Definition max_interaction_length : array3 Float32.t :=
  Arr3 Float32.lit_2_5 Float32.lit_2_5 Float32.lit_2_5.

(** [make_index(x, y, z)] over the cell counts [n].  The program computes in
    [int]; [make_index_fits] says that none of its two products and two sums
    overflows, and then the value in [Z] is the program's. *)
Definition make_index_n (n : array3 Z) (x y z : Z) : Z :=
  (z * at1 n + y) * at0 n + x.
Definition make_index (g : Grid) (x y z : Z) : Z :=
  make_index_n (number_of_cells_ g) x y z.

Definition is_int (z : Z) : bool := (int_min <=? z) && (z <=? int_max).
Definition make_index_fits (n : array3 Z) (x y z : Z) : bool :=
  is_int (z * at1 n) && is_int (z * at1 n + y) &&
  is_int ((z * at1 n + y) * at0 n) && is_int ((z * at1 n + y) * at0 n + x).

(** The cell coordinate of a position along one axis, still a [float]. *)
Definition axis_cell (min_i factor_i : Float32.t) (pos_i : Float64.t) : Float32.t :=
  Float32.floor (Float32.mul (Float32.sub (Float32.of_double pos_i) min_i) factor_i).

(** [make_index(const ThreeVector &position)], one specialisation per mode.
    [1 + std::floor(...)] adds in [float]; the three arguments are then
    converted to [size_type]. *)
Definition make_index_pos (opt : GridOptions) (g : Grid) (pos : ThreeVector)
  : outcome Z :=
  let cx := axis_cell (at0 (min_position_ g)) (at0 (index_factor_ g)) (at0 pos) in
  let cy := axis_cell (at1 (min_position_ g)) (at1 (index_factor_ g)) (at1 pos) in
  let cz := axis_cell (at2 (min_position_ g)) (at2 (index_factor_ g)) (at2 pos) in
  match opt with
  | Normal =>
      x ← Float32.to_int cx;
      y ← Float32.to_int cy;
      z ← Float32.to_int cz;
      Ok (make_index g x y z)
  | PeriodicBoundaries =>
      x ← Float32.to_int (Float32.add Float32.lit_1 cx);
      y ← Float32.to_int (Float32.add Float32.lit_1 cy);
      z ← Float32.to_int cz;
      Ok (make_index g x y z)
  end.

(** The three arguments [make_index(position)] hands to
    [make_index(x, y, z)], after their conversion to [size_type]. *)
Definition cell_coordinates (opt : GridOptions) (g : Grid) (pos : ThreeVector)
  : outcome (array3 Z) :=
  let cx := axis_cell (at0 (min_position_ g)) (at0 (index_factor_ g)) (at0 pos) in
  let cy := axis_cell (at1 (min_position_ g)) (at1 (index_factor_ g)) (at1 pos) in
  let cz := axis_cell (at2 (min_position_ g)) (at2 (index_factor_ g)) (at2 pos) in
  match opt with
  | Normal =>
      x ← Float32.to_int cx;
      y ← Float32.to_int cy;
      z ← Float32.to_int cz;
      Ok (Arr3 x y z)
  | PeriodicBoundaries =>
      x ← Float32.to_int (Float32.add Float32.lit_1 cx);
      y ← Float32.to_int (Float32.add Float32.lit_1 cy);
      z ← Float32.to_int cz;
      Ok (Arr3 x y z)
  end.

(** [is_ghost_cell], defined for periodic boundaries only. *)
Definition is_ghost_cell (g : Grid) (x y z : Z) : bool :=
  (z + 1 =? at2 (number_of_cells_ g)) || (y =? 0) ||
  (y + 1 =? at1 (number_of_cells_ g)) || (x =? 0) ||
  (x + 1 =? at0 (number_of_cells_ g)).

(** [find_min_max_positions]: [begin()] of an empty collection is undefined. *)
Definition float_pos (p : ParticleData) : array3 Float32.t :=
  let pos := threevec (position p) in
  Arr3 (Float32.of_double (at0 pos)) (Float32.of_double (at1 pos))
       (Float32.of_double (at2 pos)).

Definition min_max_step (r : array3 Float32.t * array3 Float32.t)
  (p : ParticleData) : array3 Float32.t * array3 Float32.t :=
  let pos := float_pos p in
  (Arr3 (Float32.min (at0 r.1) (at0 pos)) (Float32.min (at1 r.1) (at1 pos))
        (Float32.min (at2 r.1) (at2 pos)),
   Arr3 (Float32.max (at0 r.2) (at0 pos)) (Float32.max (at1 r.2) (at1 pos))
        (Float32.max (at2 r.2) (at2 pos))).

Definition find_min_max_positions (all_particles : ParticleList)
  : outcome (array3 Float32.t * array3 Float32.t) :=
  match all_particles with
  | [] => Undefined
  | first :: _ =>
      Ok (fold_left min_max_step all_particles (float_pos first, float_pos first))
  end.

(** Line 133, [const int max_cells = std::cbrt(particle_count)]: the count, a
    [std::size_t], is converted to [double], the C library takes the cube
    root, and the initialisation truncates the result to [int].  The
    library's function is the parameter [cbrt]. *)
Definition max_cells_of (cbrt : Float64.t -> Float64.t) (particle_count : Z)
  : outcome Z :=
  Float64.to_int (cbrt (Float64.of_int particle_count)).

(** The integer cube root: [max_cells] for a library whose cube root of the
    particle count truncates to it, as an exact cube root does. *)
Fixpoint cbrt_search (fuel : nat) (k n : Z) : Z :=
  match fuel with
  | O => k
  | S fuel' =>
      if (k + 1) * (k + 1) * (k + 1) <=? n then cbrt_search fuel' (k + 1) n else k
  end.
Definition cbrt_int (n : Z) : Z := cbrt_search (Z.to_nat n) 0 n.

(** One round of the loop of lines 134-144: the cell count and the index
    factor of an axis whose interaction length is [length_i]. *)
Definition resolve_axis (max_cells : Z) (length_i min_i max_i : Float32.t)
  : outcome (Z * Float32.t) :=
  let factor := Float32.div Float32.lit_1 length_i in
  c ← Float32.to_int (Float32.ceil (Float32.mul (Float32.sub max_i min_i) factor));
  let n := Z.max 1 c in
  if n >? max_cells
  then Ok (max_cells,
           Float32.div (Float32.sub (Float32.of_int max_cells) Float32.lit_0_1)
                       (Float32.sub max_i min_i))
  else Ok (n, factor).

(** The loop of lines 134-144 over the three axes. *)
Definition resolve_geometry_with (max_cells : Z)
  (min_position max_position : array3 Float32.t)
  : outcome (array3 Z * array3 Float32.t) :=
  let len := max_interaction_length in
  r0 ← resolve_axis max_cells (at0 len) (at0 min_position) (at0 max_position);
  r1 ← resolve_axis max_cells (at1 len) (at1 min_position) (at1 max_position);
  r2 ← resolve_axis max_cells (at2 len) (at2 min_position) (at2 max_position);
  Ok (Arr3 r0.1 r1.1 r2.1, Arr3 r0.2 r1.2 r2.2).

Definition resolve_geometry (particle_count : Z)
  (min_position max_position : array3 Float32.t)
  : outcome (array3 Z * array3 Float32.t) :=
  resolve_geometry_with (cbrt_int particle_count) min_position max_position.

(** [cells_[idx].push_back(p)]; [operator[]] does not check its index, and
    the vector always has room to grow. *)
Definition push_back_at (cells : list ParticleList) (idx : Z) (p : ParticleData)
  : outcome (list ParticleList) :=
  if (0 <=? idx) && (idx <? Z.of_nat (length cells))
  then Ok (alter (fun c => c ++ [p]) (Z.to_nat idx) cells)
  else Undefined.

Definition cell_at (cells : list ParticleList) (idx : Z) : outcome ParticleList :=
  if idx <? 0 then Undefined
  else match cells !! Z.to_nat idx with
       | Some c => Ok c
       | None => Undefined
       end.

Definition out_of_bounds_msg : string :=
  "out-of-bounds grid access on construction".

(** The bounds check of the debug build ([NDEBUG] not defined).  [idx] is an
    [int] and [cells_.size()] is unsigned: a negative [idx] compares as a huge
    value. *)
Definition out_of_bounds (opt : GridOptions) (g : Grid) (idx : Z) : bool :=
  let n := number_of_cells_ g in
  let beyond := (idx <? 0) || (Z.of_nat (length (cells_ g)) <=? idx) in
  match opt with
  | Normal => beyond
  | PeriodicBoundaries =>
      (idx <? make_index g 1 1 0) ||
      (make_index g (at0 n - 1) (at1 n - 1) (at2 n - 1) <=? idx) ||
      beyond
  end.

(** The body of the loops over [all_particles] (lines 167-187, 255-272). *)
Definition place_particle (opt : GridOptions) (ndebug : bool) (g : Grid)
  (p : ParticleData) : outcome Grid :=
  idx ← make_index_pos opt g (threevec (position p));
  if negb ndebug && out_of_bounds opt g idx
  then Throw (runtime_error out_of_bounds_msg)
  else cells ← push_back_at (cells_ g) idx p; Ok (set_cells g cells).

Definition place_particles (opt : GridOptions) (ndebug : bool) (g : Grid)
  (all_particles : ParticleList) : outcome Grid :=
  foldlM (place_particle opt ndebug) g all_particles.

(** The mirror cell and the shift of a ghost cell (lines 199-219). *)
Definition ghost_source (g : Grid) (length : array3 Float32.t) (x y z : Z)
  : Z * FourVector :=
  let n := number_of_cells_ g in
  let idx := make_index g x y z in
  let zero := Float64.zero in
  let '(copy_idx, s1) :=
    if x =? 0 then (idx + (at0 n - 2), Float64.of_float (Float32.neg (at0 length)))
    else if x =? at0 n - 1 then (idx - (at0 n - 2), Float64.of_float (at0 length))
    else (idx, zero) in
  let '(copy_idx, s2) :=
    if y =? 0
    then (copy_idx + (at1 n - 2) * at0 n, Float64.of_float (Float32.neg (at1 length)))
    else if y =? at1 n - 1
    then (copy_idx - (at1 n - 2) * at0 n, Float64.of_float (at1 length))
    else (copy_idx, zero) in
  let '(copy_idx, s3) :=
    if z =? at2 n - 1
    then (copy_idx - (at2 n - 1) * (at0 n * at1 n), Float64.of_float (at2 length))
    else (copy_idx, zero) in
  (copy_idx, FourVec zero s1 s2 s3).

Definition shift_particle (position_shift : FourVector) (p : ParticleData)
  : ParticleData :=
  set_4position p (FourVector_add (position p) position_shift).

(** The body of the innermost ghost loop (lines 195-229). *)
Definition fill_ghost_cell (length : array3 Float32.t) (x y z : Z) (g : Grid)
  : outcome Grid :=
  if is_ghost_cell g x y z then
    let idx := make_index g x y z in
    _ ← cell_at (cells_ g) idx;
    let '(copy_idx, position_shift) := ghost_source g length x y z in
    src ← cell_at (cells_ g) copy_idx;
    Ok (set_cells g (<[Z.to_nat idx := map (shift_particle position_shift) src]>
                       (cells_ g)))
  else Ok g.

Definition fill_ghost_cells (length : array3 Float32.t) (g : Grid) : outcome Grid :=
  let n := number_of_cells_ g in
  foldlM (fun g z =>
    foldlM (fun g y =>
      foldlM (fun g x => fill_ghost_cell length x y z g) g (range 0 (at0 n)))
      g (range 0 (at1 n)))
    g (range 0 (at2 n)).

Definition all_of3 (n : array3 Z) (f : Z -> bool) : bool :=
  f (at0 n) && f (at1 n) && f (at2 n).

(** [cells_.resize(n0 * n1 * n2)] on the fresh grid. *)
Definition allocate (min_position index_factor : array3 Float32.t) (n : array3 Z)
  : Grid :=
  mkGrid min_position index_factor n
         (replicate (Z.to_nat (at0 n * at1 n * at2 n)) []).

(** The ghost layers of lines 148-150. *)
Definition add_ghost_layers (n : array3 Z) : array3 Z :=
  Arr3 (at0 n + 2) (at1 n + 2) (at2 n + 1).

Definition is_dilute (n : array3 Z) : bool := all_of3 n (fun k => k <=? 2).

Definition box_length (min_position max_position : array3 Float32.t)
  : array3 Float32.t :=
  Arr3 (Float32.sub (at0 max_position) (at0 min_position))
       (Float32.sub (at1 max_position) (at1 min_position))
       (Float32.sub (at2 max_position) (at2 min_position)).

(** The constructor taking the bounding box, from line 134 on, for the
    [max_cells] of line 133.  [ndebug] says whether [NDEBUG] is defined. *)
Definition Grid_with_max_cells (opt : GridOptions) (ndebug : bool)
  (max_cells : Z) (all_particles : ParticleList)
  (min_max_positions : array3 Float32.t * array3 Float32.t) : outcome Grid :=
  let min_position := min_max_positions.1 in
  let max_position := min_max_positions.2 in
  '(number_of_cells, index_factor) ←
     resolve_geometry_with max_cells min_position max_position;
  match opt with
  | PeriodicBoundaries =>
      let g := allocate min_position index_factor
                        (add_ghost_layers number_of_cells) in
      g ← place_particles PeriodicBoundaries ndebug g all_particles;
      fill_ghost_cells (box_length min_position max_position) g
  | Normal =>
      if is_dilute number_of_cells
      then Ok (mkGrid min_position index_factor (Arr3 1 1 1) [all_particles])
      else place_particles Normal ndebug
             (allocate min_position index_factor number_of_cells) all_particles
  end.

(** The constructor taking the bounding box (lines 108-276), over the C
    library's [cbrt].  Without [NDEBUG] the [assert] stops the program on an
    empty collection, which is modelled as undefined. *)
Definition Grid_from_bounds_with (cbrt : Float64.t -> Float64.t)
  (opt : GridOptions) (ndebug : bool) (all_particles : ParticleList)
  (min_max_positions : array3 Float32.t * array3 Float32.t) : outcome Grid :=
  let particle_count := Z.of_nat (length all_particles) in
  if negb ndebug && (particle_count <=? 0) then Undefined else
  max_cells ← max_cells_of cbrt particle_count;
  Grid_with_max_cells opt ndebug max_cells all_particles min_max_positions.

(** The same constructor where [std::cbrt(particle_count)] truncates to the
    integer cube root of the particle count. *)
Definition Grid_from_bounds (opt : GridOptions) (ndebug : bool)
  (all_particles : ParticleList)
  (min_max_positions : array3 Float32.t * array3 Float32.t) : outcome Grid :=
  let particle_count := Z.of_nat (length all_particles) in
  if negb ndebug && (particle_count <=? 0) then Undefined else
  Grid_with_max_cells opt ndebug (cbrt_int particle_count) all_particles
    min_max_positions.

(** The constructor that computes the bounding box itself (lines 104-106). *)
Definition Grid_from_particles_with (cbrt : Float64.t -> Float64.t)
  (opt : GridOptions) (ndebug : bool) (all_particles : ParticleList)
  : outcome Grid :=
  mm ← find_min_max_positions all_particles;
  Grid_from_bounds_with cbrt opt ndebug all_particles mm.

Definition Grid_from_particles (opt : GridOptions) (ndebug : bool)
  (all_particles : ParticleList) : outcome Grid :=
  mm ← find_min_max_positions all_particles;
  Grid_from_bounds opt ndebug all_particles mm.

(** ** Traversal: [iterate_cells] *)

(** One invocation of [call_finder]: the home cell and the neighbour cells it
    is handed.  A neighbour is a pointer into [cells_], kept here as the
    index together with the list it points to. *)
Record Call : Type := mkCall {
  home_index : Z;
  search_list : ParticleList;
  neighbors : list (Z * ParticleList)
}.

Fixpoint mapM {A B : Type} (f : A -> outcome B) (l : list A) : outcome (list B) :=
  match l with
  | [] => Ok []
  | a :: l' => b ← f a; bs ← mapM f l'; Ok (b :: bs)
  end.

(** The three nested loops of [call_closure] (lines 291-303). *)
Definition neighbor_indices (g : Grid) (cell_index : Z)
  (xoffsets yoffsets zoffsets : list Z) : list Z :=
  let n := number_of_cells_ g in
  dz ← zoffsets;
  let cell_index_dz := cell_index + dz * at1 n * at0 n in
  dy ← yoffsets;
  let cell_index_dzdy := cell_index_dz + dy * at0 n in
  dx ← xoffsets;
  let cell_index_dzdydx := cell_index_dzdy + dx in
  if cell_index_dzdydx >? cell_index then [cell_index_dzdydx] else [].

(** The arguments of one [call_closure]. *)
Definition closure_args : Type := Z * list Z * list Z * list Z.

Definition call_closure (g : Grid) (a : closure_args) : outcome Call :=
  let '(cell_index, xoffsets, yoffsets, zoffsets) := a in
  nb ← mapM (fun j => c ← cell_at (cells_ g) j; Ok (j, c))
            (neighbor_indices g cell_index xoffsets yoffsets zoffsets);
  home ← cell_at (cells_ g) cell_index;
  Ok (mkCall cell_index home nb).

(** [build_neighbors_with_zy] (lines 309-322): the calls of one row. *)
Definition build_neighbors_with_zy (g : Grid) (y z : Z) (yoffsets zoffsets : list Z)
  : list closure_args :=
  let n0 := at0 (number_of_cells_ g) in
  if n0 >? 1 then
    [(make_index g 0 y z, [0; 1], yoffsets, zoffsets)]
    ++ map (fun x => (make_index g x y z, [-1; 0; 1], yoffsets, zoffsets))
           (range 1 (n0 - 1))
    ++ [(make_index g (n0 - 1) y z, [-1; 0], yoffsets, zoffsets)]
  else [(make_index g 0 y z, [0], yoffsets, zoffsets)].

(** [build_neighbors_with_z] (lines 324-335): the calls of one layer. *)
Definition build_neighbors_with_z (g : Grid) (z : Z) (zoffsets : list Z)
  : list closure_args :=
  let n1 := at1 (number_of_cells_ g) in
  if n1 >? 1 then
    build_neighbors_with_zy g 0 z [0; 1] zoffsets
    ++ (y ← range 1 (n1 - 1); build_neighbors_with_zy g y z [-1; 0; 1] zoffsets)
    ++ build_neighbors_with_zy g (n1 - 1) z [-1; 0] zoffsets
  else build_neighbors_with_zy g 0 z [0] zoffsets.

(** The closures [iterate_cells] runs, in order (lines 337-355). *)
Definition closures (opt : GridOptions) (g : Grid) : list closure_args :=
  let n := number_of_cells_ g in
  match opt with
  | PeriodicBoundaries =>
      let max_x := at0 n - 1 in
      let max_y := at1 n - 1 in
      let max_z := at2 n - 1 in
      z ← range 0 max_z;
      y ← range 1 max_y;
      x ← range 1 max_x;
      [(make_index g x y z, [-1; 0; 1], [-1; 0; 1], [0; 1])]
  | Normal =>
      (z ← range 0 (at2 n - 1); build_neighbors_with_z g z [0; 1])
      ++ build_neighbors_with_z g (at2 n - 1) [0]
  end.

(** [iterate_cells]: the invocations of [call_finder], in order. *)
Definition iterate_cells (opt : GridOptions) (g : Grid) : outcome (list Call) :=
  mapM (call_closure g) (closures opt g).

(** ** What a traversal delivers *)

(** The cell a particle is bucketed into ([-1] when the index computation is
    undefined). *)
Definition home_cell (opt : GridOptions) (g : Grid) (p : ParticleData) : Z :=
  match make_index_pos opt g (threevec (position p)) with
  | Ok idx => idx
  | _ => -1
  end.

Definition has_id (i : Z) (l : ParticleList) : bool :=
  existsb (fun p => id p =? i) l.

(** The particles [a] and [b] (given by their ids, so that a ghost copy counts
    as the particle it copies) are handed to one callback together: both in
    the home list, or one in the home list and the other in a neighbour. *)
Definition delivers (a b : Z) (c : Call) : bool :=
  let in_home i := has_id i (search_list c) in
  let in_neighbor i := existsb (fun nb => has_id i nb.2) (neighbors c) in
  in_home a && in_home b || in_home a && in_neighbor b || in_home b && in_neighbor a.

Definition deliveries (a b : Z) (calls : list Call) : nat :=
  length (List.filter (delivers a b) calls).

(** The coordinates of a linear cell index, inverting [make_index]. *)
Definition cell_coords (n : array3 Z) (i : Z) : Z * Z * Z :=
  (i mod at0 n, (i / at0 n) mod at1 n, i / (at0 n * at1 n)).

Definition near (u v : Z) : bool := (u - v <=? 1) && (v - u <=? 1).

(** Two cells of an open grid touch: their coordinates differ by at most one
    on every axis. *)
Definition adjacent (n : array3 Z) (i j : Z) : bool :=
  let '(x, y, z) := cell_coords n i in
  let '(x', y', z') := cell_coords n j in
  near x x' && near y y' && near z z'.

(** Periodic grids: the interior cells, and the interior cell a cell mirrors.
    Along x and y the ghost layers are [0] and [n - 1]; along z the only ghost
    layer is [n - 1], and [-1] stands for the layer below the first. *)
Definition interior (n : array3 Z) (i : Z) : bool :=
  let '(x, y, z) := cell_coords n i in
  (1 <=? x) && (x <=? at0 n - 2) && (1 <=? y) && (y <=? at1 n - 2) &&
  (0 <=? z) && (z <=? at2 n - 2).

Definition wrap_xy (n_i t : Z) : Z :=
  if t =? 0 then n_i - 2 else if t =? n_i - 1 then 1 else t.
Definition wrap_z (n_i t : Z) : Z :=
  if t =? n_i - 1 then 0 else if t =? -1 then n_i - 2 else t.

Definition offsets3 : list (Z * Z * Z) :=
  dz ← [-1; 0; 1]; dy ← [-1; 0; 1]; dx ← [-1; 0; 1]; [(dx, dy, dz)].

(** Two interior cells of a periodic grid touch, possibly across the wrap. *)
Definition periodic_adjacent (n : array3 Z) (i j : Z) : bool :=
  let '(x, y, z) := cell_coords n i in
  let '(x', y', z') := cell_coords n j in
  existsb (fun '(dx, dy, dz) =>
             (wrap_xy (at0 n) (x + dx) =? x') && (wrap_xy (at1 n) (y + dy) =? y')
             && (wrap_z (at2 n) (z + dz) =? z'))
          offsets3.

(** ** Geometry resolution as the specification words it *)

(** [max_cells = floor(cbrt(particle_count))]: the largest [k] with
    [k^3 <= particle_count]. *)
Definition is_floor_cbrt (particle_count k : Z) : Prop :=
  0 <= k /\ k ^ 3 <= particle_count < (k + 1) ^ 3.


Definition naive_ceil_of (min_i max_i : Float32.t) : outcome Z :=
  Float32.to_int
    (Float32.ceil (Float32.mul (Float32.sub max_i min_i)
                               (Float32.div Float32.lit_1 Float32.lit_2_5))).

(** ** The nucleus-shape collaborator ([DeformedNucleus]) *)

Section DeformedNucleus.
(** The base class [Nucleus] and [Angles] are not part of the sources at
    hand: their state and the methods called here are parameters. *)
Variable Nucleus : Type.
Variable number_of_particles : Nucleus -> Z.
Variable Nucleus_set_parameters_automatic : Nucleus -> outcome Nucleus.
Variable Angles : Type.
Variable distribute_isotropically : Angles -> Angles.

Record DeformedNucleus : Type := mkDeformedNucleus {
  nucleus_base : Nucleus;
  beta2_ : Float64.t;
  beta4_ : Float64.t;
  nuclear_orientation_ : Angles
}.

Definition set_beta_2 (b2 : Float64.t) (d : DeformedNucleus) : DeformedNucleus :=
  mkDeformedNucleus (nucleus_base d) b2 (beta4_ d) (nuclear_orientation_ d).
Definition set_beta_4 (b4 : Float64.t) (d : DeformedNucleus) : DeformedNucleus :=
  mkDeformedNucleus (nucleus_base d) (beta2_ d) b4 (nuclear_orientation_ d).

Definition mass_number_msg : string :=
  "Mass number not listed in DeformedNucleus::set_parameters_automatic.".
Definition y_l_0_msg : string :=
  "Not a valid angular momentum quantum number in DeformedNucleus::y_l_0.".

(** [DeformedNucleus::set_parameters_automatic] (lines 50-82). *)
Definition set_parameters_automatic (d : DeformedNucleus)
  : outcome DeformedNucleus :=
  b ← Nucleus_set_parameters_automatic (nucleus_base d);
  let d := mkDeformedNucleus b (beta2_ d) (beta4_ d) (nuclear_orientation_ d) in
  d ← match number_of_particles b with
      | 238 => Ok (set_beta_4 (Float64.decimal 93 3)
                     (set_beta_2 (Float64.decimal 215 3) d))
      | 208 => Ok (set_beta_4 (Float64.decimal 0 1)
                     (set_beta_2 (Float64.decimal 0 1) d))
      | 197 => Ok (set_beta_4 (Float64.decimal (-31) 3)
                     (set_beta_2 (Float64.decimal (-131) 3) d))
      | 63 => Ok (set_beta_4 (Float64.decimal (-6) 3)
                    (set_beta_2 (Float64.decimal 162 3) d))
      | _ => Throw (domain_error mass_number_msg)
      end;
  Ok (mkDeformedNucleus (nucleus_base d) (beta2_ d) (beta4_ d)
        (distribute_isotropically (nuclear_orientation_ d))).
End DeformedNucleus.

Arguments mkDeformedNucleus {Nucleus Angles} _ _ _ _.
Arguments nucleus_base {Nucleus Angles} _.
Arguments beta2_ {Nucleus Angles} _.
Arguments beta4_ {Nucleus Angles} _.
Arguments nuclear_orientation_ {Nucleus Angles} _.
Arguments set_parameters_automatic {Nucleus} _ _ {Angles} _ _.

(** [DeformedNucleus::y_l_0] (lines 124-132); it reads no member. *)
Definition y_l_0 (l : Z) (cosx : Float64.t) : outcome Float64.t :=
  let lit := Float64.of_int in
  let mul := Float64.mul in
  let cc := mul cosx cosx in
  if l =? 2 then
    Ok (mul (mul (Float64.div (lit 1) (lit 4))
                 (Float64.sqrt (Float64.div (lit 5) Float64.M_PI)))
            (Float64.sub (mul (lit 3) cc) (lit 1)))
  else if l =? 4 then
    Ok (mul (mul (Float64.div (lit 3) (lit 16))
                 (Float64.sqrt (Float64.div (lit 1) Float64.M_PI)))
            (Float64.add (Float64.sub (mul (mul (lit 35) cc) cc)
                                      (mul (lit 30) cc))
                         (lit 3)))
  else Throw (domain_error y_l_0_msg).

(** [DeformedNucleus::deformed_woods_saxon] (lines 24-29), the caller of
    [y_l_0].  The getters of the base class and [std::exp] are parameters;
    a getter that returns [float] is taken after its promotion to [double],
    which is exact. *)
Section DeformedWoodsSaxon.
Variable Nucleus : Type.
Variable Angles : Type.
Variable get_saturation_density : Nucleus -> Float64.t.
Variable get_nuclear_radius : Nucleus -> Float64.t.
Variable get_diffusiveness : Nucleus -> Float64.t.
Variable exp : Float64.t -> Float64.t.

Definition deformed_woods_saxon (d : DeformedNucleus Nucleus Angles)
  (r cosx : Float64.t) : outcome Float64.t :=
  let one := Float64.of_int 1 in
  y2 ← y_l_0 2 cosx;
  y4 ← y_l_0 4 cosx;
  Ok (Float64.div (get_saturation_density (nucleus_base d))
        (Float64.add one
           (exp (Float64.sub r
                   (Float64.div
                      (Float64.mul (get_nuclear_radius (nucleus_base d))
                         (Float64.add
                            (Float64.add one (Float64.mul (beta2_ d) y2))
                            (Float64.mul (beta4_ d) y4)))
                      (get_diffusiveness (nucleus_base d))))))).
End DeformedWoodsSaxon.

Arguments deformed_woods_saxon {Nucleus Angles} _ _ _ _ _ _ _.

(** ** The collider modus ([ColliderModus::assign_params]) *)

(** An entry of the configuration list: [key()] and [value()]. *)
Record Parameters : Type := mkParameters { key : string; value : string }.

Section ColliderModus.
(** [atoi] and [atof] of the C library are parameters, and so is the type of
    the member [sqrts_] with the conversion of a [double] to it: the header
    is not part of the sources at hand. *)
Variable atoi : string -> Z.
Variable atof : string -> Float64.t.
Variable Sqrts : Type.
Variable to_sqrts : Float64.t -> Sqrts.

Record ColliderModus : Type := mkColliderModus {
  projectile_ : Z;
  target_ : Z;
  sqrts_ : Sqrts
}.

(** The three tests of the loop body (lines 24-36): the modus after them,
    and [match]. *)
Definition assign_param (m : ColliderModus) (p : Parameters)
  : ColliderModus * bool :=
  let '(m, matched) :=
    if String.eqb (key p) "PROJECTILE"
    then (mkColliderModus (atoi (value p)) (target_ m) (sqrts_ m), true)
    else (m, false) in
  let '(m, matched) :=
    if String.eqb (key p) "TARGET"
    then (mkColliderModus (projectile_ m) (atoi (value p)) (sqrts_ m), true)
    else (m, matched) in
  if String.eqb (key p) "SQRTS"
  then (mkColliderModus (projectile_ m) (target_ m)
          (to_sqrts (Float64.abs (atof (value p)))), true)
  else (m, matched).

(** [assign_params] (lines 16-45): the modus and the configuration list the
    loop leaves; a processed entry is erased, the others are stepped over. *)
Fixpoint assign_params (m : ColliderModus) (configuration : list Parameters)
  : ColliderModus * list Parameters :=
  match configuration with
  | [] => (m, [])
  | p :: rest =>
      let '(m', matched) := assign_param m p in
      let '(m'', rest') := assign_params m' rest in
      (m'', if matched then rest' else p :: rest')
  end.

(** The keys the modus understands. *)
Definition collider_key (k : string) : bool :=
  String.eqb k "PROJECTILE" || String.eqb k "TARGET" || String.eqb k "SQRTS".

(** The value of the last entry with key [k], if any. *)
Definition last_value (k : string) (configuration : list Parameters)
  : option string :=
  value <$> last (List.filter (fun p => String.eqb (key p) k) configuration).
End ColliderModus.

Arguments mkColliderModus {Sqrts} _ _ _.
Arguments projectile_ {Sqrts} _.
Arguments target_ {Sqrts} _.
Arguments sqrts_ {Sqrts} _.
Arguments assign_param _ _ {Sqrts} _ _ _.
Arguments assign_params _ _ {Sqrts} _ _ _.

(** ** The potentials ([potentials.cc]) *)

Record Potentials : Type := mkPotentials {
  use_skyrme_ : bool;
  use_symmetry_ : bool;
  skyrme_a_ : Float64.t;
  skyrme_b_ : Float64.t;
  skyrme_tau_ : Float64.t;
  symmetry_S_Pot_ : Float64.t;
  symmetry_is_rhoB_dependent_ : bool;
  symmetry_gamma_ : Float64.t
}.

Section Potentials.
(** The constant [nuclear_density] of [constants.h] and [std::pow] are
    parameters. *)
Variable nuclear_density : Float64.t.
Variable pow : Float64.t -> Float64.t -> Float64.t.

(** [Potentials::skyrme_pot] (lines 107-116). *)
Definition skyrme_pot (P : Potentials) (baryon_density : Float64.t) : Float64.t :=
  let tmp := Float64.div baryon_density nuclear_density in
  let sgn := if Float64.ltb (Float64.of_int 0) tmp then 1 else -1 in
  Float64.mul
    (Float64.mul (Float64.decimal 1 3) (Float64.of_int sgn))
    (Float64.add
       (Float64.mul (skyrme_a_ P) (Float64.abs tmp))
       (Float64.mul (skyrme_b_ P) (pow (Float64.abs tmp) (skyrme_tau_ P)))).

(** [Potentials::symmetry_S] (lines 117-124). *)
Definition symmetry_S (P : Potentials) (baryon_density : Float64.t) : Float64.t :=
  if symmetry_is_rhoB_dependent_ P then
    Float64.add
      (Float64.mul (Float64.decimal 123 1)
         (pow (Float64.div baryon_density nuclear_density)
              (Float64.div (Float64.of_int 2) (Float64.of_int 3))))
      (Float64.mul (Float64.of_int 20)
         (pow (Float64.div baryon_density nuclear_density) (symmetry_gamma_ P)))
  else Float64.zero.

(** [Potentials::symmetry_pot] (lines 125-134). *)
Definition symmetry_pot (P : Potentials)
  (baryon_isospin_density baryon_density : Float64.t) : Float64.t :=
  let milli := Float64.decimal 1 3 in
  let potential :=
    Float64.div
      (Float64.mul
         (Float64.mul (Float64.mul milli (Float64.of_int 2)) (symmetry_S_Pot_ P))
         baryon_isospin_density)
      nuclear_density in
  if symmetry_is_rhoB_dependent_ P then
    Float64.add potential
      (Float64.div
         (Float64.mul
            (Float64.mul (Float64.mul milli (symmetry_S P baryon_density))
                         baryon_isospin_density)
            baryon_isospin_density)
         (Float64.mul baryon_density baryon_density))
  else potential.
End Potentials.

(** ** Particle sets used in the scenarios *)

(** A particle with the given id at [(x, y, z)], at time 0. *)
Definition particle_at (i : Z) (x y z : Float64.t) : ParticleData :=
  Particle i (FourVec Float64.zero x y z).

(** 27 particles on a 3 x 3 x 3 lattice with the given spacing; the particle
    with lattice coordinates [(x, y, z)] has id [x + 3 y + 9 z]. *)
Definition lattice27 (spacing : Float64.t) : ParticleList :=
  z ← [0; 1; 2]; y ← [0; 1; 2]; x ← [0; 1; 2];
  [particle_at (x + 3 * y + 9 * z)
     (Float64.mul (Float64.of_int x) spacing)
     (Float64.mul (Float64.of_int y) spacing)
     (Float64.mul (Float64.of_int z) spacing)].

(** Particles on the x axis at the given abscissas, with ids 0, 1, 2, ... *)
Definition on_x_axis (xs : list Float64.t) : ParticleList :=
  imap (fun i x => particle_at (Z.of_nat i) x Float64.zero Float64.zero) xs.

(** Eight particles: four at x = 0 and four at x = 4. *)
Definition two_clusters : ParticleList :=
  on_x_axis (replicate 4 (Float64.of_int 0) ++ replicate 4 (Float64.of_int 4)).

(** Eight particles: seven at x = 0 and one at x = 5, twice the interaction
    length away. *)
Definition seven_and_one : ParticleList :=
  on_x_axis (replicate 7 (Float64.of_int 0) ++ [Float64.of_int 5]).

(** 27 particles in a periodic domain of length 10 on x: nine rows, at
    y, z in {0, 3, 6}, each with particles at x = 0, x = 9.9 and x = 10, but
    for the row y = z = 0, whose middle particle is at x = 0.1.  The particle
    number [xi] of row [(yi, zi)] has id [xi + 3 yi + 9 zi]. *)
Definition periodic_box : ParticleList :=
  zi ← [0; 1; 2]; yi ← [0; 1; 2]; xi ← [0; 1; 2];
  [particle_at (xi + 3 * yi + 9 * zi)
     (if xi =? 0 then Float64.of_int 0
      else if xi =? 2 then Float64.of_int 10
      else if (yi =? 0) && (zi =? 0) then Float64.decimal 1 1
      else Float64.decimal 99 1)
     (Float64.of_int (3 * yi)) (Float64.of_int (3 * zi))].

(** A single particle at (1, 1, 1). *)
Definition lone_particle : ParticleList :=
  [particle_at 0 (Float64.of_int 1) (Float64.of_int 1) (Float64.of_int 1)].

(** The lattices with spacing 2.5, 3 and 3.75. *)
Definition lattice_2_5 : ParticleList := lattice27 (Float64.decimal 25 1).
Definition lattice_3 : ParticleList := lattice27 (Float64.of_int 3).
Definition lattice_3_75 : ParticleList := lattice27 (Float64.decimal 375 2).


(** Cube roots of the C library for the scenarios.  [cbrt_floor] is a
    library that is exact on the perfect cubes: it returns the integer part
    of the root of the integer part.  [glibc_cbrt_3375] is what the [cbrt] of
    glibc returns for 3375.0, namely 14.999999999999998 =
    0x1.dffffffffffffp+3, the [double] next below 15. *)
Definition cbrt_floor (x : Float64.t) : Float64.t :=
  match x with
  | S754_finite false m e => Float64.of_int (cbrt_int (Ztrunc_fin false m e))
  | _ => x
  end.

(** The bounding box of a particle set and the grid built from it, for the
    scenarios (the origin and an empty grid stand in when there is none). *)
Definition origin3 : array3 Float32.t :=
  Arr3 (S754_zero false) (S754_zero false) (S754_zero false).
Definition bounds_of (ps : ParticleList) : array3 Float32.t * array3 Float32.t :=
  match find_min_max_positions ps with
  | Ok mm => mm
  | _ => (origin3, origin3)
  end.
Definition grid_of (o : outcome Grid) : Grid :=
  match o with
  | Ok g => g
  | _ => mkGrid origin3 origin3 (Arr3 0 0 0) []
  end.

(** The callbacks of a traversal (none when it does not return). *)
Definition calls_of (o : outcome (list Call)) : list Call :=
  match o with
  | Ok calls => calls
  | _ => []
  end.

(** The list of a cell, empty outside the array. *)
Definition cell (g : Grid) (idx : Z) : ParticleList :=
  if idx <? 0 then [] else default [] (cells_ g !! Z.to_nat idx).

(** ** Auxiliary notions for the statements and their proofs *)

(** Two grids under construction agree on everything but the cell contents. *)
Definition same_frame (g g' : Grid) : Prop :=
  min_position_ g' = min_position_ g /\ index_factor_ g' = index_factor_ g /\
  number_of_cells_ g' = number_of_cells_ g /\
  length (cells_ g') = length (cells_ g).

(** The coordinates of a cell of a grid with cell counts [n]. *)
Definition in_grid (n : array3 Z) (x y z : Z) : Prop :=
  0 <= x < at0 n /\ 0 <= y < at1 n /\ 0 <= z < at2 n.

(** The size of the cell array. *)
Definition cell_count (n : array3 Z) : Z := at0 n * at1 n * at2 n.

(** A periodic grid before its ghost cells are filled: at least one interior
    cell per axis and all cells allocated. *)
Definition periodic_frame (g : Grid) : Prop :=
  3 <= at0 (number_of_cells_ g) /\ 3 <= at1 (number_of_cells_ g) /\
  2 <= at2 (number_of_cells_ g) /\
  Z.of_nat (length (cells_ g)) = cell_count (number_of_cells_ g).

(** The interior cell a cell of a periodic grid mirrors (itself when it is
    interior). *)
Definition mirror_index (n : array3 Z) (x y z : Z) : Z :=
  make_index_n n (wrap_xy (at0 n) x) (wrap_xy (at1 n) y) (wrap_z (at2 n) z).

(** The cells of a grid in the order of the three nested loops over z, y
    and x. *)
Definition all_cells (n : array3 Z) : list (Z * Z * Z) :=
  z ← range 0 (at2 n); y ← range 0 (at1 n); x ← range 0 (at0 n); [(x, y, z)].

(** The shift of the positions of a ghost cell. *)
Definition ghost_shift (g : Grid) (len : array3 Float32.t) (x y z : Z) : FourVector :=
  (ghost_source g len x y z).2.

(** The offsets an open grid uses along an axis of [n] cells at coordinate
    [x]: truncated at the first and the last cell. *)
Definition stencil (n x : Z) : list Z :=
  (if 0 <? x then [-1] else []) ++ [0] ++ (if x <? n - 1 then [1] else []).

(** Along z only forward offsets are used. *)
Definition zstencil (n z : Z) : list Z :=
  0 :: (if z <? n - 1 then [1] else []).

(** The interior cells of a periodic grid, in the order the traversal visits
    them. *)
Definition interior_cells (n : array3 Z) : list (Z * Z * Z) :=
  z ← range 0 (at2 n - 1); y ← range 1 (at1 n - 1); x ← range 1 (at0 n - 1);
  [(x, y, z)].

(** The closure of a cell of an open grid, and of an interior cell of a
    periodic grid. *)
Definition normal_args (g : Grid) (t : Z * Z * Z) : closure_args :=
  let '(x, y, z) := t in
  let n := number_of_cells_ g in
  (make_index g x y z, stencil (at0 n) x, stencil (at1 n) y, zstencil (at2 n) z).

Definition periodic_args (g : Grid) (t : Z * Z * Z) : closure_args :=
  let '(x, y, z) := t in
  (make_index g x y z, [-1; 0; 1], [-1; 0; 1], [0; 1]).

(** The callback invocation a closure makes when all its cells exist. *)
Definition call_of (g : Grid) (a : closure_args) : Call :=
  let '(cell_index, xoffsets, yoffsets, zoffsets) := a in
  mkCall cell_index (cell g cell_index)
         (map (fun j => (j, cell g j))
              (neighbor_indices g cell_index xoffsets yoffsets zoffsets)).

(** The offsets that lead from a cell to a later cell. *)
Definition forward (dx dy dz : Z) : Prop :=
  dz = 1 \/ (dz = 0 /\ (dy = 1 \/ (dy = 0 /\ dx = 1))).

(** An open multi-cell grid holding the particles [ps], each in the cell of
    its index. *)
Definition open_bucketed (g : Grid) (ps : ParticleList) : Prop :=
  let n := number_of_cells_ g in
  (1 <= at0 n /\ 1 <= at1 n /\ 1 <= at2 n) /\
  Z.of_nat (length (cells_ g)) = cell_count n /\
  (forall p, p ∈ ps -> 0 <= home_cell Normal g p < cell_count n) /\
  (forall j, 0 <= j < cell_count n ->
     cell g j = filter (fun p => home_cell Normal g p = j) ps).

(** A periodic grid holding the particles [ps]: every cell holds the ids of
    the particles that map to the interior cell it mirrors. *)
Definition periodic_bucketed (g : Grid) (ps : ParticleList) : Prop :=
  let n := number_of_cells_ g in
  periodic_frame g /\
  forall x y z p, in_grid n x y z -> p ∈ ps ->
    (has_id (id p) (cell g (make_index g x y z)) = true <->
     home_cell PeriodicBoundaries g p = mirror_index n x y z).

(** A forward offset leads from the interior cell (x, y, z) to a cell that
    mirrors the interior cell (x', y', z'). *)
Definition reach (n : array3 Z) (x y z x' y' z' : Z) : Prop :=
  exists dx dy dz,
    -1 <= dx <= 1 /\ -1 <= dy <= 1 /\ forward dx dy dz /\
    wrap_xy (at0 n) (x + dx) = x' /\ wrap_xy (at1 n) (y + dy) = y' /\
    wrap_z (at2 n) (z + dz) = z'.

(** The shift of a ghost cell, axis by axis: minus the length of the box
    where the cell is at index 0 of x or y, plus the length where it is at
    the last index, nothing elsewhere. *)
Definition shift_of (n : array3 Z) (len : array3 Float32.t) (x y z : Z)
  : FourVector :=
  let lo_hi (i n_i : Z) (l : Float32.t) :=
    if i =? 0 then Float64.of_float (Float32.neg l)
    else if i =? n_i - 1 then Float64.of_float l
    else Float64.zero in
  FourVec Float64.zero
    (lo_hi x (at0 n) (at0 len)) (lo_hi y (at1 n) (at1 len))
    (if z =? at2 n - 1 then Float64.of_float (at2 len) else Float64.zero).

(** A coordinate lies in a closed interval, in the comparison of the code:
    it is not less than the lower end and the upper end is not less than it. *)
Definition within (lo hi x : Float32.t) : Prop :=
  Float32.ltb x lo = false /\ Float32.ltb hi x = false.

(** A [float] that is neither infinite nor a NaN ([std::isfinite]). *)
Definition is_finite (x : spec_float) : bool :=
  match x with
  | S754_zero _ | S754_finite _ _ _ => true
  | _ => false
  end.

(** The thirteen forward offsets [(dx, dy, dz)] of the half shell, in the
    order the loops of [call_closure] meet them. *)
Definition forward_offsets : list (Z * Z * Z) :=
  [(1, 0, 0); (-1, 1, 0); (0, 1, 0); (1, 1, 0);
   (-1, -1, 1); (0, -1, 1); (1, -1, 1); (-1, 0, 1); (0, 0, 1); (1, 0, 1);
   (-1, 1, 1); (0, 1, 1); (1, 1, 1)].

(** * Properties *)

(** ** The outcome monad *)

Lemma bind_Ok {A B : Type} (m : outcome A) (f : A -> outcome B) (b : B) :
  m ≫= f = Ok b <-> exists a, m = Ok a /\ f a = Ok b.
Proof.
  destruct m as [a| |]; simpl; split.
  - intros H. exists a. split; [reflexivity | exact H].
  - intros (a' & Ha & Hf). injection Ha as ->. exact Hf.
  - discriminate.
  - intros (a' & Ha & _). discriminate.
  - discriminate.
  - intros (a' & Ha & _). discriminate.
Qed.

Lemma bind_Throw {A B : Type} (m : outcome A) (f : A -> outcome B) (e : exn) :
  m ≫= f = Throw e <-> m = Throw e \/ exists a, m = Ok a /\ f a = Throw e.
Proof.
  destruct m as [a| e' |]; simpl; split.
  - intros H. right. exists a. split; [reflexivity | exact H].
  - intros [H | (a' & Ha & Hf)]; [discriminate |]. injection Ha as ->. exact Hf.
  - intros H. left. congruence.
  - intros [H | (a' & Ha & _)]; [congruence | discriminate].
  - discriminate.
  - intros [H | (a' & Ha & _)]; discriminate.
Qed.

Lemma mapM_Ok {A B : Type} (f : A -> outcome B) (h : A -> B) (l : list A) :
  (forall a, a ∈ l -> f a = Ok (h a)) -> mapM f l = Ok (map h l).
Proof.
  induction l as [|a l IH]; intros Hf; simpl.
  - reflexivity.
  - rewrite (Hf a) by apply list_elem_of_here. simpl.
    rewrite IH; [reflexivity |].
    intros a' Ha'. apply Hf. apply list_elem_of_further. exact Ha'.
Qed.

Lemma foldlM_app {S A : Type} (f : S -> A -> outcome S) (s : S) (l1 l2 : list A) :
  foldlM f s (l1 ++ l2) = foldlM f s l1 ≫= fun s' => foldlM f s' l2.
Proof.
  revert s. induction l1 as [|a l1 IH]; intros s; simpl.
  - reflexivity.
  - destruct (f s a) as [s'| |]; simpl; [apply IH | reflexivity | reflexivity].
Qed.

Lemma foldlM_bind {S A B : Type} (f : S -> B -> outcome S) (h : A -> list B)
  (s : S) (l : list A) :
  foldlM f s (l ≫= h) = foldlM (fun s a => foldlM f s (h a)) s l.
Proof.
  revert s. induction l as [|a l IH]; intros s.
  - reflexivity.
  - change ((a :: l) ≫= h) with (h a ++ (l ≫= h)).
    rewrite foldlM_app. simpl.
    destruct (foldlM f s (h a)) as [s'| |]; simpl; [apply IH | reflexivity | reflexivity].
Qed.

(** ** The cube root *)

Lemma cbrt_search_spec (fuel : nat) (k n : Z) :
  0 <= k -> k ^ 3 <= n -> n <= k + Z.of_nat fuel ->
  is_floor_cbrt n (cbrt_search fuel k n).
Proof.
  revert k. induction fuel as [|fuel IH]; intros k Hk Hlo Hhi; simpl.
  - split; [exact Hk |]. split; [exact Hlo |]. nia.
  - destruct ((k + 1) * (k + 1) * (k + 1) <=? n) eqn:E.
    + apply Z.leb_le in E. apply IH; [lia | nia | lia].
    + apply Z.leb_gt in E. split; [exact Hk |]. split; [exact Hlo | nia].
Qed.

Lemma cbrt_int_spec (n : Z) : 0 <= n -> is_floor_cbrt n (cbrt_int n).
Proof.
  intros Hn. unfold cbrt_int. apply cbrt_search_spec; lia.
Qed.

Lemma cbrt_int_pos (n : Z) : 1 <= n -> 1 <= cbrt_int n.
Proof.
  intros Hn. destruct (cbrt_int_spec n) as (H0 & _ & Hhi); [lia |].
  destruct (Z.eq_dec (cbrt_int n) 0) as [E|E]; [| lia].
  rewrite E in Hhi. simpl in Hhi. lia.
Qed.

(** ** Geometry resolution *)


Lemma resolve_axis_bounds (max_cells : Z) (len min_i max_i : Float32.t) (c : Z)
  (f : Float32.t) :
  1 <= max_cells -> resolve_axis max_cells len min_i max_i = Ok (c, f) ->
  1 <= c <= max_cells.
Proof.
  unfold resolve_axis. intros Hm H.
  apply bind_Ok in H as (naive & _ & H).
  destruct (Z.max 1 naive >? max_cells) eqn:E; injection H as <- <-.
  - lia.
  - rewrite Z.gtb_ltb in E. apply Z.ltb_ge in E. lia.
Qed.

Lemma resolve_geometry_Ok (count : Z) (mn mx : array3 Float32.t) (n : array3 Z)
  (f : array3 Float32.t) :
  resolve_geometry count mn mx = Ok (n, f) ->
  resolve_axis (cbrt_int count) Float32.lit_2_5 (at0 mn) (at0 mx) = Ok (at0 n, at0 f) /\
  resolve_axis (cbrt_int count) Float32.lit_2_5 (at1 mn) (at1 mx) = Ok (at1 n, at1 f) /\
  resolve_axis (cbrt_int count) Float32.lit_2_5 (at2 mn) (at2 mx) = Ok (at2 n, at2 f).
Proof.
  unfold resolve_geometry, resolve_geometry_with. intros H.
  apply bind_Ok in H as ([c0 f0] & H0 & H).
  apply bind_Ok in H as ([c1 f1] & H1 & H).
  apply bind_Ok in H as ([c2 f2] & H2 & H).
  injection H as <- <-. simpl in *. auto.
Qed.

Lemma resolve_geometry_bounds (count : Z) (mn mx : array3 Float32.t)
  (n : array3 Z) (f : array3 Float32.t) :
  1 <= count -> resolve_geometry count mn mx = Ok (n, f) ->
  1 <= at0 n <= cbrt_int count /\ 1 <= at1 n <= cbrt_int count /\
  1 <= at2 n <= cbrt_int count.
Proof.
  intros Hc H. apply resolve_geometry_Ok in H as (H0 & H1 & H2).
  pose proof (cbrt_int_pos count Hc) as Hm.
  pose proof (resolve_axis_bounds _ _ _ _ _ _ Hm H0).
  pose proof (resolve_axis_bounds _ _ _ _ _ _ Hm H1).
  pose proof (resolve_axis_bounds _ _ _ _ _ _ Hm H2).
  lia.
Qed.

(** ** The shape of a constructed grid *)

Lemma Grid_from_bounds_Ok (opt : GridOptions) (ndebug : bool) (ps : ParticleList)
  (mm : array3 Float32.t * array3 Float32.t) (g : Grid) :
  Grid_from_bounds opt ndebug ps mm = Ok g ->
  exists n f,
    resolve_geometry (Z.of_nat (length ps)) mm.1 mm.2 = Ok (n, f) /\
    match opt with
    | PeriodicBoundaries =>
        exists g1,
          place_particles PeriodicBoundaries ndebug
            (allocate mm.1 f (add_ghost_layers n)) ps = Ok g1 /\
          fill_ghost_cells (box_length mm.1 mm.2) g1 = Ok g
    | Normal =>
        if is_dilute n then g = mkGrid mm.1 f (Arr3 1 1 1) [ps]
        else place_particles Normal ndebug (allocate mm.1 f n) ps = Ok g
    end.
Proof.
  unfold Grid_from_bounds, Grid_with_max_cells. intros H.
  destruct (negb ndebug && (Z.of_nat (length ps) <=? 0)); [discriminate |].
  apply bind_Ok in H as ([n f] & Hr & H). exists n, f. split; [exact Hr |].
  destruct opt.
  - destruct (is_dilute n); [congruence | exact H].
  - apply bind_Ok in H as (g1 & H1 & H2). exists g1. auto.
Qed.

(** ** Bucketing *)

Lemma same_frame_refl (g : Grid) : same_frame g g.
Proof. repeat split. Qed.

Lemma same_frame_trans (g1 g2 g3 : Grid) :
  same_frame g1 g2 -> same_frame g2 g3 -> same_frame g1 g3.
Proof. unfold same_frame. intros (-> & -> & -> & ->) (-> & -> & -> & ->). auto. Qed.

Lemma same_frame_make_index_pos (opt : GridOptions) (g g' : Grid)
  (pos : ThreeVector) :
  same_frame g g' -> make_index_pos opt g' pos = make_index_pos opt g pos.
Proof.
  intros (Hm & Hf & Hn & _). unfold make_index_pos, make_index.
  rewrite Hm, Hf, Hn. reflexivity.
Qed.

Lemma same_frame_home_cell (opt : GridOptions) (g g' : Grid) (p : ParticleData) :
  same_frame g g' -> home_cell opt g' p = home_cell opt g p.
Proof.
  intros H. unfold home_cell. rewrite (same_frame_make_index_pos opt g g' _ H).
  reflexivity.
Qed.

Lemma same_frame_out_of_bounds (opt : GridOptions) (g g' : Grid) (idx : Z) :
  same_frame g g' -> out_of_bounds opt g' idx = out_of_bounds opt g idx.
Proof.
  intros (_ & _ & Hn & Hl). unfold out_of_bounds, make_index.
  rewrite Hn, Hl. reflexivity.
Qed.

Lemma push_back_at_Ok (cells cells' : list ParticleList) (idx : Z)
  (p : ParticleData) :
  push_back_at cells idx p = Ok cells' ->
  0 <= idx < Z.of_nat (length cells) /\
  cells' = alter (fun c => c ++ [p]) (Z.to_nat idx) cells.
Proof.
  unfold push_back_at. intros H.
  destruct ((0 <=? idx) && (idx <? Z.of_nat (length cells))) eqn:E; [| discriminate].
  apply andb_true_iff in E as [E1 E2].
  apply Z.leb_le in E1. apply Z.ltb_lt in E2.
  injection H as <-. split; [lia | reflexivity].
Qed.

Lemma place_particle_Ok (opt : GridOptions) (ndebug : bool) (g g' : Grid)
  (p : ParticleData) :
  place_particle opt ndebug g p = Ok g' ->
  exists idx,
    make_index_pos opt g (threevec (position p)) = Ok idx /\
    (negb ndebug && out_of_bounds opt g idx = false) /\
    0 <= idx < Z.of_nat (length (cells_ g)) /\
    g' = set_cells g (alter (fun c => c ++ [p]) (Z.to_nat idx) (cells_ g)).
Proof.
  unfold place_particle. intros H.
  apply bind_Ok in H as (idx & Hi & H). exists idx. split; [exact Hi |].
  destruct (negb ndebug && out_of_bounds opt g idx); [discriminate |].
  apply bind_Ok in H as (cells & Hc & H). injection H as <-.
  apply push_back_at_Ok in Hc as [Hr ->]. auto.
Qed.

(** What the loop over [all_particles] leaves in the cells: every particle is
    appended to the cell of its index, in the order of the collection. *)
Lemma place_particles_Ok (opt : GridOptions) (ndebug : bool)
  (ps : ParticleList) (g g' : Grid) :
  place_particles opt ndebug g ps = Ok g' ->
  same_frame g g' /\
  (forall p, p ∈ ps ->
     make_index_pos opt g (threevec (position p)) = Ok (home_cell opt g p) /\
     (negb ndebug && out_of_bounds opt g (home_cell opt g p) = false) /\
     0 <= home_cell opt g p < Z.of_nat (length (cells_ g))) /\
  (forall (j : nat) c, cells_ g !! j = Some c ->
     cells_ g' !! j =
       Some (c ++ filter (fun p => home_cell opt g p = Z.of_nat j) ps)).
Proof.
  unfold place_particles. revert g.
  induction ps as [|p ps IH]; intros g H; simpl in H.
  - injection H as <-. split; [apply same_frame_refl |]. split.
    + intros p Hp. inversion Hp.
    + intros j c Hj. rewrite filter_nil, app_nil_r. exact Hj.
  - apply bind_Ok in H as (g1 & H1 & H).
    apply place_particle_Ok in H1 as (idx & Hi & Hb & Hr & ->).
    set (g1 := set_cells g _) in *.
    assert (Hsf : same_frame g g1).
    { repeat split. simpl. apply length_alter. }
    apply IH in H as (Hsf' & Hall & Hcells).
    assert (Hhome : home_cell opt g p = idx).
    { unfold home_cell. rewrite Hi. reflexivity. }
    split; [eapply same_frame_trans; eauto |]. split.
    + intros q Hq. apply elem_of_cons in Hq as [-> | Hq].
      * rewrite Hhome. auto.
      * destruct (Hall q Hq) as (Ha & Hb' & Hc).
        rewrite (same_frame_home_cell opt g g1 q Hsf) in Ha, Hb', Hc.
        rewrite (same_frame_make_index_pos opt g g1 _ Hsf) in Ha.
        rewrite (same_frame_out_of_bounds opt g g1 _ Hsf) in Hb'.
        destruct Hsf as (_ & _ & _ & Hl). rewrite Hl in Hc. auto.
    + intros j c Hj.
      rewrite filter_cons.
      destruct (decide (Z.to_nat idx = j)) as [E | E].
      * assert (Hg1 : cells_ g1 !! j = Some (c ++ [p])).
        { simpl. rewrite list_lookup_alter. rewrite decide_True by exact E.
          rewrite E, Hj. reflexivity. }
        rewrite (Hcells j _ Hg1).
        rewrite decide_True by lia.
        rewrite <- app_assoc. reflexivity.
      * assert (Hg1 : cells_ g1 !! j = Some c).
        { simpl. rewrite list_lookup_alter. rewrite decide_False by exact E.
          exact Hj. }
        rewrite (Hcells j _ Hg1).
        rewrite decide_False by lia. reflexivity.
Qed.

Lemma foldlM_preserves {S A : Type} (R : S -> S -> Prop) (f : S -> A -> outcome S) :
  (forall s, R s s) -> (forall a b c, R a b -> R b c -> R a c) ->
  (forall s a s', f s a = Ok s' -> R s s') ->
  forall l s s', foldlM f s l = Ok s' -> R s s'.
Proof.
  intros Hrefl Htrans Hstep l.
  induction l as [|a l IH]; intros s s' H; simpl in H.
  - injection H as <-. apply Hrefl.
  - apply bind_Ok in H as (s1 & H1 & H).
    eapply Htrans; [eapply Hstep; exact H1 | apply IH; exact H].
Qed.

Lemma fill_ghost_cell_frame (len : array3 Float32.t) (x y z : Z) (g g' : Grid) :
  fill_ghost_cell len x y z g = Ok g' -> same_frame g g'.
Proof.
  unfold fill_ghost_cell. intros H.
  destruct (is_ghost_cell g x y z).
  - apply bind_Ok in H as (c & _ & H).
    destruct (ghost_source g len x y z) as [copy_idx shift].
    apply bind_Ok in H as (src & _ & H). injection H as <-.
    repeat split. simpl. apply length_insert.
  - injection H as <-. apply same_frame_refl.
Qed.

Lemma fill_ghost_cells_frame (len : array3 Float32.t) (g g' : Grid) :
  fill_ghost_cells len g = Ok g' -> same_frame g g'.
Proof.
  unfold fill_ghost_cells.
  apply (foldlM_preserves same_frame);
    [apply same_frame_refl | apply same_frame_trans |].
  intros g1 z g1'.
  apply (foldlM_preserves same_frame);
    [apply same_frame_refl | apply same_frame_trans |].
  intros g2 y g2'.
  apply (foldlM_preserves same_frame);
    [apply same_frame_refl | apply same_frame_trans |].
  intros g3 x g3'. apply fill_ghost_cell_frame.
Qed.

(** The frame of a constructed grid: the resolved geometry, with the ghost
    layers added for periodic boundaries and collapsed in the dilute limit. *)
Lemma Grid_from_bounds_frame (opt : GridOptions) (ndebug : bool)
  (ps : ParticleList) (mm : array3 Float32.t * array3 Float32.t) (g : Grid) :
  Grid_from_bounds opt ndebug ps mm = Ok g ->
  exists n f,
    resolve_geometry (Z.of_nat (length ps)) mm.1 mm.2 = Ok (n, f) /\
    min_position_ g = mm.1 /\ index_factor_ g = f /\
    number_of_cells_ g =
      match opt with
      | PeriodicBoundaries => add_ghost_layers n
      | Normal => if is_dilute n then Arr3 1 1 1 else n
      end.
Proof.
  intros H. apply Grid_from_bounds_Ok in H as (n & f & Hr & H).
  exists n, f. split; [exact Hr |]. destruct opt.
  - destruct (is_dilute n).
    + subst g. auto.
    + apply place_particles_Ok in H as ((Hm & Hf & Hn & _) & _). auto.
  - destruct H as (g1 & H1 & H2).
    apply place_particles_Ok in H1 as ((Hm & Hf & Hn & _) & _).
    apply fill_ghost_cells_frame in H2 as (Hm' & Hf' & Hn' & _).
    rewrite Hm', Hf', Hn', Hm, Hf, Hn. auto.
Qed.

Lemma nonempty_count (ps : ParticleList) : ps <> [] -> 1 <= Z.of_nat (length ps).
Proof. destruct ps; [congruence | simpl; lia]. Qed.

(** ** The constructor over the library's cube root *)


Lemma resolve_geometry_with_Ok (max_cells : Z) (mn mx : array3 Float32.t)
  (n : array3 Z) (f : array3 Float32.t) :
  resolve_geometry_with max_cells mn mx = Ok (n, f) <->
  resolve_axis max_cells Float32.lit_2_5 (at0 mn) (at0 mx) = Ok (at0 n, at0 f) /\
  resolve_axis max_cells Float32.lit_2_5 (at1 mn) (at1 mx) = Ok (at1 n, at1 f) /\
  resolve_axis max_cells Float32.lit_2_5 (at2 mn) (at2 mx) = Ok (at2 n, at2 f).
Proof.
  unfold resolve_geometry_with. cbn [max_interaction_length at0 at1 at2]. split.
  - intros H.
    apply bind_Ok in H as ([c0 f0] & H0 & H).
    apply bind_Ok in H as ([c1 f1] & H1 & H).
    apply bind_Ok in H as ([c2 f2] & H2 & H).
    injection H as <- <-. simpl in *. auto.
  - intros (H0 & H1 & H2). rewrite H0, H1, H2.
    destruct n, f. reflexivity.
Qed.

Lemma Grid_with_max_cells_resolved (opt : GridOptions) (ndebug : bool)
  (max_cells : Z) (ps : ParticleList)
  (mm : array3 Float32.t * array3 Float32.t) (n : array3 Z)
  (f : array3 Float32.t) :
  resolve_geometry_with max_cells mm.1 mm.2 = Ok (n, f) ->
  Grid_with_max_cells opt ndebug max_cells ps mm =
    match opt with
    | PeriodicBoundaries =>
        place_particles PeriodicBoundaries ndebug
          (allocate mm.1 f (add_ghost_layers n)) ps
        ≫= fill_ghost_cells (box_length mm.1 mm.2)
    | Normal =>
        if is_dilute n then Ok (mkGrid mm.1 f (Arr3 1 1 1) [ps])
        else place_particles Normal ndebug (allocate mm.1 f n) ps
    end.
Proof.
  intros Hr. unfold Grid_with_max_cells. rewrite Hr.
  cbn [mbind outcome_bind]. destruct opt; reflexivity.
Qed.

Lemma Grid_from_bounds_with_max_cells (cbrt : Float64.t -> Float64.t)
  (opt : GridOptions) (ndebug : bool) (ps : ParticleList)
  (mm : array3 Float32.t * array3 Float32.t) (max_cells : Z) :
  ps <> [] ->
  max_cells_of cbrt (Z.of_nat (length ps)) = Ok max_cells ->
  Grid_from_bounds_with cbrt opt ndebug ps mm =
  Grid_with_max_cells opt ndebug max_cells ps mm.
Proof.
  intros Hne Hm. unfold Grid_from_bounds_with.
  pose proof (nonempty_count ps Hne) as Hc.
  replace (Z.of_nat (length ps) <=? 0) with false by (symmetry; apply Z.leb_gt; lia).
  rewrite andb_false_r, Hm. reflexivity.
Qed.

(** [Grid_from_bounds] is the constructor for every library whose cube root
    of the particle count truncates to the integer cube root. *)
Lemma Grid_from_bounds_with_cbrt_int (cbrt : Float64.t -> Float64.t)
  (opt : GridOptions) (ndebug : bool) (ps : ParticleList)
  (mm : array3 Float32.t * array3 Float32.t) :
  max_cells_of cbrt (Z.of_nat (length ps)) = Ok (cbrt_int (Z.of_nat (length ps))) ->
  Grid_from_bounds_with cbrt opt ndebug ps mm = Grid_from_bounds opt ndebug ps mm.
Proof.
  intros Hm. unfold Grid_from_bounds_with, Grid_from_bounds. rewrite Hm.
  reflexivity.
Qed.

Lemma make_index_pos_coordinates (opt : GridOptions) (g : Grid)
  (pos : ThreeVector) (c : array3 Z) :
  cell_coordinates opt g pos = Ok c ->
  make_index_pos opt g pos = Ok (make_index g (at0 c) (at1 c) (at2 c)).
Proof.
  unfold cell_coordinates, make_index_pos. intros H. destruct opt;
    (apply bind_Ok in H as (x & Hx & H); apply bind_Ok in H as (y & Hy & H);
     apply bind_Ok in H as (z & Hz & H); injection H as <-;
     rewrite Hx, Hy, Hz; reflexivity).
Qed.



(** C6 -- Periodic grid shape and ghost classification.  In periodic mode
    the stored cell counts are the resolved counts plus 2 on x, 2 on y and 1
    on z, and [is_ghost_cell x y z] holds exactly when x or y is at an
    extreme index or z is at the last index; index 0 of z is not the last
    index, so a cell with interior x and y at z = 0 is not a ghost cell. *)
Theorem periodic_shape_and_ghost_classification (ndebug : bool)
  (ps : ParticleList) (mm : array3 Float32.t * array3 Float32.t) (g : Grid) :
  ps <> [] -> Grid_from_bounds PeriodicBoundaries ndebug ps mm = Ok g ->
  exists n f,
    resolve_geometry (Z.of_nat (length ps)) mm.1 mm.2 = Ok (n, f) /\
    number_of_cells_ g = Arr3 (at0 n + 2) (at1 n + 2) (at2 n + 1) /\
    (forall x y z,
       is_ghost_cell g x y z = true <->
       x = 0 \/ x = at0 (number_of_cells_ g) - 1 \/
       y = 0 \/ y = at1 (number_of_cells_ g) - 1 \/
       z = at2 (number_of_cells_ g) - 1) /\
    0 <> at2 (number_of_cells_ g) - 1 /\
    (forall x y,
       0 < x < at0 (number_of_cells_ g) - 1 ->
       0 < y < at1 (number_of_cells_ g) - 1 ->
       is_ghost_cell g x y 0 = false).
Proof.
  intros Hne H.
  apply Grid_from_bounds_frame in H as (n & f & Hr & _ & _ & Hn).
  pose proof (resolve_geometry_bounds _ _ _ _ _ (nonempty_count ps Hne) Hr) as Hb.
  exists n, f. split; [exact Hr |]. split; [exact Hn |].
  unfold is_ghost_cell. rewrite Hn. unfold add_ghost_layers. cbn [at0 at1 at2].
  split; [| split].
  - intros x y z. rewrite !orb_true_iff, !Z.eqb_eq. lia.
  - lia.
  - intros x y Hx Hy. rewrite !orb_false_iff, !Z.eqb_neq. lia.
Qed.

(** C9 -- Unsupported configurations of the nucleus shape.  [y_l_0 l cosx]
    returns a value for l = 2 and l = 4 and raises a domain error for every
    other l.  Once the inherited [Nucleus::set_parameters_automatic] has
    returned, [DeformedNucleus::set_parameters_automatic] raises a domain
    error exactly when the nucleon count is none of 238, 208, 197, 63, and
    returns otherwise. *)
Theorem unsupported_configuration_errors
  (Nucleus Angles : Type) (number_of_particles : Nucleus -> Z)
  (Nucleus_set_parameters_automatic : Nucleus -> outcome Nucleus)
  (distribute_isotropically : Angles -> Angles)
  (d : DeformedNucleus Nucleus Angles) (b : Nucleus) (l : Z) (cosx : Float64.t) :
  Nucleus_set_parameters_automatic (nucleus_base d) = Ok b ->
  let run := set_parameters_automatic number_of_particles
               Nucleus_set_parameters_automatic distribute_isotropically d in
  let listed := number_of_particles b = 238 \/ number_of_particles b = 208 \/
                number_of_particles b = 197 \/ number_of_particles b = 63 in
  (l = 2 \/ l = 4 <-> exists v, y_l_0 l cosx = Ok v) /\
  (~ (l = 2 \/ l = 4) <-> y_l_0 l cosx = Throw (domain_error y_l_0_msg)) /\
  (~ listed <-> run = Throw (domain_error mass_number_msg)) /\
  (listed <-> exists d', run = Ok d').
Proof.
  intros Hb run listed.
  assert (Hy : (l = 2 \/ l = 4) /\ (exists v, y_l_0 l cosx = Ok v) \/
               ~ (l = 2 \/ l = 4) /\ y_l_0 l cosx = Throw (domain_error y_l_0_msg)).
  { unfold y_l_0. destruct (l =? 2) eqn:E2; [| destruct (l =? 4) eqn:E4].
    - apply Z.eqb_eq in E2. left. split; [auto | eexists; reflexivity].
    - apply Z.eqb_eq in E4. left. split; [auto | eexists; reflexivity].
    - apply Z.eqb_neq in E2. apply Z.eqb_neq in E4. right.
      split; [lia | reflexivity]. }
  assert (Hs : listed /\ (exists d', run = Ok d') \/
               ~ listed /\ run = Throw (domain_error mass_number_msg)).
  { subst run listed. unfold set_parameters_automatic. rewrite Hb. simpl.
    destruct (number_of_particles b) as [|k|k] eqn:E;
      [right; split; [lia | reflexivity] | | right; split; [lia | reflexivity]].
    destruct (Z.eq_dec (Z.pos k) 238) as [E1|E1];
      [injection E1 as ->; left; split; [lia | eexists; reflexivity] |].
    destruct (Z.eq_dec (Z.pos k) 208) as [E2|E2];
      [injection E2 as ->; left; split; [lia | eexists; reflexivity] |].
    destruct (Z.eq_dec (Z.pos k) 197) as [E3|E3];
      [injection E3 as ->; left; split; [lia | eexists; reflexivity] |].
    destruct (Z.eq_dec (Z.pos k) 63) as [E4|E4];
      [injection E4 as ->; left; split; [lia | eexists; reflexivity] |].
    right. split; [lia |].
    repeat (destruct k as [k|k|]; try reflexivity; try lia). }
  split; [| split; [| split]].
  - destruct Hy as [[H1 H2] | [H1 H2]].
    + split; [intros _; exact H2 | intros _; exact H1].
    + split; [intros H; contradiction |].
      intros [v Hv]. rewrite H2 in Hv. discriminate.
  - destruct Hy as [[H1 [v Hv]] | [H1 H2]].
    + split; [intros H; contradiction |].
      intros H. rewrite Hv in H. discriminate.
    + split; [intros _; exact H2 | intros _; exact H1].
  - destruct Hs as [[H1 [d' Hd]] | [H1 H2]].
    + split; [intros H; contradiction |].
      intros H. rewrite Hd in H. discriminate.
    + split; [intros _; exact H2 | intros _; exact H1].
  - destruct Hs as [[H1 H2] | [H1 H2]].
    + split; [intros _; exact H2 | intros _; exact H1].
    + split; [intros H; contradiction |].
      intros [d' Hd]. rewrite H2 in Hd. discriminate.
Qed.



Lemma periodic_shape_and_ghost_classification_witness :
  let ps := lattice_3 in
  let g := grid_of (Grid_from_bounds PeriodicBoundaries false ps (bounds_of ps)) in
  ps <> [] /\ Grid_from_bounds PeriodicBoundaries false ps (bounds_of ps) = Ok g /\
  number_of_cells_ g = Arr3 5 5 4 /\ is_ghost_cell g 1 1 0 = false.
Proof.
  intros ps g.
  assert (Hne : ps <> []) by (vm_compute; discriminate).
  assert (Hg : Grid_from_bounds PeriodicBoundaries false ps (bounds_of ps) = Ok g)
    by (vm_compute; reflexivity).
  split; [exact Hne |]. split; [exact Hg |].
  destruct (periodic_shape_and_ghost_classification false ps (bounds_of ps) g Hne Hg)
    as (n & f & Hr & Hn & Hghost & Hz & Hz0).
  split; [vm_compute; reflexivity |].
  apply Hz0; vm_compute; split; reflexivity.
Defined.

Lemma unsupported_configuration_errors_witness :
  let d := mkDeformedNucleus (Nucleus := Z) (Angles := unit)
             208 Float64.zero Float64.zero tt in
  @Ok Z (nucleus_base d) = Ok 208 /\
  (exists d', set_parameters_automatic (fun n => n) Ok (fun a => a) d = Ok d') /\
  y_l_0 3 Float64.zero = Throw (domain_error y_l_0_msg).
Proof.
  intros d.
  assert (Hb : @Ok Z (nucleus_base d) = Ok 208) by reflexivity.
  destruct (unsupported_configuration_errors Z unit (fun n => n) Ok (fun a => a)
              d 208 3 Float64.zero Hb) as (_ & Hy & _ & Hl).
  split; [exact Hb |]. split.
  - apply Hl. right. left. reflexivity.
  - apply Hy. intros [H | H]; discriminate.
Defined.

(** ** The dilute limit *)

Lemma Grid_from_bounds_resolved (opt : GridOptions) (ndebug : bool)
  (ps : ParticleList) (mm : array3 Float32.t * array3 Float32.t)
  (n : array3 Z) (f : array3 Float32.t) :
  ps <> [] ->
  resolve_geometry (Z.of_nat (length ps)) mm.1 mm.2 = Ok (n, f) ->
  Grid_from_bounds opt ndebug ps mm =
    match opt with
    | PeriodicBoundaries =>
        place_particles PeriodicBoundaries ndebug
          (allocate mm.1 f (add_ghost_layers n)) ps
        ≫= fill_ghost_cells (box_length mm.1 mm.2)
    | Normal =>
        if is_dilute n then Ok (mkGrid mm.1 f (Arr3 1 1 1) [ps])
        else place_particles Normal ndebug (allocate mm.1 f n) ps
    end.
Proof.
  intros Hne Hr. unfold resolve_geometry in Hr.
  unfold Grid_from_bounds, Grid_with_max_cells.
  pose proof (nonempty_count ps Hne) as Hc.
  replace (Z.of_nat (length ps) <=? 0) with false by (symmetry; apply Z.leb_gt; lia).
  rewrite andb_false_r, Hr. simpl. destruct opt; reflexivity.
Qed.

(** C4 -- Dilute fallback, as the code has it: in open mode, for a non-empty
    particle set whose axes all resolve to at most 2 cells, the grid is one
    cell holding all particles, the cell counts are {1,1,1}, and a traversal
    makes exactly one callback, with all particles as home list and no
    neighbours.  (Periodic grids have no dilute fallback.) *)
Theorem dilute_fallback_open_mode (ndebug : bool) (ps : ParticleList)
  (mm : array3 Float32.t * array3 Float32.t) (n : array3 Z)
  (f : array3 Float32.t) :
  ps <> [] ->
  resolve_geometry (Z.of_nat (length ps)) mm.1 mm.2 = Ok (n, f) ->
  at0 n <= 2 -> at1 n <= 2 -> at2 n <= 2 ->
  exists g,
    Grid_from_bounds Normal ndebug ps mm = Ok g /\
    number_of_cells_ g = Arr3 1 1 1 /\ cells_ g = [ps] /\
    iterate_cells Normal g = Ok [mkCall 0 ps []].
Proof.
  intros Hne Hr H0 H1 H2.
  rewrite (Grid_from_bounds_resolved Normal ndebug ps mm n f Hne Hr).
  assert (Hd : is_dilute n = true).
  { unfold is_dilute, all_of3. rewrite !andb_true_iff, !Z.leb_le. auto. }
  rewrite Hd. eexists. split; [reflexivity |].
  split; [reflexivity |]. split; reflexivity.
Qed.

Lemma dilute_fallback_open_mode_witness :
  let ps := lattice_2_5 in
  let mm := bounds_of ps in
  let n := Arr3 2 2 2 in
  let f := index_factor_ (grid_of (Grid_from_bounds Normal false ps mm)) in
  ps <> [] /\
  resolve_geometry (Z.of_nat (length ps)) mm.1 mm.2 = Ok (n, f) /\
  at0 n <= 2 /\ at1 n <= 2 /\ at2 n <= 2 /\
  exists g,
    Grid_from_bounds Normal false ps mm = Ok g /\
    number_of_cells_ g = Arr3 1 1 1 /\ cells_ g = [ps] /\
    iterate_cells Normal g = Ok [mkCall 0 ps []].
Proof.
  intros ps mm n f.
  assert (Hne : ps <> []) by (vm_compute; discriminate).
  assert (Hr : resolve_geometry (Z.of_nat (length ps)) mm.1 mm.2 = Ok (n, f))
    by (vm_compute; reflexivity).
  assert (H0 : at0 n <= 2) by (simpl; lia).
  assert (H1 : at1 n <= 2) by (simpl; lia).
  assert (H2 : at2 n <= 2) by (simpl; lia).
  repeat (split; [assumption |]).
  exact (dilute_fallback_open_mode false ps mm n f Hne Hr H0 H1 H2).
Defined.

(** C4, as stated, fails in periodic mode: a single particle resolves to one
    cell per axis, yet the periodic grid has 3 x 3 x 2 cells and the traversal
    hands its one home cell 13 neighbour cells. *)
Lemma dilute_fallback_periodic_counterexample :
  let ps := lone_particle in
  let mm := bounds_of ps in
  let g := grid_of (Grid_from_bounds PeriodicBoundaries false ps mm) in
  (exists f, resolve_geometry (Z.of_nat (length ps)) mm.1 mm.2 = Ok (Arr3 1 1 1, f)) /\
  Grid_from_bounds PeriodicBoundaries false ps mm = Ok g /\
  number_of_cells_ g = Arr3 3 3 2 /\ length (cells_ g) = 18%nat /\
  (exists c, iterate_cells PeriodicBoundaries g = Ok [c] /\
             length (neighbors c) = 13%nat) /\
  ~ (exists g', Grid_from_bounds PeriodicBoundaries false ps mm = Ok g' /\
                number_of_cells_ g' = Arr3 1 1 1).
Proof.
  intros ps mm g.
  assert (Hg : Grid_from_bounds PeriodicBoundaries false ps mm = Ok g)
    by (vm_compute; reflexivity).
  split; [eexists; vm_compute; reflexivity |].
  split; [exact Hg |].
  split; [vm_compute; reflexivity |].
  split; [vm_compute; reflexivity |].
  split; [eexists; split; vm_compute; reflexivity |].
  assert (Hcells : number_of_cells_ g = Arr3 3 3 2) by (vm_compute; reflexivity).
  clearbody g. intros (g' & Hg' & Hn).
  assert (E : g' = g) by congruence. rewrite E, Hcells in Hn. discriminate Hn.
Qed.

(** ** Scenarios *)

(** C7, as stated, fails: the lattice with spacing 2.5 spans 5.0 per axis,
    which resolves to ceil(5.0/2.5) = 2 cells, so construction takes the
    dilute fallback and the grid is not 3 x 3 x 3. *)
Lemma lattice_2_5_counterexample :
  ~ (exists g, Grid_from_particles Normal false lattice_2_5 = Ok g /\
               number_of_cells_ g = Arr3 3 3 3).
Proof.
  intros (g & Hg & Hn).
  assert (H : Grid_from_particles Normal false lattice_2_5 =
              Ok (grid_of (Grid_from_particles Normal false lattice_2_5)))
    by (vm_compute; reflexivity).
  assert (Hcells : number_of_cells_
                     (grid_of (Grid_from_particles Normal false lattice_2_5))
                   = Arr3 1 1 1) by (vm_compute; reflexivity).
  set (g0 := grid_of (Grid_from_particles Normal false lattice_2_5)) in *.
  clearbody g0. assert (E : g = g0) by congruence.
  rewrite E, Hcells in Hn. discriminate Hn.
Qed.

(** C7 -- The 27-particle lattice, as the code has it.  With spacing 2.5 in
    open mode every axis resolves to 2 cells and the grid is the dilute single
    cell: one callback with all 27 particles and no neighbour.  With spacing 3
    construction produces a 3 x 3 x 3 grid with each particle in its own cell,
    and the traversal hands the corner cell (0,0,0) exactly 7 distinct
    neighbour cells. *)
Theorem lattice_scenario :
  let g := grid_of (Grid_from_particles Normal false lattice_2_5) in
  let g3 := grid_of (Grid_from_particles Normal false lattice_3) in
  (Grid_from_particles Normal false lattice_2_5 = Ok g /\
   (exists f, resolve_geometry 27 (bounds_of lattice_2_5).1 (bounds_of lattice_2_5).2
              = Ok (Arr3 2 2 2, f)) /\
   number_of_cells_ g = Arr3 1 1 1 /\ cells_ g = [lattice_2_5] /\
   iterate_cells Normal g = Ok [mkCall 0 lattice_2_5 []]) /\
  (Grid_from_particles Normal false lattice_3 = Ok g3 /\
   number_of_cells_ g3 = Arr3 3 3 3 /\
   map (map id) (cells_ g3) = map (fun i => [i]) (range 0 27) /\
   exists corner rest,
     iterate_cells Normal g3 = Ok (corner :: rest) /\
     home_index corner = make_index g3 0 0 0 /\
     map fst (neighbors corner) = [1; 3; 4; 9; 10; 12; 13] /\
     NoDup (map fst (neighbors corner)) /\
     length (neighbors corner) = 7%nat).
Proof.
  intros g g3. split.
  - split; [vm_compute; reflexivity |].
    split; [eexists; vm_compute; reflexivity |].
    split; [vm_compute; reflexivity |].
    split; vm_compute; reflexivity.
  - split; [vm_compute; reflexivity |].
    split; [vm_compute; reflexivity |].
    split; [vm_compute; reflexivity |].
    assert (H : exists corner rest,
               iterate_cells Normal g3 = Ok (corner :: rest) /\
               home_index corner = 0 /\
               map fst (neighbors corner) = [1; 3; 4; 9; 10; 12; 13]).
    { eexists. eexists. split; [vm_compute; reflexivity |].
      split; reflexivity. }
    destruct H as (corner & rest & Hi & Hh & Hn).
    exists corner, rest. split; [exact Hi |]. split; [exact Hh |].
    split; [exact Hn |]. split.
    + rewrite Hn. apply (bool_decide_unpack _). vm_compute. exact I.
    + rewrite <- (length_map fst), Hn. reflexivity.
Qed.

Lemma resolve_axis_cases (max_cells : Z) (min_i max_i : Float32.t) (naive : Z) :
  naive_ceil_of min_i max_i = Ok naive ->
  resolve_axis max_cells Float32.lit_2_5 min_i max_i =
    Ok (if Z.max 1 naive >? max_cells
        then (max_cells,
              Float32.div (Float32.sub (Float32.of_int max_cells) Float32.lit_0_1)
                          (Float32.sub max_i min_i))
        else (Z.max 1 naive, Float32.div Float32.lit_1 Float32.lit_2_5)).
Proof.
  unfold naive_ceil_of, resolve_axis. intros ->. simpl.
  destruct (Z.max 1 naive >? max_cells); reflexivity.
Qed.

(** C10 -- The out-of-bounds branch is reachable in open mode.  The lattice
    with spacing 3.75 is a non-empty particle set whose extent is 7.5 = 3 * 2.5
    on every axis; the cap floor(cbrt(27)) = 3 does not bind, so the index
    factor is 1/2.5 without margin; the particle at the maximum corner maps to
    cell coordinate 3, the cell count of the axis, its linear index 39 is
    beyond the 27 cells, and debug construction throws.  The 0.1 margin enters
    the index factor only when the cap binds: whenever the naive count is
    within [max_cells] the factor is exactly 1/2.5. *)
Theorem out_of_bounds_branch_reachable :
  (let ps := lattice_3_75 in
   let mm := bounds_of ps in
   let factor := Float32.div Float32.lit_1 Float32.lit_2_5 in
   let g0 := allocate mm.1 (Arr3 factor factor factor) (Arr3 3 3 3) in
   let corner := particle_at 26 (Float64.decimal 75 1) (Float64.decimal 75 1)
                   (Float64.decimal 75 1) in
   ps <> [] /\ last ps = Some corner /\
   find_min_max_positions ps = Ok mm /\
   Float32.sub (at0 mm.2) (at0 mm.1) = Float32.mul (Float32.of_int 3) Float32.lit_2_5 /\
   cbrt_int (Z.of_nat (length ps)) = 3 /\
   naive_ceil_of (at0 mm.1) (at0 mm.2) = Ok 3 /\
   resolve_geometry (Z.of_nat (length ps)) mm.1 mm.2
     = Ok (Arr3 3 3 3, Arr3 factor factor factor) /\
   float_pos corner = mm.2 /\
   Float32.to_int (axis_cell (at0 mm.1) factor (x1 (position corner))) = Ok 3 /\
   make_index_pos Normal g0 (threevec (position corner)) = Ok 39 /\
   out_of_bounds Normal g0 39 = true /\
   Grid_from_particles Normal false ps = Throw (runtime_error out_of_bounds_msg)) /\
  (forall (max_cells : Z) (min_i max_i : Float32.t) (naive count : Z)
          (factor : Float32.t),
     naive_ceil_of min_i max_i = Ok naive ->
     resolve_axis max_cells Float32.lit_2_5 min_i max_i = Ok (count, factor) ->
     (Z.max 1 naive <= max_cells ->
        factor = Float32.div Float32.lit_1 Float32.lit_2_5) /\
     (Z.max 1 naive > max_cells ->
        factor = Float32.div (Float32.sub (Float32.of_int max_cells) Float32.lit_0_1)
                             (Float32.sub max_i min_i))).
Proof.
  split.
  - intros ps mm factor g0 corner.
    split; [vm_compute; intros H; discriminate H |].
    repeat (split; [vm_compute; reflexivity |]).
    vm_compute; reflexivity.
  - intros max_cells min_i max_i naive count factor Hn Hr.
    rewrite (resolve_axis_cases _ _ _ _ Hn) in Hr.
    destruct (Z.max 1 naive >? max_cells) eqn:E; injection Hr as <- <-.
    + apply Z.gtb_lt in E. split; [lia | reflexivity].
    + rewrite Z.gtb_ltb in E. apply Z.ltb_ge in E. split; [reflexivity | lia].
Qed.

Lemma out_of_bounds_branch_reachable_witness :
  let mm := bounds_of lattice_3_75 in
  let factor := Float32.div Float32.lit_1 Float32.lit_2_5 in
  naive_ceil_of (at0 mm.1) (at0 mm.2) = Ok 3 /\
  resolve_axis 3 Float32.lit_2_5 (at0 mm.1) (at0 mm.2) = Ok (3, factor) /\
  (Z.max 1 3 <= 3 -> factor = Float32.div Float32.lit_1 Float32.lit_2_5).
Proof.
  intros mm factor.
  assert (Hn : naive_ceil_of (at0 mm.1) (at0 mm.2) = Ok 3)
    by (vm_compute; reflexivity).
  assert (Hr : resolve_axis 3 Float32.lit_2_5 (at0 mm.1) (at0 mm.2) = Ok (3, factor))
    by (vm_compute; reflexivity).
  split; [exact Hn |]. split; [exact Hr |].
  exact (proj1 (proj2 out_of_bounds_branch_reachable 3 _ _ 3 3 factor Hn Hr)).
Defined.

(** ** Index arithmetic *)

Lemma make_index_n_range (n : array3 Z) (x y z : Z) :
  in_grid n x y z -> 0 <= make_index_n n x y z < cell_count n.
Proof.
  unfold in_grid, make_index_n, cell_count. intros (Hx & Hy & Hz).
  assert (0 <= z * at1 n + y <= at1 n * at2 n - 1) by nia.
  nia.
Qed.

Lemma row_major_lt (m a b x x' : Z) :
  0 <= x < m -> 0 <= x' < m ->
  (a * m + x < b * m + x' <-> a < b \/ (a = b /\ x < x')).
Proof.
  intros Hx Hx'. split.
  - intros H. destruct (Z.lt_trichotomy a b) as [Hab | [-> | Hab]].
    + left. exact Hab.
    + right. split; [reflexivity | lia].
    + exfalso. assert ((b + 1) * m <= a * m)
        by (apply Z.mul_le_mono_nonneg_r; lia). lia.
  - intros [Hab | [-> Hxx]]; [| lia].
    assert ((a + 1) * m <= b * m) by (apply Z.mul_le_mono_nonneg_r; lia). lia.
Qed.

(** [make_index] orders the cells of the grid by (z, y, x). *)
Lemma make_index_n_lt (n : array3 Z) (x y z x' y' z' : Z) :
  in_grid n x y z -> in_grid n x' y' z' ->
  (make_index_n n x y z < make_index_n n x' y' z' <->
   z < z' \/ (z = z' /\ (y < y' \/ (y = y' /\ x < x')))).
Proof.
  unfold in_grid, make_index_n. intros (Hx & Hy & Hz) (Hx' & Hy' & Hz').
  rewrite (row_major_lt (at0 n) _ _ x x' Hx Hx').
  rewrite (row_major_lt (at1 n) z z' y y' Hy Hy').
  split.
  - intros [[H | [-> H]] | [H1 H2]]; [auto | auto |].
    pose proof (row_major_lt (at1 n) z z' y y' Hy Hy') as [_ A].
    pose proof (row_major_lt (at1 n) z' z y' y Hy' Hy) as [_ B].
    destruct (Z.lt_trichotomy z z') as [Hz1 | [Hz1 | Hz1]];
      destruct (Z.lt_trichotomy y y') as [Hy1 | [Hy1 | Hy1]]; lia.
  - intros [H | [-> [H | [-> H]]]]; auto.
Qed.

Lemma make_index_n_inj (n : array3 Z) (x y z x' y' z' : Z) :
  in_grid n x y z -> in_grid n x' y' z' ->
  make_index_n n x y z = make_index_n n x' y' z' ->
  x = x' /\ y = y' /\ z = z'.
Proof.
  intros H H' E.
  pose proof (make_index_n_lt n x y z x' y' z' H H') as [_ H1].
  pose proof (make_index_n_lt n x' y' z' x y z H' H) as [_ H2].
  destruct (Z.lt_trichotomy z z') as [Hz | [Hz | Hz]]; [lia | | lia].
  destruct (Z.lt_trichotomy y y') as [Hy | [Hy | Hy]]; [lia | | lia].
  destruct (Z.lt_trichotomy x x') as [Hx | [Hx | Hx]]; [lia | | lia].
  auto.
Qed.

Lemma cell_coords_make_index (n : array3 Z) (x y z : Z) :
  in_grid n x y z -> cell_coords n (make_index_n n x y z) = (x, y, z).
Proof.
  unfold in_grid, make_index_n, cell_coords. intros (Hx & Hy & Hz).
  assert (E1 : ((z * at1 n + y) * at0 n + x) mod at0 n = x).
  { rewrite Z.add_comm, Z.mod_add by lia. apply Z.mod_small. lia. }
  assert (E2 : ((z * at1 n + y) * at0 n + x) / at0 n = z * at1 n + y).
  { rewrite Z.add_comm, Z.div_add by lia. rewrite Z.div_small by lia. lia. }
  assert (E3 : ((z * at1 n + y) * at0 n + x) / (at0 n * at1 n) = z).
  { rewrite <- Z.div_div by lia. rewrite E2.
    rewrite Z.add_comm, Z.div_add by lia. rewrite Z.div_small by lia. lia. }
  rewrite E1, E2, E3. f_equal. f_equal.
  rewrite Z.add_comm, Z.mod_add by lia. apply Z.mod_small. lia.
Qed.

Lemma make_index_cell_coords (n : array3 Z) (i : Z) :
  0 < at0 n -> 0 < at1 n -> 0 <= i < cell_count n ->
  exists x y z, cell_coords n i = (x, y, z) /\ in_grid n x y z /\
                make_index_n n x y z = i.
Proof.
  unfold cell_count, cell_coords, in_grid, make_index_n. intros H0 H1 Hi.
  exists (i mod at0 n), ((i / at0 n) mod at1 n), (i / (at0 n * at1 n)).
  split; [reflexivity |].
  pose proof (Z.mod_pos_bound i (at0 n) H0) as Hx.
  pose proof (Z.mod_pos_bound (i / at0 n) (at1 n) H1) as Hy.
  pose proof (Z.div_mod i (at0 n)) as Ex.
  pose proof (Z.div_mod (i / at0 n) (at1 n)) as Ey.
  rewrite <- Z.div_div by lia.
  set (q := i / at0 n) in *. set (z := q / at1 n) in *.
  assert (Hq : 0 <= q) by (apply Z.div_pos; lia).
  assert (Hz : 0 <= z) by (apply Z.div_pos; lia).
  assert (Hz' : z < at2 n).
  { apply Z.div_lt_upper_bound; [lia |].
    apply Z.div_lt_upper_bound; [lia |]. nia. }
  repeat split; lia.
Qed.

(** ** Reading cells *)

Lemma cell_at_cell (g : Grid) (idx : Z) :
  0 <= idx < Z.of_nat (length (cells_ g)) ->
  cell_at (cells_ g) idx = Ok (cell g idx).
Proof.
  intros H. unfold cell_at, cell.
  replace (idx <? 0) with false by (symmetry; apply Z.ltb_ge; lia).
  destruct (cells_ g !! Z.to_nat idx) as [c|] eqn:E; [reflexivity |].
  apply lookup_ge_None in E. lia.
Qed.

Lemma cell_lookup (g : Grid) (j : nat) (c : ParticleList) :
  cells_ g !! j = Some c -> cell g (Z.of_nat j) = c.
Proof.
  intros H. unfold cell.
  replace (Z.of_nat j <? 0) with false by (symmetry; apply Z.ltb_ge; lia).
  rewrite Nat2Z.id, H. reflexivity.
Qed.

Lemma allocate_cells (mn f : array3 Float32.t) (n : array3 Z) (j : nat) :
  (Z.of_nat j < cell_count n) -> cells_ (allocate mn f n) !! j = Some [].
Proof.
  intros H. unfold allocate. simpl. apply lookup_replicate_2.
  unfold cell_count in H. lia.
Qed.

Lemma allocate_length (mn f : array3 Float32.t) (n : array3 Z) :
  0 <= cell_count n ->
  Z.of_nat (length (cells_ (allocate mn f n))) = cell_count n.
Proof.
  intros H. unfold allocate, cell_count in *. simpl.
  rewrite length_replicate. lia.
Qed.

(** After the particles are placed on a fresh grid, a cell holds the
    particles whose index is its own, in the order of the collection. *)
Lemma placed_cell (opt : GridOptions) (ndebug : bool) (mn f : array3 Float32.t)
  (n : array3 Z) (ps : ParticleList) (g : Grid) (j : Z) :
  place_particles opt ndebug (allocate mn f n) ps = Ok g ->
  0 <= j < cell_count n ->
  cell g j = filter (fun p => home_cell opt (allocate mn f n) p = j) ps.
Proof.
  intros H Hj. apply place_particles_Ok in H as (_ & _ & Hc).
  rewrite <- (Z2Nat.id j) at 1 by lia.
  rewrite (cell_lookup g (Z.to_nat j)
             (filter (fun p => home_cell opt (allocate mn f n) p = j) ps)).
  - reflexivity.
  - rewrite (Hc (Z.to_nat j) []) by (apply allocate_cells; lia).
    rewrite Z2Nat.id by lia. reflexivity.
Qed.

(** ** Ghost cells *)

Lemma elem_of_range (lo hi i : Z) : i ∈ range lo hi <-> lo <= i < hi.
Proof. unfold range. rewrite elem_of_seqZ. lia. Qed.

Lemma elem_of_all_cells (n : array3 Z) (x y z : Z) :
  (x, y, z) ∈ all_cells n <-> in_grid n x y z.
Proof.
  unfold all_cells, in_grid. rewrite list_elem_of_bind. split.
  - intros (z' & H & Hz). apply list_elem_of_bind in H as (y' & H & Hy).
    apply list_elem_of_bind in H as (x' & H & Hx).
    apply list_elem_of_singleton in H. injection H as -> -> ->.
    apply elem_of_range in Hx, Hy, Hz. lia.
  - intros (Hx & Hy & Hz). exists z. split; [| apply elem_of_range; lia].
    apply list_elem_of_bind. exists y. split; [| apply elem_of_range; lia].
    apply list_elem_of_bind. exists x. split; [| apply elem_of_range; lia].
    apply list_elem_of_singleton. reflexivity.
Qed.

Lemma foldlM_ext {S A : Type} (f f' : S -> A -> outcome S) (s : S) (l : list A) :
  (forall s a, f s a = f' s a) -> foldlM f s l = foldlM f' s l.
Proof.
  intros H. revert s. induction l as [|a l IH]; intros s; simpl.
  - reflexivity.
  - rewrite H. destruct (f' s a); simpl; auto.
Qed.

(** The three nested ghost loops visit the cells in the order of
    [all_cells]. *)
Lemma fill_ghost_cells_flat (len : array3 Float32.t) (g : Grid) :
  fill_ghost_cells len g =
  foldlM (fun g '(x, y, z) => fill_ghost_cell len x y z g) g
         (all_cells (number_of_cells_ g)).
Proof.
  unfold fill_ghost_cells, all_cells.
  rewrite foldlM_bind. apply foldlM_ext. intros g1 z.
  rewrite foldlM_bind. apply foldlM_ext. intros g2 y.
  rewrite foldlM_bind. apply foldlM_ext. intros g3 x.
  simpl. destruct (fill_ghost_cell len x y z g3); reflexivity.
Qed.

Lemma wrap_interior (n : array3 Z) (x y z : Z) :
  3 <= at0 n -> 3 <= at1 n -> 2 <= at2 n -> in_grid n x y z ->
  1 <= wrap_xy (at0 n) x <= at0 n - 2 /\
  1 <= wrap_xy (at1 n) y <= at1 n - 2 /\
  0 <= wrap_z (at2 n) z <= at2 n - 2.
Proof.
  unfold in_grid, wrap_xy, wrap_z. intros H0 H1 H2 (Hx & Hy & Hz).
  destruct (Z.eqb_spec x 0); destruct (Z.eqb_spec x (at0 n - 1));
    destruct (Z.eqb_spec y 0); destruct (Z.eqb_spec y (at1 n - 1));
    destruct (Z.eqb_spec z (at2 n - 1)); destruct (Z.eqb_spec z (-1)); lia.
Qed.

Lemma is_ghost_cell_spec (g : Grid) (x y z : Z) :
  is_ghost_cell g x y z = true <->
  x = 0 \/ x = at0 (number_of_cells_ g) - 1 \/
  y = 0 \/ y = at1 (number_of_cells_ g) - 1 \/
  z = at2 (number_of_cells_ g) - 1.
Proof.
  unfold is_ghost_cell. rewrite !orb_true_iff, !Z.eqb_eq. lia.
Qed.

Lemma wrap_not_ghost (x y z n0 n1 n2 : Z) :
  ~ (x = 0 \/ x = n0 - 1 \/ y = 0 \/ y = n1 - 1 \/ z = n2 - 1) ->
  0 <= z -> wrap_xy n0 x = x /\ wrap_xy n1 y = y /\ wrap_z n2 z = z.
Proof.
  unfold wrap_xy, wrap_z. intros H Hz.
  destruct (Z.eqb_spec x 0); destruct (Z.eqb_spec x (n0 - 1));
    destruct (Z.eqb_spec y 0); destruct (Z.eqb_spec y (n1 - 1));
    destruct (Z.eqb_spec z (n2 - 1)); destruct (Z.eqb_spec z (-1)); lia.
Qed.

Lemma ghost_source_mirror (g : Grid) (len : array3 Float32.t) (x y z : Z) :
  0 <= z ->
  (ghost_source g len x y z).1 = mirror_index (number_of_cells_ g) x y z.
Proof.
  intros Hz. unfold ghost_source, mirror_index, make_index, make_index_n,
    wrap_xy, wrap_z.
  destruct (Z.eqb_spec x 0); destruct (Z.eqb_spec x (at0 (number_of_cells_ g) - 1));
    destruct (Z.eqb_spec y 0); destruct (Z.eqb_spec y (at1 (number_of_cells_ g) - 1));
    destruct (Z.eqb_spec z (at2 (number_of_cells_ g) - 1));
    destruct (Z.eqb_spec z (-1)); simpl; try lia; subst; ring.
Qed.

Lemma same_frame_periodic (g g' : Grid) :
  same_frame g g' -> periodic_frame g -> periodic_frame g'.
Proof.
  unfold periodic_frame. intros (_ & _ & Hn & Hl). rewrite Hn, Hl. auto.
Qed.

Lemma same_frame_ghost (g g' : Grid) (len : array3 Float32.t) (x y z : Z) :
  same_frame g g' ->
  is_ghost_cell g' x y z = is_ghost_cell g x y z /\
  ghost_source g' len x y z = ghost_source g len x y z /\
  make_index g' x y z = make_index g x y z.
Proof.
  intros (_ & _ & Hn & _).
  unfold is_ghost_cell, ghost_source, make_index. rewrite Hn. auto.
Qed.

Lemma mirror_index_range (n : array3 Z) (x y z : Z) :
  3 <= at0 n -> 3 <= at1 n -> 2 <= at2 n -> in_grid n x y z ->
  0 <= mirror_index n x y z < cell_count n.
Proof.
  intros H0 H1 H2 H. unfold mirror_index. apply make_index_n_range.
  pose proof (wrap_interior n x y z H0 H1 H2 H). unfold in_grid. lia.
Qed.

(** One round of the innermost ghost loop: a ghost cell becomes the shifted
    copy of the cell it mirrors, and no other cell changes. *)
Lemma fill_ghost_cell_step (len : array3 Float32.t) (x y z : Z) (g : Grid) :
  periodic_frame g -> in_grid (number_of_cells_ g) x y z ->
  exists g',
    fill_ghost_cell len x y z g = Ok g' /\ same_frame g g' /\
    forall j, 0 <= j < cell_count (number_of_cells_ g) ->
      cell g' j =
        if is_ghost_cell g x y z && (j =? make_index g x y z)
        then map (shift_particle (ghost_shift g len x y z))
                 (cell g (mirror_index (number_of_cells_ g) x y z))
        else cell g j.
Proof.
  intros (H0 & H1 & H2 & Hl) Hin. unfold fill_ghost_cell.
  destruct (is_ghost_cell g x y z) eqn:Eg.
  - pose proof (make_index_n_range _ _ _ _ Hin) as Hidx.
    fold (make_index g x y z) in Hidx.
    rewrite (cell_at_cell g (make_index g x y z)) by lia. simpl.
    pose proof (ghost_source_mirror g len x y z ltac:(unfold in_grid in Hin; lia)) as Hm.
    unfold ghost_shift.
    destruct (ghost_source g len x y z) as [copy_idx shift]. simpl in Hm. subst copy_idx.
    pose proof (mirror_index_range _ _ _ _ H0 H1 H2 Hin) as Hmr.
    rewrite (cell_at_cell g _) by lia. simpl.
    eexists. split; [reflexivity |]. split.
    + repeat split. simpl. apply length_insert.
    + intros j Hj. unfold cell at 1. simpl.
      replace (j <? 0) with false by (symmetry; apply Z.ltb_ge; lia).
      destruct (Z.eqb_spec j (make_index g x y z)) as [-> | Hne].
      * rewrite list_lookup_insert_eq by lia. reflexivity.
      * rewrite list_lookup_insert_ne by lia. unfold cell.
        replace (j <? 0) with false by (symmetry; apply Z.ltb_ge; lia).
        reflexivity.
  - exists g. split; [reflexivity |]. split; [apply same_frame_refl |].
    intros j Hj. reflexivity.
Qed.

(** The ghost loops over a list of cells of the grid: every ghost cell of
    the list ends as the shifted copy of the interior cell it mirrors, as that
    cell was before the loops; the other cells are unchanged. *)
Lemma fill_ghost_fold (len : array3 Float32.t) (l : list (Z * Z * Z)) (g : Grid) :
  periodic_frame g ->
  (forall x y z, (x, y, z) ∈ l -> in_grid (number_of_cells_ g) x y z) ->
  exists g',
    foldlM (fun g '(x, y, z) => fill_ghost_cell len x y z g) g l = Ok g' /\
    same_frame g g' /\
    forall x y z, in_grid (number_of_cells_ g) x y z ->
      ((x, y, z) ∈ l -> is_ghost_cell g x y z = true ->
       cell g' (make_index g x y z) =
         map (shift_particle (ghost_shift g len x y z))
             (cell g (mirror_index (number_of_cells_ g) x y z))) /\
      (~ ((x, y, z) ∈ l /\ is_ghost_cell g x y z = true) ->
       cell g' (make_index g x y z) = cell g (make_index g x y z)).
Proof.
  revert g. induction l as [|[[x0 y0] z0] l IH]; intros g Hp Hl.
  - exists g. split; [reflexivity |]. split; [apply same_frame_refl |].
    intros x y z Hin. split; [intros H; inversion H | reflexivity].
  - assert (Hin0 : in_grid (number_of_cells_ g) x0 y0 z0)
      by (apply Hl; apply list_elem_of_here).
    destruct (fill_ghost_cell_step len x0 y0 z0 g Hp Hin0) as (g1 & Hs & Hf1 & Hc1).
    pose proof Hf1 as (_ & _ & Hn1 & _).
    destruct (IH g1) as (g' & Hs' & Hf' & Hc').
    { eapply same_frame_periodic; eauto. }
    { intros x y z H. rewrite Hn1. apply Hl. apply list_elem_of_further. exact H. }
    exists g'. split; [simpl; rewrite Hs; exact Hs' |].
    split; [eapply same_frame_trans; eauto |].
    intros x y z Hin.
    destruct Hp as (H0 & H1 & H2 & Hlen).
    pose proof (make_index_n_range _ _ _ _ Hin) as Hr.
    pose proof (mirror_index_range _ _ _ _ H0 H1 H2 Hin) as Hmr.
    pose proof (wrap_interior _ _ _ _ H0 H1 H2 Hin) as Hw.
    destruct (same_frame_ghost g g1 len x y z Hf1) as (Eg & Es & Ei).
    rewrite Hn1 in Hc'. destruct (Hc' x y z Hin) as [Hc'1 Hc'2].
    rewrite Eg, Ei in Hc'1, Hc'2. unfold ghost_shift in Hc'1. rewrite Es in Hc'1.
    fold (ghost_shift g len x y z) in Hc'1.
    (* the mirror cell is interior: the first round did not write it *)
    assert (Hmirror : cell g1 (mirror_index (number_of_cells_ g) x y z)
                      = cell g (mirror_index (number_of_cells_ g) x y z)).
    { rewrite (Hc1 _ Hmr).
      destruct (is_ghost_cell g x0 y0 z0) eqn:Eg0; [| reflexivity].
      destruct (Z.eqb_spec (mirror_index (number_of_cells_ g) x y z)
                           (make_index g x0 y0 z0)) as [E | _]; [| reflexivity].
      exfalso. unfold mirror_index, make_index in E.
      apply make_index_n_inj in E as (E1 & E2 & E3);
        [| unfold in_grid; lia | exact Hin0].
      apply is_ghost_cell_spec in Eg0. lia. }
    split.
    + intros Hmem Hg.
      destruct (decide ((x, y, z) ∈ l)) as [Hml | Hml].
      * rewrite (Hc'1 Hml Hg), Hmirror. reflexivity.
      * apply elem_of_cons in Hmem as [E | Hmem]; [| contradiction].
        injection E as -> -> ->.
        rewrite Hc'2 by tauto. fold (make_index g x0 y0 z0) in Hr.
        rewrite (Hc1 _ Hr), Hg, Z.eqb_refl. reflexivity.
    + intros Hnot.
      rewrite Hc'2.
      * fold (make_index g x y z) in Hr. rewrite (Hc1 _ Hr).
        destruct (is_ghost_cell g x0 y0 z0) eqn:Eg0; [| reflexivity].
        destruct (Z.eqb_spec (make_index g x y z) (make_index g x0 y0 z0))
          as [E | _]; [| reflexivity].
        exfalso. unfold make_index in E.
        apply make_index_n_inj in E as (-> & -> & ->); [| exact Hin | exact Hin0].
        apply Hnot. split; [apply list_elem_of_here | exact Eg0].
      * intros [Hml Hg]. apply Hnot. split; [apply list_elem_of_further |]; assumption.
Qed.

(** The ghost loops on a periodic frame return, and leave every cell as a
    copy of the interior cell it mirrors. *)
Lemma fill_ghost_cells_spec (len : array3 Float32.t) (g : Grid) :
  periodic_frame g ->
  exists g',
    fill_ghost_cells len g = Ok g' /\ same_frame g g' /\
    forall x y z, in_grid (number_of_cells_ g) x y z ->
      cell g' (make_index g x y z) =
        if is_ghost_cell g x y z
        then map (shift_particle (ghost_shift g len x y z))
                 (cell g (mirror_index (number_of_cells_ g) x y z))
        else cell g (make_index g x y z).
Proof.
  intros Hp. rewrite fill_ghost_cells_flat.
  destruct (fill_ghost_fold len (all_cells (number_of_cells_ g)) g Hp)
    as (g' & Hs & Hf & Hc).
  { intros x y z H. apply elem_of_all_cells. exact H. }
  exists g'. split; [exact Hs |]. split; [exact Hf |].
  intros x y z Hin. destruct (Hc x y z Hin) as [Hc1 Hc2].
  destruct (is_ghost_cell g x y z) eqn:Eg.
  - apply Hc1; [apply elem_of_all_cells; exact Hin | reflexivity].
  - apply Hc2. intros [_ H]. discriminate H.
Qed.

(** ** The bounds check of the debug build *)

Lemma out_of_bounds_beyond (opt : GridOptions) (g : Grid) (idx : Z) :
  out_of_bounds opt g idx = false -> 0 <= idx < Z.of_nat (length (cells_ g)).
Proof.
  unfold out_of_bounds. destruct opt.
  - rewrite orb_false_iff, Z.ltb_ge, Z.leb_gt. lia.
  - rewrite !orb_false_iff, !Z.ltb_ge, !Z.leb_gt. lia.
Qed.

Lemma place_particle_debug (opt : GridOptions) (g : Grid) (p : ParticleData)
  (idx : Z) :
  make_index_pos opt g (threevec (position p)) = Ok idx ->
  place_particle opt false g p =
    if out_of_bounds opt g idx then Throw (runtime_error out_of_bounds_msg)
    else Ok (set_cells g (alter (fun c => c ++ [p]) (Z.to_nat idx) (cells_ g))).
Proof.
  intros Hi. unfold place_particle. rewrite Hi. simpl.
  destruct (out_of_bounds opt g idx) eqn:E; [reflexivity |].
  apply out_of_bounds_beyond in E. unfold push_back_at.
  replace ((0 <=? idx) && (idx <? Z.of_nat (length (cells_ g)))) with true.
  - reflexivity.
  - symmetry. apply andb_true_iff. rewrite Z.leb_le, Z.ltb_lt. lia.
Qed.

(** With the check compiled in and every index computation defined, the
    loop over the particles either places them all, or throws at the first
    particle whose index fails the check, having placed the ones before. *)
Lemma place_particles_debug (opt : GridOptions) (ps : ParticleList) (g : Grid) :
  (forall p, p ∈ ps ->
     exists idx, make_index_pos opt g (threevec (position p)) = Ok idx) ->
  (exists g', place_particles opt false g ps = Ok g' /\
     forall p, p ∈ ps -> out_of_bounds opt g (home_cell opt g p) = false) \/
  (exists pre p post g1,
     ps = pre ++ p :: post /\
     place_particles opt false g pre = Ok g1 /\
     out_of_bounds opt g (home_cell opt g p) = true /\
     place_particles opt false g ps = Throw (runtime_error out_of_bounds_msg)).
Proof.
  unfold place_particles. revert g.
  induction ps as [|p ps IH]; intros g Hdef.
  - left. exists g. split; [reflexivity |]. intros p Hp. inversion Hp.
  - destruct (Hdef p (list_elem_of_here _ _)) as (idx & Hi).
    assert (Hhome : home_cell opt g p = idx) by (unfold home_cell; rewrite Hi; reflexivity).
    simpl. rewrite (place_particle_debug opt g p idx Hi).
    destruct (out_of_bounds opt g idx) eqn:E.
    + right. exists [], p, ps, g. rewrite Hhome. auto.
    + set (g1 := set_cells g _).
      assert (Hsf : same_frame g g1).
      { repeat split. simpl. apply length_alter. }
      destruct (IH g1) as [(g' & Hg' & Hall) | (pre & q & post & g2 & -> & Hpre & Hq & Hthrow)].
      * intros q Hq. rewrite (same_frame_make_index_pos opt g g1 _ Hsf).
        apply Hdef. apply list_elem_of_further. exact Hq.
      * left. exists g'. split; [exact Hg' |].
        intros q Hq. apply elem_of_cons in Hq as [-> | Hq].
        -- rewrite Hhome. exact E.
        -- rewrite <- (same_frame_home_cell opt g g1 q Hsf).
           rewrite <- (same_frame_out_of_bounds opt g g1 _ Hsf). apply Hall. exact Hq.
      * right. exists (p :: pre), q, post, g2.
        split; [reflexivity |]. split.
        -- simpl. rewrite (place_particle_debug opt g p idx Hi), E. exact Hpre.
        -- split; [| exact Hthrow].
           rewrite <- (same_frame_home_cell opt g g1 q Hsf).
           rewrite <- (same_frame_out_of_bounds opt g g1 _ Hsf). exact Hq.
Qed.

Lemma add_ghost_layers_frame (mn f : array3 Float32.t) (n : array3 Z) :
  1 <= at0 n -> 1 <= at1 n -> 1 <= at2 n ->
  periodic_frame (allocate mn f (add_ghost_layers n)).
Proof.
  intros H0 H1 H2. unfold periodic_frame.
  rewrite allocate_length by (unfold cell_count, add_ghost_layers; simpl; nia).
  simpl. repeat split; lia.
Qed.

Lemma defined_indices_check (opt : GridOptions) (g : Grid) (ps : ParticleList) :
  forallb (fun p => match make_index_pos opt g (threevec (position p)) with
                    | Ok _ => true
                    | _ => false
                    end) ps = true ->
  forall p, p ∈ ps ->
    exists idx, make_index_pos opt g (threevec (position p)) = Ok idx.
Proof.
  intros H p Hp. rewrite forallb_forall in H.
  specialize (H p (proj1 (list_elem_of_In _ _) Hp)).
  destruct (make_index_pos opt g (threevec (position p))) as [idx| |];
    [exists idx; reflexivity | discriminate H | discriminate H].
Qed.

Lemma last_cell_index (n0 n1 n2 : Z) :
  ((n2 - 1) * n1 + (n1 - 1)) * n0 + (n0 - 1) = n0 * n1 * n2 - 1.
Proof. ring. Qed.

(** Inside a cell array whose size fits [int] the index arithmetic does not
    overflow. *)
Lemma make_index_fits_in_grid (n : array3 Z) (x y z : Z) :
  in_grid n x y z -> cell_count n <= int_max ->
  make_index_fits n x y z = true.
Proof.
  unfold in_grid, cell_count, make_index_fits, is_int, int_min, int_max.
  intros (Hx & Hy & Hz) Hc.
  assert (B1 : 0 <= z * at1 n) by nia.
  assert (B2 : z * at1 n + y < at1 n * at2 n) by nia.
  assert (B3 : 0 <= (z * at1 n + y) * at0 n) by nia.
  assert (B4 : (z * at1 n + y) * at0 n + x < at0 n * at1 n * at2 n) by nia.
  assert (B5 : at1 n * at2 n <= at0 n * at1 n * at2 n) by nia.
  assert (B6 : (z * at1 n + y) * at0 n <= (z * at1 n + y) * at0 n + x) by lia.
  rewrite !andb_true_iff, !Z.leb_le. lia.
Qed.

Lemma defined_coordinates_check (opt : GridOptions) (g : Grid) (ps : ParticleList) :
  forallb (fun p => match cell_coordinates opt g (threevec (position p)) with
                    | Ok c => make_index_fits (number_of_cells_ g)
                                (at0 c) (at1 c) (at2 c)
                    | _ => false
                    end) ps = true ->
  forall p, p ∈ ps ->
    exists c, cell_coordinates opt g (threevec (position p)) = Ok c /\
      make_index_fits (number_of_cells_ g) (at0 c) (at1 c) (at2 c) = true.
Proof.
  intros H p Hp. rewrite forallb_forall in H.
  specialize (H p (proj1 (list_elem_of_In _ _) Hp)).
  destruct (cell_coordinates opt g (threevec (position p))) as [c| |];
    [exists c; split; [reflexivity | exact H] | discriminate H | discriminate H].
Qed.

(** C8 -- The geometry-inconsistency error, as the code has it.  Let
    [max_cells] be the library's cube root of the particle count truncated
    to [int], at least 1.  In a debug build, for a non-empty particle set
    that is not in the dilute limit, whose cell array has a size that fits
    [int] and whose index computations are all defined -- the three cell
    coordinates of every particle convert to [int] and the products and sums
    of [make_index] do not overflow -- construction throws the fatal error
    exactly when some particle fails the bounds check, and returns a grid
    otherwise.  The check fails in open mode exactly for a linear index
    outside the cell array; in periodic mode exactly for a linear index below
    that of cell (1,1,0) or at least that of the last cell
    (n0-1, n1-1, n2-1).  When construction throws, the particles before the
    offending one have been placed, each in the cell of its index, and the
    offending particle in none. *)
Theorem construction_bounds_check (cbrt : Float64.t -> Float64.t)
  (opt : GridOptions) (ps : ParticleList)
  (mm : array3 Float32.t * array3 Float32.t) (max_cells : Z) (n : array3 Z)
  (f : array3 Float32.t) :
  ps <> [] ->
  max_cells_of cbrt (Z.of_nat (length ps)) = Ok max_cells -> 1 <= max_cells ->
  resolve_geometry_with max_cells mm.1 mm.2 = Ok (n, f) ->
  (opt = Normal -> is_dilute n = false) ->
  let cells := match opt with
               | Normal => n
               | PeriodicBoundaries => add_ghost_layers n
               end in
  let g0 := allocate mm.1 f cells in
  let fails p := out_of_bounds opt g0 (home_cell opt g0 p) = true in
  cell_count cells <= int_max ->
  (forall p, p ∈ ps ->
     exists c, cell_coordinates opt g0 (threevec (position p)) = Ok c /\
       make_index_fits cells (at0 c) (at1 c) (at2 c) = true) ->
  (forall idx,
     out_of_bounds opt g0 idx = true <->
     match opt with
     | Normal => idx < 0 \/ cell_count cells <= idx
     | PeriodicBoundaries =>
         idx < make_index g0 1 1 0 \/
         make_index g0 (at0 cells - 1) (at1 cells - 1) (at2 cells - 1) <= idx
     end) /\
  (Grid_from_bounds_with cbrt opt false ps mm
   = Throw (runtime_error out_of_bounds_msg)
   <-> exists p, p ∈ ps /\ fails p) /\
  ((forall p, p ∈ ps -> ~ fails p) ->
   exists g, Grid_from_bounds_with cbrt opt false ps mm = Ok g) /\
  (Grid_from_bounds_with cbrt opt false ps mm
   = Throw (runtime_error out_of_bounds_msg) ->
   exists pre p post g1,
     ps = pre ++ p :: post /\ fails p /\
     place_particles opt false g0 pre = Ok g1 /\
     forall j, 0 <= j < cell_count cells ->
       cell g1 j = filter (fun q => home_cell opt g0 q = j) pre).
Proof.
  intros Hne Hm Hpos Hr Hnd cells g0 fails Hsize Hcoord.
  assert (Hdef : forall p, p ∈ ps ->
            exists idx, make_index_pos opt g0 (threevec (position p)) = Ok idx).
  { intros p Hp. destruct (Hcoord p Hp) as (c & Hc & _).
    eexists. apply make_index_pos_coordinates. exact Hc. }
  apply resolve_geometry_with_Ok in Hr as Hax. destruct Hax as (A0 & A1 & A2).
  pose proof (resolve_axis_bounds _ _ _ _ _ _ Hpos A0) as Hb0.
  pose proof (resolve_axis_bounds _ _ _ _ _ _ Hpos A1) as Hb1.
  pose proof (resolve_axis_bounds _ _ _ _ _ _ Hpos A2) as Hb2.
  assert (Hcount : 0 <= cell_count cells).
  { unfold cell_count, cells, add_ghost_layers. destruct opt; simpl; nia. }
  assert (Hlen : Z.of_nat (length (cells_ g0)) = cell_count cells)
    by (apply allocate_length; exact Hcount).
  split.
  { intros idx. unfold out_of_bounds. rewrite Hlen. destruct opt.
    - rewrite orb_true_iff, Z.ltb_lt, Z.leb_le. reflexivity.
    - rewrite !orb_true_iff, !Z.ltb_lt, !Z.leb_le.
      unfold make_index, make_index_n. simpl number_of_cells_.
      rewrite last_cell_index. fold (cell_count cells).
      assert (0 < (0 * at1 cells + 1) * at0 cells + 1)
        by (unfold cells, add_ghost_layers; simpl; lia).
      lia. }
  assert (Hrun : Grid_from_bounds_with cbrt opt false ps mm =
                 match opt with
                 | Normal => place_particles Normal false g0 ps
                 | PeriodicBoundaries =>
                     place_particles PeriodicBoundaries false g0 ps
                     ≫= fill_ghost_cells (box_length mm.1 mm.2)
                 end).
  { rewrite (Grid_from_bounds_with_max_cells cbrt opt false ps mm max_cells Hne Hm).
    rewrite (Grid_with_max_cells_resolved opt false max_cells ps mm n f Hr).
    destruct opt; [rewrite (Hnd eq_refl) |]; reflexivity. }
  assert (Hplaced : forall g1,
            place_particles opt false g0 ps = Ok g1 ->
            exists g, Grid_from_bounds_with cbrt opt false ps mm = Ok g).
  { intros g1 Hg1. rewrite Hrun. destruct opt.
    - exists g1. exact Hg1.
    - rewrite Hg1. simpl.
      destruct (fill_ghost_cells_spec (box_length mm.1 mm.2) g1) as (g & Hg & _).
      + apply place_particles_Ok in Hg1 as (Hsf & _).
        eapply same_frame_periodic; [exact Hsf |].
        apply add_ghost_layers_frame; lia.
      + exists g. exact Hg. }
  assert (Hthrown : place_particles opt false g0 ps
                    = Throw (runtime_error out_of_bounds_msg) ->
                    Grid_from_bounds_with cbrt opt false ps mm
                    = Throw (runtime_error out_of_bounds_msg)).
  { intros H. rewrite Hrun. destruct opt; [exact H | rewrite H; reflexivity]. }
  destruct (place_particles_debug opt ps g0 Hdef)
    as [(g1 & Hg1 & Hall) | (pre & p & post & g1 & Hps & Hpre & Hp & Hthrow)].
  - destruct (Hplaced g1 Hg1) as (g & Hg).
    split; [| split].
    + split.
      * intros H. rewrite Hg in H. discriminate H.
      * intros (p & Hp & Hf). unfold fails in Hf. rewrite (Hall p Hp) in Hf.
        discriminate Hf.
    + intros _. exists g. exact Hg.
    + intros H. rewrite Hg in H. discriminate H.
  - split; [| split].
    + split; [| intros _; apply Hthrown; exact Hthrow].
      intros _. exists p. split; [| exact Hp].
      rewrite Hps. apply elem_of_app. right. apply list_elem_of_here.
    + intros Hnone. exfalso. apply (Hnone p); [| exact Hp].
      rewrite Hps. apply elem_of_app. right. apply list_elem_of_here.
    + intros _. exists pre, p, post, g1.
      split; [exact Hps |]. split; [exact Hp |]. split; [exact Hpre |].
      intros j Hj. apply (placed_cell opt false _ _ _ pre g1 j Hpre Hj).
Qed.

Lemma construction_bounds_check_witness :
  let ps := lattice_3_75 in
  let mm := bounds_of ps in
  let n := Arr3 3 3 3 in
  let factor := Float32.div Float32.lit_1 Float32.lit_2_5 in
  let f := Arr3 factor factor factor in
  let g0 := allocate mm.1 f n in
  ps <> [] /\
  max_cells_of cbrt_floor (Z.of_nat (length ps)) = Ok 3 /\
  resolve_geometry_with 3 mm.1 mm.2 = Ok (n, f) /\
  is_dilute n = false /\
  cell_count n <= int_max /\
  (forall p, p ∈ ps ->
     exists c, cell_coordinates Normal g0 (threevec (position p)) = Ok c /\
       make_index_fits n (at0 c) (at1 c) (at2 c) = true) /\
  exists p, p ∈ ps /\ out_of_bounds Normal g0 (home_cell Normal g0 p) = true.
Proof.
  intros ps mm n factor f g0.
  assert (Hne : ps <> []) by (vm_compute; intros H; discriminate H).
  assert (Hm : max_cells_of cbrt_floor (Z.of_nat (length ps)) = Ok 3)
    by (vm_compute; reflexivity).
  assert (Hr : resolve_geometry_with 3 mm.1 mm.2 = Ok (n, f))
    by (vm_compute; reflexivity).
  assert (Hnd : Normal = Normal -> is_dilute n = false) by reflexivity.
  assert (Hsize : cell_count n <= int_max) by (vm_compute; intros H; discriminate H).
  assert (Hdef : forall p, p ∈ ps ->
            exists c, cell_coordinates Normal g0 (threevec (position p)) = Ok c /\
              make_index_fits n (at0 c) (at1 c) (at2 c) = true)
    by (apply (defined_coordinates_check Normal g0 ps); vm_compute; reflexivity).
  assert (Hthrow : Grid_from_bounds_with cbrt_floor Normal false ps mm
                   = Throw (runtime_error out_of_bounds_msg))
    by (vm_compute; reflexivity).
  split; [exact Hne |]. split; [exact Hm |]. split; [exact Hr |].
  split; [reflexivity |]. split; [exact Hsize |]. split; [exact Hdef |].
  destruct (construction_bounds_check cbrt_floor Normal ps mm 3 n f Hne Hm
              ltac:(lia) Hr Hnd Hsize Hdef) as (_ & Hiff & _).
  apply Hiff. exact Hthrow.
Defined.

(** C8, as stated, fails in periodic mode: the particle at x = 5 of
    [seven_and_one] maps to cell (3,1,0), a ghost cell outside the interior
    index range, yet debug construction does not throw; the ghost loops then
    overwrite that cell, and the particle is in no cell of the grid. *)
Lemma bounds_check_periodic_counterexample :
  let ps := seven_and_one in
  let mm := bounds_of ps in
  let g := grid_of (Grid_from_bounds PeriodicBoundaries false ps mm) in
  let p := particle_at 7 (Float64.of_int 5) Float64.zero Float64.zero in
  last ps = Some p /\
  Grid_from_bounds PeriodicBoundaries false ps mm = Ok g /\
  number_of_cells_ g = Arr3 4 3 2 /\
  home_cell PeriodicBoundaries g p = 7 /\
  make_index g 3 1 0 = 7 /\
  is_ghost_cell g 3 1 0 = true /\
  interior (number_of_cells_ g) 7 = false /\
  forallb (fun c => negb (has_id 7 c)) (cells_ g) = true /\
  ~ (throws (Grid_from_bounds PeriodicBoundaries false ps mm) = true <->
     exists q, q ∈ ps /\
       interior (number_of_cells_ g) (home_cell PeriodicBoundaries g q) = false).
Proof.
  intros ps mm g p.
  assert (Hlast : last ps = Some p) by (vm_compute; reflexivity).
  assert (Hhome : home_cell PeriodicBoundaries g p = 7) by (vm_compute; reflexivity).
  assert (Hint : interior (number_of_cells_ g) 7 = false) by (vm_compute; reflexivity).
  assert (Hthrows : throws (Grid_from_bounds PeriodicBoundaries false ps mm) = false)
    by (vm_compute; reflexivity).
  repeat (split; [vm_compute; reflexivity |]).
  intros [_ H]. rewrite Hthrows in H. 
  assert (E : false = true); [| discriminate E].
  apply H. exists p. split.
  - apply list_elem_of_lookup. exists 7%nat. vm_compute. reflexivity.
  - rewrite Hhome. exact Hint.
Qed.

(** ** The closures of a traversal *)

Lemma range_nil (lo hi : Z) : hi <= lo -> range lo hi = [].
Proof. intros H. unfold range. apply seqZ_nil. lia. Qed.

Lemma range_cons (lo hi : Z) : lo < hi -> range lo hi = lo :: range (lo + 1) hi.
Proof.
  intros H. unfold range. rewrite seqZ_cons by lia.
  f_equal. f_equal; lia.
Qed.

Lemma range_snoc (lo hi : Z) : lo < hi -> range lo hi = range lo (hi - 1) ++ [hi - 1].
Proof.
  intros H. unfold range.
  replace (hi - lo) with ((hi - 1 - lo) + 1) by lia.
  rewrite seqZ_app by lia. f_equal.
  replace (lo + (hi - 1 - lo)) with (hi - 1) by lia. reflexivity.
Qed.

Lemma NoDup_range (lo hi : Z) : NoDup (range lo hi).
Proof. apply NoDup_seqZ. Qed.

Lemma map_ext_elem {A B : Type} (f h : A -> B) (l : list A) :
  (forall a, a ∈ l -> f a = h a) -> map f l = map h l.
Proof.
  intros H. apply map_ext_in. intros a Ha. apply H. apply list_elem_of_In. exact Ha.
Qed.

Lemma bind_ext_elem {A B : Type} (f h : A -> list B) (l : list A) :
  (forall a, a ∈ l -> f a = h a) -> l ≫= f = l ≫= h.
Proof.
  induction l as [|a l IH]; intros H; [reflexivity |].
  rewrite !bind_cons. rewrite (H a) by apply list_elem_of_here.
  rewrite IH; [reflexivity |].
  intros b Hb. apply H. apply list_elem_of_further. exact Hb.
Qed.

Lemma bind_singleton_map {A B : Type} (f : A -> B) (l : list A) :
  (a ← l; [f a]) = map f l.
Proof.
  induction l as [|a l IH]; [reflexivity |].
  rewrite bind_cons, IH. reflexivity.
Qed.

Lemma map_bind {A B C : Type} (f : B -> C) (h : A -> list B) (l : list A) :
  map f (l ≫= h) = l ≫= fun a => map f (h a).
Proof.
  induction l as [|a l IH]; [reflexivity |].
  rewrite !bind_cons, map_app, IH. reflexivity.
Qed.

Lemma stencil_first (n : Z) : 1 < n -> stencil n 0 = [0; 1].
Proof.
  intros H. unfold stencil. simpl.
  replace (0 <? n - 1) with true by (symmetry; apply Z.ltb_lt; lia). reflexivity.
Qed.

Lemma stencil_last (n : Z) : 1 < n -> stencil n (n - 1) = [-1; 0].
Proof.
  intros H. unfold stencil.
  replace (0 <? n - 1) with true by (symmetry; apply Z.ltb_lt; lia).
  rewrite Z.ltb_irrefl. reflexivity.
Qed.

Lemma stencil_middle (n x : Z) : 1 <= x < n - 1 -> stencil n x = [-1; 0; 1].
Proof.
  intros H. unfold stencil.
  replace (0 <? x) with true by (symmetry; apply Z.ltb_lt; lia).
  replace (x <? n - 1) with true by (symmetry; apply Z.ltb_lt; lia). reflexivity.
Qed.

Lemma stencil_single : stencil 1 0 = [0].
Proof. reflexivity. Qed.

(** A row of an open grid: one closure per cell, with the stencil of its
    position. *)
Lemma build_neighbors_with_zy_spec (g : Grid) (y z : Z) (yoffsets zoffsets : list Z) :
  1 <= at0 (number_of_cells_ g) ->
  build_neighbors_with_zy g y z yoffsets zoffsets =
  map (fun x => (make_index g x y z, stencil (at0 (number_of_cells_ g)) x,
                 yoffsets, zoffsets))
      (range 0 (at0 (number_of_cells_ g))).
Proof.
  intros H. unfold build_neighbors_with_zy.
  set (n0 := at0 (number_of_cells_ g)) in *.
  destruct (n0 >? 1) eqn:E.
  - apply Z.gtb_lt in E.
    rewrite (range_cons 0 n0) by lia. rewrite (range_snoc (0 + 1) n0) by lia.
    simpl map. rewrite map_app. simpl map.
    rewrite stencil_first, stencil_last by lia.
    change (0 + 1) with 1. simpl app. do 2 f_equal.
    apply map_ext_elem. intros x Hx. apply elem_of_range in Hx.
    rewrite stencil_middle by lia. reflexivity.
  - rewrite Z.gtb_ltb in E. apply Z.ltb_ge in E.
    assert (E1 : n0 = 1) by lia. rewrite E1. reflexivity.
Qed.

(** A layer of an open grid. *)
Lemma build_neighbors_with_z_spec (g : Grid) (z : Z) (zoffsets : list Z) :
  1 <= at0 (number_of_cells_ g) -> 1 <= at1 (number_of_cells_ g) ->
  build_neighbors_with_z g z zoffsets =
  (y ← range 0 (at1 (number_of_cells_ g));
   map (fun x => (make_index g x y z, stencil (at0 (number_of_cells_ g)) x,
                  stencil (at1 (number_of_cells_ g)) y, zoffsets))
       (range 0 (at0 (number_of_cells_ g)))).
Proof.
  intros H0 H1. unfold build_neighbors_with_z.
  set (n1 := at1 (number_of_cells_ g)) in *.
  destruct (n1 >? 1) eqn:E.
  - apply Z.gtb_lt in E.
    rewrite (range_cons 0 n1) by lia. rewrite (range_snoc (0 + 1) n1) by lia.
    rewrite bind_cons, bind_app, bind_singleton.
    rewrite stencil_first, stencil_last by lia.
    rewrite !build_neighbors_with_zy_spec by exact H0.
    change (0 + 1) with 1. do 2 f_equal.
    apply bind_ext_elem. intros y Hy. apply elem_of_range in Hy.
    rewrite build_neighbors_with_zy_spec by exact H0.
    rewrite stencil_middle by lia. reflexivity.
  - rewrite Z.gtb_ltb in E. apply Z.ltb_ge in E.
    assert (E1 : n1 = 1) by lia. rewrite E1.
    rewrite build_neighbors_with_zy_spec by exact H0. 
    change (range 0 1) with [0]. rewrite bind_singleton. reflexivity.
Qed.

(** The closures of an open grid: one per cell, in the order of the cells,
    each with the truncated stencils of its position. *)
Lemma closures_normal (g : Grid) :
  1 <= at0 (number_of_cells_ g) -> 1 <= at1 (number_of_cells_ g) ->
  1 <= at2 (number_of_cells_ g) ->
  closures Normal g = map (normal_args g) (all_cells (number_of_cells_ g)).
Proof.
  intros H0 H1 H2. unfold closures, all_cells.
  set (n2 := at2 (number_of_cells_ g)) in *.
  rewrite (range_snoc 0 n2) by lia.
  rewrite bind_app, bind_singleton, map_app. f_equal.
  - rewrite map_bind. apply bind_ext_elem. intros z Hz. apply elem_of_range in Hz.
    rewrite build_neighbors_with_z_spec by assumption.
    rewrite map_bind. apply bind_ext_elem. intros y Hy.
    rewrite bind_singleton_map, map_map. apply map_ext_elem. intros x Hx.
    unfold normal_args, zstencil. fold n2.
    replace (z <? n2 - 1) with true by (symmetry; apply Z.ltb_lt; lia). reflexivity.
  - rewrite build_neighbors_with_z_spec by assumption.
    rewrite map_bind. apply bind_ext_elem. intros y Hy.
    rewrite bind_singleton_map, map_map. apply map_ext_elem. intros x Hx.
    unfold normal_args, zstencil. fold n2.
    rewrite Z.ltb_irrefl. reflexivity.
Qed.

(** The closures of a periodic grid: one per interior cell, with the full
    stencil on x and y and the forward stencil on z. *)
Lemma closures_periodic (g : Grid) :
  closures PeriodicBoundaries g =
  map (periodic_args g) (interior_cells (number_of_cells_ g)).
Proof.
  unfold closures, interior_cells.
  rewrite map_bind. apply bind_ext_elem. intros z Hz.
  rewrite map_bind. apply bind_ext_elem. intros y Hy.
  rewrite map_bind. apply bind_ext_elem. intros x Hx. reflexivity.
Qed.

(** ** The neighbours of a closure *)

Lemma elem_of_neighbor_indices (g : Grid) (ci : Z) (xo yo zo : list Z) (j : Z) :
  j ∈ neighbor_indices g ci xo yo zo <->
  exists dx dy dz, dx ∈ xo /\ dy ∈ yo /\ dz ∈ zo /\
    j = ci + dz * at1 (number_of_cells_ g) * at0 (number_of_cells_ g)
        + dy * at0 (number_of_cells_ g) + dx /\
    ci < j.
Proof.
  unfold neighbor_indices. rewrite list_elem_of_bind. split.
  - intros (dz & H & Hdz). apply list_elem_of_bind in H as (dy & H & Hdy).
    apply list_elem_of_bind in H as (dx & H & Hdx).
    destruct (Z.gtb_spec (ci + dz * at1 (number_of_cells_ g) * at0 (number_of_cells_ g)
                          + dy * at0 (number_of_cells_ g) + dx) ci) as [Hgt | Hle].
    + apply list_elem_of_singleton in H. exists dx, dy, dz.
      repeat split; try assumption. rewrite H. exact Hgt.
    + inversion H.
  - intros (dx & dy & dz & Hdx & Hdy & Hdz & -> & Hlt).
    exists dz. split; [| exact Hdz].
    apply list_elem_of_bind. exists dy. split; [| exact Hdy].
    apply list_elem_of_bind. exists dx. split; [| exact Hdx].
    destruct (Z.gtb_spec (ci + dz * at1 (number_of_cells_ g) * at0 (number_of_cells_ g)
                          + dy * at0 (number_of_cells_ g) + dx) ci) as [Hgt | Hle].
    + apply list_elem_of_singleton. reflexivity.
    + lia.
Qed.

Lemma make_index_offset (n : array3 Z) (x y z dx dy dz : Z) :
  make_index_n n x y z + dz * at1 n * at0 n + dy * at0 n + dx =
  make_index_n n (x + dx) (y + dy) (z + dz).
Proof. unfold make_index_n. ring. Qed.

Lemma elem_of_stencil (n x dx : Z) :
  dx ∈ stencil n x <-> (dx = -1 /\ 0 < x) \/ dx = 0 \/ (dx = 1 /\ x < n - 1).
Proof.
  unfold stencil. rewrite !elem_of_app, list_elem_of_singleton.
  destruct (Z.ltb_spec 0 x); destruct (Z.ltb_spec x (n - 1));
    rewrite ?list_elem_of_singleton, ?elem_of_nil; lia.
Qed.

Lemma elem_of_zstencil (n z dz : Z) :
  dz ∈ zstencil n z <-> dz = 0 \/ (dz = 1 /\ z < n - 1).
Proof.
  unfold zstencil. rewrite elem_of_cons.
  destruct (Z.ltb_spec z (n - 1));
    rewrite ?list_elem_of_singleton, ?elem_of_nil; lia.
Qed.

Lemma elem_of_full_stencil (d : Z) : d ∈ [-1; 0; 1] <-> -1 <= d <= 1.
Proof. rewrite !elem_of_cons, elem_of_nil. lia. Qed.

Lemma elem_of_forward_stencil (d : Z) : d ∈ [0; 1] <-> 0 <= d <= 1.
Proof. rewrite !elem_of_cons, elem_of_nil. lia. Qed.

Lemma near_spec (u v : Z) : near u v = true <-> -1 <= u - v <= 1.
Proof. unfold near. rewrite andb_true_iff, !Z.leb_le. lia. Qed.

(** In an open grid the neighbours of a cell are the cells that touch it and
    come after it. *)
Lemma normal_neighbors (g : Grid) (x y z j : Z) :
  let n := number_of_cells_ g in
  in_grid n x y z ->
  (j ∈ neighbor_indices g (make_index g x y z)
         (stencil (at0 n) x) (stencil (at1 n) y) (zstencil (at2 n) z) <->
   exists x' y' z',
     in_grid n x' y' z' /\ -1 <= x' - x <= 1 /\ -1 <= y' - y <= 1 /\
     -1 <= z' - z <= 1 /\
     j = make_index g x' y' z' /\ make_index g x y z < j).
Proof.
  intros n Hin. rewrite elem_of_neighbor_indices. fold n. unfold make_index. fold n.
  split.
  - intros (dx & dy & dz & Hdx & Hdy & Hdz & -> & Hlt).
    apply elem_of_stencil in Hdx, Hdy. apply elem_of_zstencil in Hdz.
    rewrite make_index_offset in Hlt |- *.
    exists (x + dx), (y + dy), (z + dz).
    unfold in_grid in *. repeat split; try lia; exact Hlt.
  - intros (x' & y' & z' & Hin' & Hx & Hy & Hz & -> & Hlt).
    pose proof (proj1 (make_index_n_lt n x y z x' y' z' Hin Hin') Hlt) as Hlex.
    exists (x' - x), (y' - y), (z' - z).
    rewrite elem_of_stencil, elem_of_stencil, elem_of_zstencil.
    rewrite make_index_offset.
    replace (x + (x' - x)) with x' by lia.
    replace (y + (y' - y)) with y' by lia.
    replace (z + (z' - z)) with z' by lia.
    unfold in_grid in *. repeat split; try lia; exact Hlt.
Qed.

(** In a periodic grid the neighbours of an interior cell are the cells the
    forward offsets lead to, ghost cells included. *)
Lemma periodic_neighbors (g : Grid) (x y z j : Z) :
  let n := number_of_cells_ g in
  1 <= x <= at0 n - 2 -> 1 <= y <= at1 n - 2 -> 0 <= z <= at2 n - 2 ->
  (j ∈ neighbor_indices g (make_index g x y z) [-1; 0; 1] [-1; 0; 1] [0; 1] <->
   exists dx dy dz,
     -1 <= dx <= 1 /\ -1 <= dy <= 1 /\ forward dx dy dz /\
     j = make_index g (x + dx) (y + dy) (z + dz)).
Proof.
  intros n Hx Hy Hz. rewrite elem_of_neighbor_indices. fold n.
  unfold make_index. fold n. unfold forward.
  assert (Hin : in_grid n x y z) by (unfold in_grid; lia).
  split.
  - intros (dx & dy & dz & Hdx & Hdy & Hdz & -> & Hlt).
    apply elem_of_full_stencil in Hdx, Hdy. apply elem_of_forward_stencil in Hdz.
    rewrite make_index_offset in Hlt |- *.
    assert (Hin' : in_grid n (x + dx) (y + dy) (z + dz)) by (unfold in_grid; lia).
    pose proof (proj1 (make_index_n_lt n _ _ _ _ _ _ Hin Hin') Hlt) as Hlex.
    exists dx, dy, dz. repeat split; try lia.
  - intros (dx & dy & dz & Hdx & Hdy & Hf & ->).
    exists dx, dy, dz.
    rewrite !elem_of_full_stencil, elem_of_forward_stencil, make_index_offset.
    assert (Hin' : in_grid n (x + dx) (y + dy) (z + dz)) by (unfold in_grid; lia).
    repeat split; try lia.
    apply (make_index_n_lt n _ _ _ _ _ _ Hin Hin'). lia.
Qed.

(** ** Running the closures *)

Lemma call_closure_Ok (g : Grid) (a : closure_args) :
  0 <= a.1.1.1 < Z.of_nat (length (cells_ g)) ->
  (forall j, j ∈ neighbor_indices g a.1.1.1 a.1.1.2 a.1.2 a.2 ->
             0 <= j < Z.of_nat (length (cells_ g))) ->
  call_closure g a = Ok (call_of g a).
Proof.
  destruct a as [[[ci xo] yo] zo]. simpl. intros Hci Hnb.
  unfold call_closure, call_of.
  rewrite (mapM_Ok _ (fun j => (j, cell g j))).
  - simpl. rewrite cell_at_cell by exact Hci. reflexivity.
  - intros j Hj. rewrite cell_at_cell by (apply Hnb; exact Hj). reflexivity.
Qed.

Lemma iterate_cells_Ok (opt : GridOptions) (g : Grid) :
  (forall a, a ∈ closures opt g ->
     0 <= a.1.1.1 < Z.of_nat (length (cells_ g)) /\
     forall j, j ∈ neighbor_indices g a.1.1.1 a.1.1.2 a.1.2 a.2 ->
               0 <= j < Z.of_nat (length (cells_ g))) ->
  iterate_cells opt g = Ok (map (call_of g) (closures opt g)).
Proof.
  intros H. unfold iterate_cells. apply mapM_Ok.
  intros a Ha. destruct (H a Ha) as [H1 H2]. apply call_closure_Ok; assumption.
Qed.

Lemma elem_of_map {A B : Type} (f : A -> B) (l : list A) (b : B) :
  b ∈ map f l <-> exists a, b = f a /\ a ∈ l.
Proof.
  rewrite list_elem_of_In, in_map_iff. split.
  - intros (a & <- & Ha). exists a. split; [reflexivity | apply list_elem_of_In; exact Ha].
  - intros (a & -> & Ha). exists a. split; [reflexivity | apply list_elem_of_In; exact Ha].
Qed.

(** The traversal of an open grid returns: every closure stays inside the
    cell array. *)
Lemma iterate_cells_normal (g : Grid) :
  1 <= at0 (number_of_cells_ g) -> 1 <= at1 (number_of_cells_ g) ->
  1 <= at2 (number_of_cells_ g) ->
  Z.of_nat (length (cells_ g)) = cell_count (number_of_cells_ g) ->
  iterate_cells Normal g =
    Ok (map (fun t => call_of g (normal_args g t)) (all_cells (number_of_cells_ g))).
Proof.
  intros H0 H1 H2 Hlen. rewrite iterate_cells_Ok.
  - rewrite closures_normal, map_map by assumption. reflexivity.
  - intros a Ha. rewrite closures_normal in Ha by assumption.
    apply elem_of_map in Ha as ([[x y] z] & -> & Ht).
    apply elem_of_all_cells in Ht. rewrite Hlen. simpl. split.
    + apply make_index_n_range. exact Ht.
    + intros j Hj. apply (normal_neighbors g x y z j Ht) in Hj
        as (x' & y' & z' & Hin' & _ & _ & _ & -> & _).
      apply make_index_n_range. exact Hin'.
Qed.

Lemma elem_of_interior_cells (n : array3 Z) (x y z : Z) :
  (x, y, z) ∈ interior_cells n <->
  1 <= x <= at0 n - 2 /\ 1 <= y <= at1 n - 2 /\ 0 <= z <= at2 n - 2.
Proof.
  unfold interior_cells. rewrite list_elem_of_bind. split.
  - intros (z' & H & Hz). apply list_elem_of_bind in H as (y' & H & Hy).
    apply list_elem_of_bind in H as (x' & H & Hx).
    apply list_elem_of_singleton in H. injection H as -> -> ->.
    apply elem_of_range in Hx, Hy, Hz. lia.
  - intros (Hx & Hy & Hz). exists z. split; [| apply elem_of_range; lia].
    apply list_elem_of_bind. exists y. split; [| apply elem_of_range; lia].
    apply list_elem_of_bind. exists x. split; [| apply elem_of_range; lia].
    apply list_elem_of_singleton. reflexivity.
Qed.

(** The traversal of a periodic grid returns: the ghost layers hold every
    cell the full stencil of an interior cell reaches. *)
Lemma iterate_cells_periodic (g : Grid) :
  Z.of_nat (length (cells_ g)) = cell_count (number_of_cells_ g) ->
  iterate_cells PeriodicBoundaries g =
    Ok (map (fun t => call_of g (periodic_args g t))
            (interior_cells (number_of_cells_ g))).
Proof.
  intros Hlen. rewrite iterate_cells_Ok.
  - rewrite closures_periodic, map_map. reflexivity.
  - intros a Ha. rewrite closures_periodic in Ha.
    apply elem_of_map in Ha as ([[x y] z] & -> & Ht).
    apply elem_of_interior_cells in Ht as (Hx & Hy & Hz). rewrite Hlen. simpl. split.
    + apply make_index_n_range. unfold in_grid. lia.
    + intros j Hj. apply (periodic_neighbors g x y z j Hx Hy Hz) in Hj
        as (dx & dy & dz & Hdx & Hdy & Hf & ->).
      apply make_index_n_range. unfold in_grid, forward in *. lia.
Qed.

(** ** Which particles a cell holds *)

Lemma has_id_spec (a : Z) (l : ParticleList) :
  has_id a l = true <-> exists p, p ∈ l /\ id p = a.
Proof.
  unfold has_id. rewrite existsb_exists. split.
  - intros (p & Hp & E). exists p. split; [apply list_elem_of_In; exact Hp |].
    apply Z.eqb_eq. exact E.
  - intros (p & Hp & E). exists p. split; [apply list_elem_of_In; exact Hp |].
    apply Z.eqb_eq. exact E.
Qed.

Lemma has_id_shift (a : Z) (s : FourVector) (l : ParticleList) :
  has_id a (map (shift_particle s) l) = has_id a l.
Proof.
  induction l as [|p l IH]; [reflexivity |].
  simpl. rewrite IH. reflexivity.
Qed.

Lemma NoDup_map_inj {A B : Type} (f : A -> B) (l : list A) (x y : A) :
  NoDup (map f l) -> x ∈ l -> y ∈ l -> f x = f y -> x = y.
Proof.
  induction l as [|a l IH]; intros Hnd Hx Hy E; [inversion Hx |].
  simpl in Hnd. apply NoDup_cons in Hnd as [Hna Hnd].
  apply elem_of_cons in Hx as [-> | Hx]; apply elem_of_cons in Hy as [-> | Hy].
  - reflexivity.
  - exfalso. apply Hna. rewrite E. apply elem_of_map. exists y. auto.
  - exfalso. apply Hna. rewrite <- E. apply elem_of_map. exists x. auto.
  - apply IH; assumption.
Qed.

(** With distinct ids, a bucket holds a particle of the collection exactly
    when the bucket is the one the particle maps to. *)
Lemma has_id_bucket (h : ParticleData -> Z) (ps : ParticleList)
  (pa : ParticleData) (j : Z) :
  NoDup (map id ps) -> pa ∈ ps ->
  (has_id (id pa) (filter (fun p => h p = j) ps) = true <-> h pa = j).
Proof.
  intros Hnd Hpa. rewrite has_id_spec. split.
  - intros (p & Hp & E). apply list_elem_of_filter in Hp as [Hh Hp].
    rewrite <- (NoDup_map_inj id ps p pa Hnd Hp Hpa E). exact Hh.
  - intros Hh. exists pa. split; [| reflexivity].
    apply list_elem_of_filter. auto.
Qed.

(** What a callback delivers, in terms of the cells that hold the two ids. *)
Lemma delivers_call_of (g : Grid) (a b : Z) (args : closure_args) :
  let ci := args.1.1.1 in
  let nb := neighbor_indices g ci args.1.1.2 args.1.2 args.2 in
  let holds i j := has_id i (cell g j) = true in
  delivers a b (call_of g args) = true <->
  (holds a ci /\ holds b ci) \/
  (holds a ci /\ exists j, j ∈ nb /\ holds b j) \/
  (holds b ci /\ exists j, j ∈ nb /\ holds a j).
Proof.
  destruct args as [[[ci xo] yo] zo]. simpl.
  unfold delivers, call_of. simpl.
  assert (Hnb : forall i,
            existsb (fun nb : Z * ParticleList => has_id i nb.2)
              (map (fun j => (j, cell g j)) (neighbor_indices g ci xo yo zo)) = true
            <-> exists j, j ∈ neighbor_indices g ci xo yo zo /\
                          has_id i (cell g j) = true).
  { intros i. rewrite existsb_exists. split.
    - intros ([j c] & Hin & Hh). apply list_elem_of_In, elem_of_map in Hin
        as (j' & E & Hj'). injection E as -> ->. exists j'. auto.
    - intros (j & Hj & Hh). exists (j, cell g j). split; [| exact Hh].
      apply list_elem_of_In, elem_of_map. exists j. auto. }
  rewrite !orb_true_iff, !andb_true_iff, !Hnb. tauto.
Qed.

(** ** Counting callbacks *)

Lemma count_map_none {A B : Type} (f : A -> B) (P : B -> bool) (l : list A) :
  (forall t, t ∈ l -> P (f t) = false) ->
  length (List.filter P (map f l)) = 0%nat.
Proof.
  induction l as [|t l IH]; intros H; [reflexivity |].
  simpl. rewrite (H t) by apply list_elem_of_here.
  apply IH. intros t' Ht'. apply H. apply list_elem_of_further. exact Ht'.
Qed.

Lemma count_map_unique {A B : Type} (f : A -> B) (P : B -> bool) (l : list A)
  (m : A) :
  NoDup l -> m ∈ l -> (forall t, t ∈ l -> (P (f t) = true <-> t = m)) ->
  length (List.filter P (map f l)) = 1%nat.
Proof.
  induction l as [|t l IH]; intros Hnd Hm H; [inversion Hm |].
  apply NoDup_cons in Hnd as [Hnt Hnd]. simpl.
  apply elem_of_cons in Hm as [-> | Hm].
  - rewrite (proj2 (H t (list_elem_of_here _ _)) eq_refl). simpl. f_equal.
    apply count_map_none. intros t' Ht'.
    destruct (P (f t')) eqn:E; [| reflexivity].
    apply (H t' (list_elem_of_further _ _ _ Ht')) in E. subst t'. contradiction.
  - destruct (P (f t)) eqn:E.
    + apply (H t (list_elem_of_here _ _)) in E. subst t. contradiction.
    + apply IH; [exact Hnd | exact Hm |].
      intros t' Ht'. apply H. apply list_elem_of_further. exact Ht'.
Qed.

Lemma count_map_some {A B : Type} (f : A -> B) (P : B -> bool) (l : list A)
  (m : A) :
  m ∈ l -> P (f m) = true -> (1 <= length (List.filter P (map f l)))%nat.
Proof.
  induction l as [|t l IH]; intros Hm H; [inversion Hm |].
  simpl. apply elem_of_cons in Hm as [<- | Hm].
  - rewrite H. simpl. lia.
  - destruct (P (f t)); simpl; [lia | apply IH; assumption].
Qed.

Lemma NoDup_all_cells (n : array3 Z) : NoDup (all_cells n).
Proof.
  unfold all_cells.
  apply NoDup_bind; [| | apply NoDup_range].
  - intros z1 z2 [[x y] z] _ _ H1 H2.
    apply list_elem_of_bind in H1 as (y1 & H1 & _).
    apply list_elem_of_bind in H1 as (x1 & H1 & _).
    apply list_elem_of_bind in H2 as (y2 & H2 & _).
    apply list_elem_of_bind in H2 as (x2 & H2 & _).
    apply list_elem_of_singleton in H1, H2. congruence.
  - intros z _. apply NoDup_bind; [| | apply NoDup_range].
    + intros y1 y2 [[x y] z'] _ _ H1 H2.
      apply list_elem_of_bind in H1 as (x1 & H1 & _).
      apply list_elem_of_bind in H2 as (x2 & H2 & _).
      apply list_elem_of_singleton in H1, H2. congruence.
    + intros y _. apply NoDup_bind; [| | apply NoDup_range].
      * intros x1 x2 [[x y'] z'] _ _ H1 H2.
        apply list_elem_of_singleton in H1, H2. congruence.
      * intros x _. apply NoDup_singleton.
Qed.

Lemma NoDup_interior_cells (n : array3 Z) : NoDup (interior_cells n).
Proof.
  unfold interior_cells.
  apply NoDup_bind; [| | apply NoDup_range].
  - intros z1 z2 [[x y] z] _ _ H1 H2.
    apply list_elem_of_bind in H1 as (y1 & H1 & _).
    apply list_elem_of_bind in H1 as (x1 & H1 & _).
    apply list_elem_of_bind in H2 as (y2 & H2 & _).
    apply list_elem_of_bind in H2 as (x2 & H2 & _).
    apply list_elem_of_singleton in H1, H2. congruence.
  - intros z _. apply NoDup_bind; [| | apply NoDup_range].
    + intros y1 y2 [[x y] z'] _ _ H1 H2.
      apply list_elem_of_bind in H1 as (x1 & H1 & _).
      apply list_elem_of_bind in H2 as (x2 & H2 & _).
      apply list_elem_of_singleton in H1, H2. congruence.
    + intros y _. apply NoDup_bind; [| | apply NoDup_range].
      * intros x1 x2 [[x y'] z'] _ _ H1 H2.
        apply list_elem_of_singleton in H1, H2. congruence.
      * intros x _. apply NoDup_singleton.
Qed.

(** ** Open grids: which callbacks deliver a pair *)

Lemma filter_home_ext (opt : GridOptions) (g g' : Grid) (j : Z) (ps : ParticleList) :
  same_frame g g' ->
  filter (fun p => home_cell opt g p = j) ps =
  filter (fun p => home_cell opt g' p = j) ps.
Proof.
  intros H. apply list_filter_iff. intros p.
  rewrite (same_frame_home_cell opt g g' p H). reflexivity.
Qed.

Lemma Grid_from_bounds_open (ndebug : bool) (ps : ParticleList)
  (mm : array3 Float32.t * array3 Float32.t) (g : Grid) (n : array3 Z)
  (f : array3 Float32.t) :
  ps <> [] -> Grid_from_bounds Normal ndebug ps mm = Ok g ->
  resolve_geometry (Z.of_nat (length ps)) mm.1 mm.2 = Ok (n, f) ->
  is_dilute n = false ->
  number_of_cells_ g = n /\ open_bucketed g ps.
Proof.
  intros Hne Hg Hr Hd.
  rewrite (Grid_from_bounds_resolved Normal ndebug ps mm n f Hne Hr), Hd in Hg.
  pose proof (resolve_geometry_bounds _ _ _ _ _ (nonempty_count ps Hne) Hr)
    as (Hb0 & Hb1 & Hb2).
  assert (Hcount : 0 <= cell_count n) by (unfold cell_count; nia).
  pose proof (place_particles_Ok _ _ _ _ _ Hg) as (Hsf & Hall & _).
  pose proof Hsf as (_ & _ & Hn & Hlen).
  simpl in Hn. split; [exact Hn |].
  unfold open_bucketed. rewrite Hn, Hlen, allocate_length by exact Hcount.
  split; [lia |]. split; [reflexivity |]. split.
  - intros p Hp. destruct (Hall p Hp) as (_ & _ & Hrange).
    rewrite allocate_length in Hrange by exact Hcount.
    rewrite (same_frame_home_cell Normal _ g p Hsf). exact Hrange.
  - intros j Hj. rewrite (placed_cell Normal ndebug _ _ _ ps g j Hg Hj).
    apply filter_home_ext. exact Hsf.
Qed.

Section OpenDeliveries.
Variable g : Grid.
Variable ps : ParticleList.
Variables pa pb : ParticleData.
Hypothesis Hopen : open_bucketed g ps.
Hypothesis Hids : NoDup (map id ps).
Hypothesis Hpa : pa ∈ ps.
Hypothesis Hpb : pb ∈ ps.

Let n := number_of_cells_ g.
Let ia := home_cell Normal g pa.
Let ib := home_cell Normal g pb.

Lemma open_holds (p : ParticleData) (j : Z) :
  p ∈ ps -> 0 <= j < cell_count n ->
  (has_id (id p) (cell g j) = true <-> home_cell Normal g p = j).
Proof.
  intros Hp Hj. destruct Hopen as (_ & _ & _ & Hcell).
  rewrite (Hcell j Hj). apply has_id_bucket; assumption.
Qed.

(** The callback of the cell (x, y, z) delivers the pair exactly when the
    two cells touch and (x, y, z) is the earlier of them. *)
Lemma open_delivers (x y z xa ya za xb yb zb : Z) :
  in_grid n x y z ->
  in_grid n xa ya za -> make_index_n n xa ya za = ia ->
  in_grid n xb yb zb -> make_index_n n xb yb zb = ib ->
  (delivers (id pa) (id pb) (call_of g (normal_args g (x, y, z))) = true <->
   make_index_n n x y z = Z.min ia ib /\
   -1 <= xb - xa <= 1 /\ -1 <= yb - ya <= 1 /\ -1 <= zb - za <= 1).
Proof.
  intros Hin Hina Ea Hinb Eb.
  pose proof (make_index_n_range n x y z Hin) as Hh.
  rewrite delivers_call_of. unfold normal_args. cbn [fst snd]. fold n.
  set (h := make_index g x y z).
  assert (Eh : h = make_index_n n x y z) by reflexivity.
  set (nb := neighbor_indices g h _ _ _).
  assert (Hnb : forall j, j ∈ nb <->
            exists x' y' z',
              in_grid n x' y' z' /\ -1 <= x' - x <= 1 /\ -1 <= y' - y <= 1 /\
              -1 <= z' - z <= 1 /\ j = make_index_n n x' y' z' /\ h < j)
    by (intros j; apply (normal_neighbors g x y z j Hin)).
  assert (Hnbr : forall j, j ∈ nb -> 0 <= j < cell_count n).
  { intros j Hj. apply Hnb in Hj as (x' & y' & z' & Hin' & _ & _ & _ & -> & _).
    apply make_index_n_range. exact Hin'. }
  assert (Hha : has_id (id pa) (cell g h) = true <-> ia = h)
    by (apply open_holds; [exact Hpa | rewrite Eh; exact Hh]).
  assert (Hhb : has_id (id pb) (cell g h) = true <-> ib = h)
    by (apply open_holds; [exact Hpb | rewrite Eh; exact Hh]).
  rewrite Hha, Hhb. split.
  - intros [[E1 E2] | [[E1 (j & Hj & Hb)] | [E1 (j & Hj & Ha)]]].
    + rewrite <- Ea in E1. rewrite <- Eb in E2. rewrite Eh in E1, E2.
      apply make_index_n_inj in E1 as (-> & -> & ->); [| assumption | assumption].
      apply make_index_n_inj in E2 as (-> & -> & ->); [| assumption | assumption].
      split; [fold ia ib in Ea, Eb; lia | lia].
    + apply open_holds in Hb; [| exact Hpb | apply Hnbr; exact Hj].
      fold ib in Hb. subst j.
      apply Hnb in Hj as (x' & y' & z' & Hin' & Hx & Hy & Hz & Ej & Hlt).
      rewrite <- Ea, Eh in E1.
      apply make_index_n_inj in E1 as (-> & -> & ->); [| assumption | assumption].
      rewrite <- Eb in Ej.
      apply make_index_n_inj in Ej as (-> & -> & ->); [| assumption | assumption].
      split; [| lia]. fold h in Ea. unfold ia, ib in *. lia.
    + apply open_holds in Ha; [| exact Hpa | apply Hnbr; exact Hj].
      fold ia in Ha. subst j.
      apply Hnb in Hj as (x' & y' & z' & Hin' & Hx & Hy & Hz & Ej & Hlt).
      rewrite <- Eb, Eh in E1.
      apply make_index_n_inj in E1 as (-> & -> & ->); [| assumption | assumption].
      rewrite <- Ea in Ej.
      apply make_index_n_inj in Ej as (-> & -> & ->); [| assumption | assumption].
      split; [| lia]. fold h in Eb. unfold ia, ib in *. lia.
  - intros (Emin & Hx & Hy & Hz). rewrite <- Eh in Emin.
    destruct (Z.lt_trichotomy ia ib) as [Hlt | [Heq | Hgt]].
    + right. left. split; [lia |]. exists ib. split.
      * apply Hnb. exists xb, yb, zb.
        assert (E : make_index_n n x y z = make_index_n n xa ya za)
          by (rewrite Ea, <- Eh; lia).
        apply make_index_n_inj in E as (-> & -> & ->); [| assumption | assumption].
        repeat split; try lia; try (apply Hinb). 
      * apply open_holds; [exact Hpb | rewrite <- Eb; apply make_index_n_range; exact Hinb |].
        reflexivity.
    + left. split; lia.
    + right. right. split; [lia |]. exists ia. split.
      * apply Hnb. exists xa, ya, za.
        assert (E : make_index_n n x y z = make_index_n n xb yb zb)
          by (rewrite Eb, <- Eh; lia).
        apply make_index_n_inj in E as (-> & -> & ->); [| assumption | assumption].
        repeat split; try lia; try (apply Hina).
      * apply open_holds; [exact Hpa | rewrite <- Ea; apply make_index_n_range; exact Hina |].
        reflexivity.
Qed.

(** In an open grid a pair of particles is delivered by exactly one callback
    when their cells touch, and by none otherwise. *)
Lemma open_deliveries :
  deliveries (id pa) (id pb)
    (map (fun t => call_of g (normal_args g t)) (all_cells n))
  = if adjacent n ia ib then 1%nat else 0%nat.
Proof.
  destruct Hopen as ((H0 & H1 & H2) & _ & Hrange & _). fold n in H0, H1, H2, Hrange.
  destruct (make_index_cell_coords n ia) as (xa & ya & za & Eca & Hina & Ea);
    [lia | lia | apply Hrange; exact Hpa |].
  destruct (make_index_cell_coords n ib) as (xb & yb & zb & Ecb & Hinb & Eb);
    [lia | lia | apply Hrange; exact Hpb |].
  unfold adjacent. rewrite Eca, Ecb. unfold deliveries.
  destruct (near xa xb && near ya yb && near za zb) eqn:Eadj.
  - apply andb_true_iff in Eadj as [Eadj Hz]. apply andb_true_iff in Eadj as [Hx Hy].
    apply near_spec in Hx, Hy, Hz.
    apply (count_map_unique _ _ _
             (if ia <=? ib then (xa, ya, za) else (xb, yb, zb)));
      [apply NoDup_all_cells | |].
    + destruct (ia <=? ib); apply elem_of_all_cells; assumption.
    + intros [[x y] z] Ht. apply elem_of_all_cells in Ht.
      rewrite (open_delivers x y z xa ya za xb yb zb Ht Hina Ea Hinb Eb).
      destruct (Z.leb_spec ia ib) as [Hle | Hgt].
      * rewrite Z.min_l by lia. rewrite <- Ea. split.
        -- intros (E & _). apply make_index_n_inj in E as (-> & -> & ->);
             [reflexivity | assumption | assumption].
        -- intros E. injection E as -> -> ->. split; [reflexivity | lia].
      * rewrite Z.min_r by lia. rewrite <- Eb. split.
        -- intros (E & _). apply make_index_n_inj in E as (-> & -> & ->);
             [reflexivity | assumption | assumption].
        -- intros E. injection E as -> -> ->. split; [reflexivity | lia].
  - apply count_map_none. intros [[x y] z] Ht. apply elem_of_all_cells in Ht.
    destruct (delivers (id pa) (id pb) (call_of g (normal_args g (x, y, z)))) eqn:E;
      [| reflexivity].
    apply (open_delivers x y z xa ya za xb yb zb Ht Hina Ea Hinb Eb) in E
      as (_ & Hx & Hy & Hz).
    assert (near xa xb && near ya yb && near za zb = true); [| congruence].
    rewrite !andb_true_iff, !near_spec. lia.
Qed.

End OpenDeliveries.

(** ** Periodic grids: the contents of the cells *)

(** The cells of a constructed periodic grid: an interior cell holds the
    particles that map to it; a ghost cell holds the shifted copies of the
    particles that map to the interior cell it mirrors. *)
Lemma periodic_grid_cells (ndebug : bool) (ps : ParticleList)
  (mm : array3 Float32.t * array3 Float32.t) (g : Grid) :
  ps <> [] -> Grid_from_bounds PeriodicBoundaries ndebug ps mm = Ok g ->
  let n := number_of_cells_ g in
  periodic_frame g /\
  forall x y z, in_grid n x y z ->
    cell g (make_index g x y z) =
      if is_ghost_cell g x y z
      then map (shift_particle (ghost_shift g (box_length mm.1 mm.2) x y z))
               (filter (fun p => home_cell PeriodicBoundaries g p
                                 = mirror_index n x y z) ps)
      else filter (fun p => home_cell PeriodicBoundaries g p = make_index g x y z) ps.
Proof.
  intros Hne Hg n.
  pose proof (Grid_from_bounds_Ok _ _ _ _ _ Hg) as (n' & f & Hr & g1 & Hplace & Hfill).
  pose proof (resolve_geometry_bounds _ _ _ _ _ (nonempty_count ps Hne) Hr)
    as (Hb0 & Hb1 & Hb2).
  set (g0 := allocate mm.1 f (add_ghost_layers n')) in *.
  assert (Hp0 : periodic_frame g0) by (apply add_ghost_layers_frame; lia).
  pose proof (place_particles_Ok _ _ _ _ _ Hplace) as (Hsf01 & _ & _).
  assert (Hp1 : periodic_frame g1) by (eapply same_frame_periodic; eauto).
  destruct (fill_ghost_cells_spec (box_length mm.1 mm.2) g1 Hp1)
    as (g' & Hfill' & Hsf1 & Hcells).
  rewrite Hfill in Hfill'. injection Hfill' as <-.
  assert (Hsf0 : same_frame g0 g) by (eapply same_frame_trans; eauto).
  split; [eapply same_frame_periodic; eauto |].
  pose proof Hsf1 as (_ & _ & Hn1 & _).
  pose proof Hsf0 as (_ & _ & Hn0 & _).
  assert (Hcount : forall j, 0 <= j < cell_count (number_of_cells_ g1) ->
            cell g1 j = filter (fun p => home_cell PeriodicBoundaries g p = j) ps).
  { intros j Hj.
    rewrite (placed_cell PeriodicBoundaries ndebug mm.1 f (add_ghost_layers n') ps g1 j Hplace).
    - apply filter_home_ext. exact Hsf0.
    - destruct Hsf01 as (_ & _ & Hn01 & _). rewrite Hn01 in Hj. exact Hj. }
  destruct Hp1 as (H0 & H1 & H2 & _).
  intros x y z Hin.
  assert (Hin1 : in_grid (number_of_cells_ g1) x y z)
    by (unfold n in Hin; rewrite Hn1 in Hin; exact Hin).
  destruct (same_frame_ghost g1 g (box_length mm.1 mm.2) x y z Hsf1) as (Eg & Es & Ei).
  unfold ghost_shift. rewrite Eg, Es, Ei. unfold n. rewrite Hn1.
  rewrite (Hcells x y z Hin1). unfold ghost_shift.
  destruct (is_ghost_cell g1 x y z).
  - rewrite Hcount by (apply mirror_index_range; assumption). reflexivity.
  - apply Hcount. apply make_index_n_range. exact Hin1.
Qed.

Lemma Grid_from_bounds_periodic (ndebug : bool) (ps : ParticleList)
  (mm : array3 Float32.t * array3 Float32.t) (g : Grid) :
  ps <> [] -> NoDup (map id ps) ->
  Grid_from_bounds PeriodicBoundaries ndebug ps mm = Ok g ->
  periodic_bucketed g ps.
Proof.
  intros Hne Hids Hg.
  destruct (periodic_grid_cells ndebug ps mm g Hne Hg) as (Hp & Hcells).
  split; [exact Hp |].
  intros x y z p Hin Hpin. rewrite (Hcells x y z Hin).
  destruct (is_ghost_cell g x y z) eqn:Eg.
  - rewrite has_id_shift. apply has_id_bucket; assumption.
  - rewrite has_id_bucket by assumption.
    assert (Hng : ~ (x = 0 \/ x = at0 (number_of_cells_ g) - 1 \/
                     y = 0 \/ y = at1 (number_of_cells_ g) - 1 \/
                     z = at2 (number_of_cells_ g) - 1)).
    { intros H. apply is_ghost_cell_spec in H. congruence. }
    destruct (wrap_not_ghost x y z _ _ _ Hng) as (Ex & Ey & Ez);
      [unfold in_grid in Hin; lia |].
    unfold mirror_index. rewrite Ex, Ey, Ez. reflexivity.
Qed.

(** ** Periodic grids: which callbacks deliver a pair *)

Lemma wrap_xy_interior (m x : Z) : 1 <= x <= m - 2 -> wrap_xy m x = x.
Proof.
  intros H. unfold wrap_xy.
  destruct (Z.eqb_spec x 0); destruct (Z.eqb_spec x (m - 1)); lia.
Qed.

Lemma wrap_z_interior (m z : Z) : 0 <= z <= m - 2 -> wrap_z m z = z.
Proof.
  intros H. unfold wrap_z.
  destruct (Z.eqb_spec z (m - 1)); destruct (Z.eqb_spec z (-1)); lia.
Qed.

(** Wrapping is symmetric: if an offset leads from one interior coordinate to
    another, the opposite offset leads back. *)
Lemma wrap_xy_sym (m x x' d : Z) :
  1 <= x <= m - 2 -> 1 <= x' <= m - 2 -> -1 <= d <= 1 ->
  wrap_xy m (x + d) = x' -> wrap_xy m (x' - d) = x.
Proof.
  unfold wrap_xy. intros Hx Hx' Hd.
  destruct (Z.eqb_spec (x + d) 0); destruct (Z.eqb_spec (x + d) (m - 1));
    destruct (Z.eqb_spec (x' - d) 0); destruct (Z.eqb_spec (x' - d) (m - 1)); lia.
Qed.

Lemma wrap_z_sym (m z z' d : Z) :
  0 <= z <= m - 2 -> 0 <= z' <= m - 2 -> -1 <= d <= 1 ->
  wrap_z m (z + d) = z' -> wrap_z m (z' - d) = z.
Proof.
  unfold wrap_z. intros Hz Hz' Hd.
  destruct (Z.eqb_spec (z + d) (m - 1)); destruct (Z.eqb_spec (z + d) (-1));
    destruct (Z.eqb_spec (z' - d) (m - 1)); destruct (Z.eqb_spec (z' - d) (-1)); lia.
Qed.

(** With at least three interior cells on the axis, two offsets that lead
    there and back are opposite. *)
Lemma wrap_xy_thick (m x x' d d' : Z) :
  5 <= m -> 1 <= x <= m - 2 -> 1 <= x' <= m - 2 ->
  -1 <= d <= 1 -> -1 <= d' <= 1 ->
  wrap_xy m (x + d) = x' -> wrap_xy m (x' + d') = x -> d + d' = 0.
Proof.
  unfold wrap_xy. intros Hm Hx Hx' Hd Hd'.
  destruct (Z.eqb_spec (x + d) 0); destruct (Z.eqb_spec (x + d) (m - 1));
    destruct (Z.eqb_spec (x' + d') 0); destruct (Z.eqb_spec (x' + d') (m - 1)); lia.
Qed.

Lemma wrap_z_thick (m z z' d d' : Z) :
  4 <= m -> 0 <= z <= m - 2 -> 0 <= z' <= m - 2 ->
  -1 <= d <= 1 -> -1 <= d' <= 1 ->
  wrap_z m (z + d) = z' -> wrap_z m (z' + d') = z -> d + d' = 0.
Proof.
  unfold wrap_z. intros Hm Hz Hz' Hd Hd'.
  destruct (Z.eqb_spec (z + d) (m - 1)); destruct (Z.eqb_spec (z + d) (-1));
    destruct (Z.eqb_spec (z' + d') (m - 1)); destruct (Z.eqb_spec (z' + d') (-1)); lia.
Qed.

Lemma elem_of_offsets3 (dx dy dz : Z) :
  (dx, dy, dz) ∈ offsets3 <-> -1 <= dx <= 1 /\ -1 <= dy <= 1 /\ -1 <= dz <= 1.
Proof.
  split.
  - intros H. cbv in H.
    repeat (apply elem_of_cons in H as [H | H]; [injection H as -> -> ->; lia |]).
    inversion H.
  - intros (Hx & Hy & Hz).
    assert (Ex : dx = -1 \/ dx = 0 \/ dx = 1) by lia.
    assert (Ey : dy = -1 \/ dy = 0 \/ dy = 1) by lia.
    assert (Ez : dz = -1 \/ dz = 0 \/ dz = 1) by lia.
    apply list_elem_of_In.
    destruct Ex as [-> | [-> | ->]]; destruct Ey as [-> | [-> | ->]];
      destruct Ez as [-> | [-> | ->]]; cbv;
      repeat (first [left; reflexivity | right]).
Qed.

Section PeriodicDeliveries.
Variable g : Grid.
Variable ps : ParticleList.
Variables pa pb : ParticleData.
Hypothesis Hper : periodic_bucketed g ps.
Hypothesis Hpa : pa ∈ ps.
Hypothesis Hpb : pb ∈ ps.

Let n := number_of_cells_ g.
Let ia := home_cell PeriodicBoundaries g pa.
Let ib := home_cell PeriodicBoundaries g pb.

Variables xa ya za xb yb zb : Z.
Hypothesis Hina : 1 <= xa <= at0 n - 2 /\ 1 <= ya <= at1 n - 2 /\ 0 <= za <= at2 n - 2.
Hypothesis Hinb : 1 <= xb <= at0 n - 2 /\ 1 <= yb <= at1 n - 2 /\ 0 <= zb <= at2 n - 2.
Hypothesis Ea : make_index_n n xa ya za = ia.
Hypothesis Eb : make_index_n n xb yb zb = ib.

Lemma interior_index_eq (x y z x' y' z' : Z) :
  in_grid n x y z -> in_grid n x' y' z' ->
  (make_index_n n x' y' z' = make_index_n n x y z <-> (x, y, z) = (x', y', z')).
Proof.
  intros H H'. split.
  - intros E. apply make_index_n_inj in E as (-> & -> & ->);
      [reflexivity | assumption | assumption].
  - intros E. injection E as -> -> ->. reflexivity.
Qed.

(** The callback of the interior cell (x, y, z) delivers the pair exactly
    when it is the cell of both particles, or the cell of one of them with a
    forward offset that leads to the cell of the other or to a ghost of it. *)
Lemma periodic_delivers (x y z : Z) :
  1 <= x <= at0 n - 2 -> 1 <= y <= at1 n - 2 -> 0 <= z <= at2 n - 2 ->
  (delivers (id pa) (id pb) (call_of g (periodic_args g (x, y, z))) = true <->
   ((x, y, z) = (xa, ya, za) /\ (x, y, z) = (xb, yb, zb)) \/
   ((x, y, z) = (xa, ya, za) /\ reach n x y z xb yb zb) \/
   ((x, y, z) = (xb, yb, zb) /\ reach n x y z xa ya za)).
Proof.
  intros Hx Hy Hz.
  destruct Hper as ((H0 & H1 & H2 & _) & Hholds). fold n in H0, H1, H2, Hholds.
  assert (Hin : in_grid n x y z) by (unfold in_grid; lia).
  assert (Hina' : in_grid n xa ya za) by (unfold in_grid; lia).
  assert (Hinb' : in_grid n xb yb zb) by (unfold in_grid; lia).
  assert (Hhome : forall p x' y' z',
            p ∈ ps -> in_grid n x' y' z' ->
            make_index_n n x' y' z' = home_cell PeriodicBoundaries g p ->
            (has_id (id p) (cell g (make_index g x y z)) = true <->
             (x, y, z) = (x', y', z'))).
  { intros p x' y' z' Hp Hin' E. rewrite (Hholds x y z p Hin Hp), <- E.
    unfold mirror_index.
    rewrite !wrap_xy_interior, wrap_z_interior by lia.
    apply interior_index_eq; assumption. }
  assert (Hnbr : forall p x' y' z',
            p ∈ ps -> in_grid n x' y' z' ->
            make_index_n n x' y' z' = home_cell PeriodicBoundaries g p ->
            ((exists j,
                j ∈ neighbor_indices g (make_index g x y z) [-1; 0; 1] [-1; 0; 1] [0; 1]
                /\ has_id (id p) (cell g j) = true) <->
             reach n x y z x' y' z')).
  { intros p x' y' z' Hp Hin' E. split.
    - intros (j & Hj & Hh).
      apply (periodic_neighbors g x y z j Hx Hy Hz) in Hj
        as (dx & dy & dz & Hdx & Hdy & Hf & ->).
      assert (Hin2 : in_grid n (x + dx) (y + dy) (z + dz))
        by (unfold in_grid, forward in *; lia).
      apply (Hholds _ _ _ p Hin2 Hp) in Hh. rewrite <- E in Hh.
      unfold mirror_index in Hh.
      pose proof (wrap_interior n _ _ _ H0 H1 H2 Hin2) as Hw.
      apply make_index_n_inj in Hh as (E1 & E2 & E3);
        [| assumption | unfold in_grid; lia].
      exists dx, dy, dz. auto 10.
    - intros (dx & dy & dz & Hdx & Hdy & Hf & E1 & E2 & E3).
      exists (make_index g (x + dx) (y + dy) (z + dz)). split.
      + apply (periodic_neighbors g x y z _ Hx Hy Hz). exists dx, dy, dz. auto.
      + assert (Hin2 : in_grid n (x + dx) (y + dy) (z + dz))
          by (unfold in_grid, forward in *; lia).
        apply (Hholds _ _ _ p Hin2 Hp). rewrite <- E.
        unfold mirror_index. rewrite E1, E2, E3. reflexivity. }
  rewrite delivers_call_of. unfold periodic_args. cbn [fst snd].
  rewrite (Hhome pa xa ya za Hpa Hina' Ea), (Hhome pb xb yb zb Hpb Hinb' Eb).
  rewrite (Hnbr pa xa ya za Hpa Hina' Ea), (Hnbr pb xb yb zb Hpb Hinb' Eb).
  reflexivity.
Qed.

Lemma periodic_adjacent_spec :
  periodic_adjacent n ia ib = true <->
  exists dx dy dz,
    -1 <= dx <= 1 /\ -1 <= dy <= 1 /\ -1 <= dz <= 1 /\
    wrap_xy (at0 n) (xa + dx) = xb /\ wrap_xy (at1 n) (ya + dy) = yb /\
    wrap_z (at2 n) (za + dz) = zb.
Proof.
  unfold periodic_adjacent. rewrite <- Ea, <- Eb.
  rewrite !cell_coords_make_index by (unfold in_grid; lia).
  rewrite existsb_exists. split.
  - intros ([[dx dy] dz] & Hin & H).
    apply list_elem_of_In, elem_of_offsets3 in Hin.
    apply andb_true_iff in H as [H H3]. apply andb_true_iff in H as [H1 H2].
    apply Z.eqb_eq in H1, H2, H3. exists dx, dy, dz. tauto.
  - intros (dx & dy & dz & Hx & Hy & Hz & E1 & E2 & E3).
    exists (dx, dy, dz). split.
    + apply list_elem_of_In, elem_of_offsets3. auto.
    + rewrite !andb_true_iff, !Z.eqb_eq. auto.
Qed.

(** Two interior cells touch across the wrap exactly when they are the same
    cell or a forward offset leads from one to the other. *)
Lemma periodic_adjacent_reach :
  periodic_adjacent n ia ib = true <->
  (xa, ya, za) = (xb, yb, zb) \/ reach n xa ya za xb yb zb \/
  reach n xb yb zb xa ya za.
Proof.
  rewrite periodic_adjacent_spec. split.
  - intros (dx & dy & dz & Hx & Hy & Hz & E1 & E2 & E3).
    destruct (Z.eq_dec dz 1) as [-> | Hz1].
    { right. left. exists dx, dy, 1. unfold forward. auto 10. }
    destruct (Z.eq_dec dz (-1)) as [-> | Hz2].
    { right. right. exists (- dx), (- dy), 1. unfold forward.
      repeat split; try lia.
      - apply (wrap_xy_sym _ xa xb dx); lia || assumption.
      - apply (wrap_xy_sym _ ya yb dy); lia || assumption.
      - apply (wrap_z_sym _ za zb (-1)); lia || assumption. }
    assert (dz = 0) by lia. subst dz.
    destruct (Z.eq_dec dy 1) as [-> | Hy1].
    { right. left. exists dx, 1, 0. unfold forward. auto 10. }
    destruct (Z.eq_dec dy (-1)) as [-> | Hy2].
    { right. right. exists (- dx), 1, 0. unfold forward.
      repeat split; try lia.
      - apply (wrap_xy_sym _ xa xb dx); lia || assumption.
      - apply (wrap_xy_sym _ ya yb (-1)); lia || assumption.
      - apply (wrap_z_sym _ za zb 0); lia || assumption. }
    assert (dy = 0) by lia. subst dy.
    destruct (Z.eq_dec dx 1) as [-> | Hx1].
    { right. left. exists 1, 0, 0. unfold forward. auto 10. }
    destruct (Z.eq_dec dx (-1)) as [-> | Hx2].
    { right. right. exists 1, 0, 0. unfold forward.
      repeat split; try lia.
      - apply (wrap_xy_sym _ xa xb (-1)); lia || assumption.
      - apply (wrap_xy_sym _ ya yb 0); lia || assumption.
      - apply (wrap_z_sym _ za zb 0); lia || assumption. }
    assert (dx = 0) by lia. subst dx.
    left. rewrite !Z.add_0_r in E1, E2, E3.
    rewrite wrap_xy_interior in E1, E2 by lia. rewrite wrap_z_interior in E3 by lia.
    congruence.
  - intros [E | [(dx & dy & dz & Hx & Hy & Hf & E1 & E2 & E3)
               | (dx & dy & dz & Hx & Hy & Hf & E1 & E2 & E3)]].
    + injection E as <- <- <-. exists 0, 0, 0. rewrite !Z.add_0_r.
      rewrite !wrap_xy_interior, wrap_z_interior by lia. repeat split; lia.
    + exists dx, dy, dz. unfold forward in Hf. repeat split; try lia; assumption.
    + exists (- dx), (- dy), (- dz). unfold forward in Hf.
      repeat split; try lia.
      * apply (wrap_xy_sym _ xb xa dx); lia || assumption.
      * apply (wrap_xy_sym _ yb ya dy); lia || assumption.
      * apply (wrap_z_sym _ zb za dz); lia || assumption.
Qed.

Lemma reach_forward_only (x y z x' y' z' : Z) :
  5 <= at0 n -> 5 <= at1 n -> 4 <= at2 n ->
  1 <= x <= at0 n - 2 /\ 1 <= y <= at1 n - 2 /\ 0 <= z <= at2 n - 2 ->
  1 <= x' <= at0 n - 2 /\ 1 <= y' <= at1 n - 2 /\ 0 <= z' <= at2 n - 2 ->
  reach n x y z x' y' z' ->
  (x, y, z) <> (x', y', z') /\ ~ reach n x' y' z' x y z.
Proof.
  intros H0 H1 H2 Hi Hi' (dx & dy & dz & Hx & Hy & Hf & E1 & E2 & E3).
  unfold forward in Hf. split.
  - intros E. injection E as <- <- <-.
    pose proof (wrap_xy_thick _ x x dx 0 H0 ltac:(lia) ltac:(lia) Hx ltac:(lia) E1) as Dx.
    pose proof (wrap_xy_thick _ y y dy 0 H1 ltac:(lia) ltac:(lia) Hy ltac:(lia) E2) as Dy.
    pose proof (wrap_z_thick _ z z dz 0 H2 ltac:(lia) ltac:(lia) ltac:(lia) ltac:(lia) E3) as Dz.
    rewrite !Z.add_0_r in Dx, Dy, Dz.
    rewrite wrap_xy_interior in Dx, Dy by lia. rewrite wrap_z_interior in Dz by lia.
    lia.
  - intros (dx' & dy' & dz' & Hx' & Hy' & Hf' & E1' & E2' & E3').
    unfold forward in Hf'.
    pose proof (wrap_xy_thick _ x x' dx dx' H0 ltac:(lia) ltac:(lia) Hx Hx' E1 E1').
    pose proof (wrap_xy_thick _ y y' dy dy' H1 ltac:(lia) ltac:(lia) Hy Hy' E2 E2').
    pose proof (wrap_z_thick _ z z' dz dz' H2 ltac:(lia) ltac:(lia)
                  ltac:(lia) ltac:(lia) E3 E3').
    lia.
Qed.

Let periodic_calls : list Call :=
  map (fun t => call_of g (periodic_args g t)) (interior_cells n).

(** In any periodic grid, a pair whose interior cells touch across the wrap
    is delivered by at least one callback, and a pair whose cells do not
    touch by none. *)
Lemma periodic_deliveries_any :
  (periodic_adjacent n ia ib = true ->
   (1 <= deliveries (id pa) (id pb) periodic_calls)%nat) /\
  (periodic_adjacent n ia ib = false ->
   deliveries (id pa) (id pb) periodic_calls = 0%nat).
Proof.
  unfold deliveries, periodic_calls. split.
  - intros H. apply periodic_adjacent_reach in H as [E | [H | H]].
    + apply (count_map_some _ _ _ (xa, ya, za)).
      * apply elem_of_interior_cells. exact Hina.
      * apply periodic_delivers; try lia. left. auto.
    + apply (count_map_some _ _ _ (xa, ya, za)).
      * apply elem_of_interior_cells. exact Hina.
      * apply periodic_delivers; try lia. right. left. auto.
    + apply (count_map_some _ _ _ (xb, yb, zb)).
      * apply elem_of_interior_cells. exact Hinb.
      * apply periodic_delivers; try lia. right. right. auto.
  - intros H. apply count_map_none. intros [[x y] z] Ht.
    apply elem_of_interior_cells in Ht as (Hx & Hy & Hz).
    destruct (delivers (id pa) (id pb) (call_of g (periodic_args g (x, y, z)))) eqn:E;
      [| reflexivity].
    apply (periodic_delivers x y z Hx Hy Hz) in E.
    assert (periodic_adjacent n ia ib = true); [| congruence].
    apply periodic_adjacent_reach.
    destruct E as [[E1 E2] | [[E1 E2] | [E1 E2]]].
    + left. congruence.
    + right. left. injection E1 as <- <- <-. exact E2.
    + right. right. injection E1 as <- <- <-. exact E2.
Qed.

(** With at least three interior cells on every axis, a pair whose interior
    cells touch across the wrap is delivered by exactly one callback. *)
Lemma periodic_deliveries_thick :
  5 <= at0 n -> 5 <= at1 n -> 4 <= at2 n ->
  deliveries (id pa) (id pb) periodic_calls =
    if periodic_adjacent n ia ib then 1%nat else 0%nat.
Proof.
  intros H0 H1 H2.
  destruct (periodic_adjacent n ia ib) eqn:Eadj;
    [| apply periodic_deliveries_any; exact Eadj].
  unfold deliveries, periodic_calls.
  apply periodic_adjacent_reach in Eadj as [E | [H | H]].
  - apply (count_map_unique _ _ _ (xa, ya, za));
      [apply NoDup_interior_cells | apply elem_of_interior_cells; exact Hina |].
    intros [[x y] z] Ht. apply elem_of_interior_cells in Ht as (Hx & Hy & Hz).
    rewrite (periodic_delivers x y z Hx Hy Hz). rewrite <- E. tauto.
  - destruct (reach_forward_only _ _ _ _ _ _ H0 H1 H2 Hina Hinb H) as [Hne Hnot].
    apply (count_map_unique _ _ _ (xa, ya, za));
      [apply NoDup_interior_cells | apply elem_of_interior_cells; exact Hina |].
    intros [[x y] z] Ht. apply elem_of_interior_cells in Ht as (Hx & Hy & Hz).
    rewrite (periodic_delivers x y z Hx Hy Hz). split.
    + intros [[E1 E2] | [[E1 E2] | [E1 E2]]]; [exact E1 | exact E1 |].
      exfalso. apply Hnot. injection E1 as <- <- <-. exact E2.
    + intros E. right. left. split; [exact E |]. injection E as -> -> ->. exact H.
  - destruct (reach_forward_only _ _ _ _ _ _ H0 H1 H2 Hinb Hina H) as [Hne Hnot].
    apply (count_map_unique _ _ _ (xb, yb, zb));
      [apply NoDup_interior_cells | apply elem_of_interior_cells; exact Hinb |].
    intros [[x y] z] Ht. apply elem_of_interior_cells in Ht as (Hx & Hy & Hz).
    rewrite (periodic_delivers x y z Hx Hy Hz). split.
    + intros [[E1 E2] | [[E1 E2] | [E1 E2]]]; [exact E2 | | exact E1].
      exfalso. apply Hnot. injection E1 as <- <- <-. exact E2.
    + intros E. right. right. split; [exact E |]. injection E as -> -> ->. exact H.
Qed.

End PeriodicDeliveries.

Lemma interior_decode (n : array3 Z) (i : Z) :
  0 < at0 n -> 0 < at1 n -> interior n i = true ->
  exists x y z,
    (1 <= x <= at0 n - 2 /\ 1 <= y <= at1 n - 2 /\ 0 <= z <= at2 n - 2) /\
    make_index_n n x y z = i.
Proof.
  unfold interior, cell_coords, make_index_n. intros H0 H1 H.
  rewrite !andb_true_iff, !Z.leb_le in H.
  exists (i mod at0 n), ((i / at0 n) mod at1 n), (i / (at0 n * at1 n)).
  split; [lia |].
  pose proof (Z.div_mod i (at0 n) ltac:(lia)) as Ex.
  pose proof (Z.div_mod (i / at0 n) (at1 n) ltac:(lia)) as Ey.
  rewrite <- Z.div_div by lia.
  set (q := i / at0 n) in *. set (z := q / at1 n) in *. lia.
Qed.

(** A particle that was placed outside the interior is in no cell of the
    finished periodic grid. *)
Lemma periodic_not_held (g : Grid) (ps : ParticleList) (p : ParticleData)
  (x y z : Z) :
  periodic_bucketed g ps -> p ∈ ps ->
  interior (number_of_cells_ g) (home_cell PeriodicBoundaries g p) = false ->
  in_grid (number_of_cells_ g) x y z ->
  has_id (id p) (cell g (make_index g x y z)) = false.
Proof.
  intros ((H0 & H1 & H2 & _) & Hholds) Hp Hint Hin.
  destruct (has_id (id p) (cell g (make_index g x y z))) eqn:E; [| reflexivity].
  apply (Hholds x y z p Hin Hp) in E. rewrite E in Hint.
  pose proof (wrap_interior _ _ _ _ H0 H1 H2 Hin) as Hw.
  unfold interior, mirror_index in Hint.
  rewrite cell_coords_make_index in Hint by (unfold in_grid; lia).
  assert (Ht : (1 <=? wrap_xy (at0 (number_of_cells_ g)) x) &&
               (wrap_xy (at0 (number_of_cells_ g)) x <=? at0 (number_of_cells_ g) - 2) &&
               (1 <=? wrap_xy (at1 (number_of_cells_ g)) y) &&
               (wrap_xy (at1 (number_of_cells_ g)) y <=? at1 (number_of_cells_ g) - 2) &&
               (0 <=? wrap_z (at2 (number_of_cells_ g)) z) &&
               (wrap_z (at2 (number_of_cells_ g)) z <=? at2 (number_of_cells_ g) - 2)
               = true)
    by (rewrite !andb_true_iff, !Z.leb_le; lia).
  congruence.
Qed.

Lemma periodic_deliveries_dropped (g : Grid) (ps : ParticleList)
  (pa pb : ParticleData) :
  periodic_bucketed g ps -> pa ∈ ps -> pb ∈ ps ->
  interior (number_of_cells_ g) (home_cell PeriodicBoundaries g pa) = false \/
  interior (number_of_cells_ g) (home_cell PeriodicBoundaries g pb) = false ->
  deliveries (id pa) (id pb)
    (map (fun t => call_of g (periodic_args g t))
         (interior_cells (number_of_cells_ g))) = 0%nat.
Proof.
  intros Hper Hpa Hpb Hint. unfold deliveries. apply count_map_none.
  intros [[x y] z] Ht. apply elem_of_interior_cells in Ht as (Hx & Hy & Hz).
  destruct (delivers (id pa) (id pb) (call_of g (periodic_args g (x, y, z)))) eqn:E;
    [| reflexivity].
  exfalso. apply delivers_call_of in E. unfold periodic_args in E. cbn [fst snd] in E.
  assert (Hin : in_grid (number_of_cells_ g) x y z) by (unfold in_grid; lia).
  assert (Hnone : forall p,
            p ∈ ps ->
            interior (number_of_cells_ g) (home_cell PeriodicBoundaries g p) = false ->
            has_id (id p) (cell g (make_index g x y z)) = false /\
            forall j,
              j ∈ neighbor_indices g (make_index g x y z) [-1; 0; 1] [-1; 0; 1] [0; 1] ->
              has_id (id p) (cell g j) = false).
  { intros p Hp Hi. split.
    - apply (periodic_not_held g ps p x y z Hper Hp Hi Hin).
    - intros j Hj. apply (periodic_neighbors g x y z j Hx Hy Hz) in Hj
        as (dx & dy & dz & Hdx & Hdy & Hf & ->).
      apply (periodic_not_held g ps p _ _ _ Hper Hp Hi).
      unfold in_grid, forward in *. lia. }
  destruct Hint as [Hi | Hi].
  - destruct (Hnone pa Hpa Hi) as [N1 N2].
    destruct E as [[E1 _] | [[E1 _] | [_ (j & Hj & E2)]]];
      [congruence | congruence | rewrite (N2 j Hj) in E2; discriminate E2].
  - destruct (Hnone pb Hpb Hi) as [N1 N2].
    destruct E as [[_ E1] | [[_ (j & Hj & E2)] | [E1 _]]];
      [congruence | rewrite (N2 j Hj) in E2; discriminate E2 | congruence].
Qed.

Lemma elem_of_nonempty {A : Type} (x : A) (l : list A) : x ∈ l -> l <> [].
Proof. intros H E. rewrite E in H. inversion H. Qed.

Lemma dilute_deliveries (ps : ParticleList) (pa pb : ParticleData) :
  pa ∈ ps -> pb ∈ ps -> deliveries (id pa) (id pb) [mkCall 0 ps []] = 1%nat.
Proof.
  intros Hpa Hpb. unfold deliveries, delivers. simpl.
  assert (Ha : has_id (id pa) ps = true) by (apply has_id_spec; eauto).
  assert (Hb : has_id (id pb) ps = true) by (apply has_id_spec; eauto).
  rewrite Ha, Hb. reflexivity.
Qed.

(** ** Coverage and duplication *)

(** The traversal of a constructed grid returns, and a pair of particles of
    the collection is delivered as follows: in the dilute limit by the one
    callback; in an open grid once if the cells of the pair touch and never
    otherwise; in a periodic grid, for particles in interior cells, at least
    once if their cells touch across the wrap, never otherwise, and exactly
    once when every axis has three interior cells or more; a particle that
    was placed in a ghost cell is never delivered. *)
Lemma traversal_deliveries (opt : GridOptions) (ndebug : bool)
  (ps : ParticleList) (mm : array3 Float32.t * array3 Float32.t) (g : Grid)
  (pa pb : ParticleData) :
  NoDup (map id ps) -> Grid_from_bounds opt ndebug ps mm = Ok g ->
  pa ∈ ps -> pb ∈ ps ->
  exists n f calls,
    resolve_geometry (Z.of_nat (length ps)) mm.1 mm.2 = Ok (n, f) /\
    iterate_cells opt g = Ok calls /\
    let cells := number_of_cells_ g in
    let ia := home_cell opt g pa in
    let ib := home_cell opt g pb in
    let count := deliveries (id pa) (id pb) calls in
    match opt with
    | Normal =>
        if is_dilute n then calls = [mkCall 0 ps []] /\ count = 1%nat
        else count = if adjacent cells ia ib then 1%nat else 0%nat
    | PeriodicBoundaries =>
        (interior cells ia = false \/ interior cells ib = false -> count = 0%nat) /\
        (interior cells ia = true -> interior cells ib = true ->
         (periodic_adjacent cells ia ib = true -> (1 <= count)%nat) /\
         (periodic_adjacent cells ia ib = false -> count = 0%nat) /\
         (5 <= at0 cells -> 5 <= at1 cells -> 4 <= at2 cells ->
          count = if periodic_adjacent cells ia ib then 1%nat else 0%nat))
    end.
Proof.
  intros Hids Hg Hpa Hpb.
  pose proof (elem_of_nonempty pa ps Hpa) as Hne.
  pose proof (Grid_from_bounds_Ok _ _ _ _ _ Hg) as (n & f & Hr & Hshape).
  exists n, f. destruct opt.
  - destruct (is_dilute n) eqn:Ed.
    + subst g. exists [mkCall 0 ps []].
      split; [exact Hr |]. split; [reflexivity |].
      cbv zeta. split; [reflexivity | apply dilute_deliveries; assumption].
    + destruct (Grid_from_bounds_open ndebug ps mm g n f Hne Hg Hr Ed) as (Hn & Hopen).
      pose proof Hopen as ((H0 & H1 & H2) & Hlen & _).
      eexists. split; [exact Hr |].
      split; [apply iterate_cells_normal; assumption |].
      cbv zeta. apply (open_deliveries g ps pa pb Hopen Hids Hpa Hpb).
  - pose proof (Grid_from_bounds_periodic ndebug ps mm g Hne Hids Hg) as Hper.
    pose proof Hper as ((H0 & H1 & H2 & Hlen) & _).
    eexists. split; [exact Hr |].
    split; [apply iterate_cells_periodic; exact Hlen |].
    cbv zeta. split.
    + apply (periodic_deliveries_dropped g ps pa pb Hper Hpa Hpb).
    + intros Hia Hib.
      assert (P0 : 0 < at0 (number_of_cells_ g)) by lia.
      assert (P1 : 0 < at1 (number_of_cells_ g)) by lia.
      destruct (interior_decode _ _ P0 P1 Hia) as (xa & ya & za & Hina & Ea).
      destruct (interior_decode _ _ P0 P1 Hib) as (xb & yb & zb & Hinb & Eb).
      pose proof (periodic_deliveries_any g ps pa pb Hper Hpa Hpb
                    xa ya za xb yb zb Hina Hinb Ea Eb) as [Hany1 Hany2].
      split; [exact Hany1 |]. split; [exact Hany2 |].
      apply (periodic_deliveries_thick g ps pa pb Hper Hpa Hpb
               xa ya za xb yb zb Hina Hinb Ea Eb).
Qed.


(** C2 -- No duplication, as the code has it.  For a particle set with
    distinct ids and every pair of its particles, counting a ghost copy as the
    particle it copies: in open mode the pair is delivered together in at most
    one callback; in periodic mode the same holds when every axis has at least
    three interior cells. *)
Theorem no_duplicate_delivery (opt : GridOptions) (ndebug : bool)
  (ps : ParticleList) (mm : array3 Float32.t * array3 Float32.t) (g : Grid)
  (pa pb : ParticleData) :
  NoDup (map id ps) -> Grid_from_bounds opt ndebug ps mm = Ok g ->
  pa ∈ ps -> pb ∈ ps ->
  (opt = PeriodicBoundaries ->
   5 <= at0 (number_of_cells_ g) /\ 5 <= at1 (number_of_cells_ g) /\
   4 <= at2 (number_of_cells_ g)) ->
  exists calls,
    iterate_cells opt g = Ok calls /\
    (deliveries (id pa) (id pb) calls <= 1)%nat.
Proof.
  intros Hids Hg Hpa Hpb Hthick.
  destruct (traversal_deliveries opt ndebug ps mm g pa pb Hids Hg Hpa Hpb)
    as (n & f & calls & Hr & Hcalls & H).
  exists calls. split; [exact Hcalls |].
  cbv zeta in H. destruct opt.
  - destruct (is_dilute n).
    + destruct H as [_ ->]. lia.
    + rewrite H. destruct (adjacent _ _ _); lia.
  - destruct (Hthick eq_refl) as (T0 & T1 & T2). destruct H as (Hdrop & H).
    destruct (interior (number_of_cells_ g) (home_cell PeriodicBoundaries g pa)) eqn:Ea;
      [| rewrite Hdrop by (left; reflexivity); lia].
    destruct (interior (number_of_cells_ g) (home_cell PeriodicBoundaries g pb)) eqn:Eb;
      [| rewrite Hdrop by (right; reflexivity); lia].
    destruct (H eq_refl eq_refl) as (_ & _ & H3).
    rewrite (H3 T0 T1 T2). destruct (periodic_adjacent _ _ _); lia.
Qed.



Lemma no_duplicate_delivery_witness :
  let ps := periodic_box in
  let mm := bounds_of ps in
  let g := grid_of (Grid_from_bounds PeriodicBoundaries false ps mm) in
  let pa := particle_at 12 (Float64.of_int 0) (Float64.of_int 3) (Float64.of_int 3) in
  let pb := particle_at 13 (Float64.decimal 99 1) (Float64.of_int 3) (Float64.of_int 3) in
  NoDup (map id ps) /\ Grid_from_bounds PeriodicBoundaries false ps mm = Ok g /\
  pa ∈ ps /\ pb ∈ ps /\
  (5 <= at0 (number_of_cells_ g) /\ 5 <= at1 (number_of_cells_ g) /\
   4 <= at2 (number_of_cells_ g)) /\
  exists calls,
    iterate_cells PeriodicBoundaries g = Ok calls /\
    (deliveries (id pa) (id pb) calls <= 1)%nat.
Proof.
  intros ps mm g pa pb.
  assert (Hids : NoDup (map id ps))
    by (apply (bool_decide_unpack _); vm_compute; exact I).
  assert (Hg : Grid_from_bounds PeriodicBoundaries false ps mm = Ok g)
    by (vm_compute; reflexivity).
  assert (Hpa : pa ∈ ps)
    by (apply list_elem_of_lookup; exists 12%nat; vm_compute; reflexivity).
  assert (Hpb : pb ∈ ps)
    by (apply list_elem_of_lookup; exists 13%nat; vm_compute; reflexivity).
  assert (Hthick : 5 <= at0 (number_of_cells_ g) /\ 5 <= at1 (number_of_cells_ g) /\
                   4 <= at2 (number_of_cells_ g))
    by (vm_compute; repeat split; intros H; discriminate H).
  split; [exact Hids |]. split; [exact Hg |]. split; [exact Hpa |].
  split; [exact Hpb |]. split; [exact Hthick |].
  exact (no_duplicate_delivery PeriodicBoundaries false ps mm g pa pb Hids Hg Hpa Hpb
           (fun _ => Hthick)).
Defined.

(** C2, as stated, fails in periodic mode: [two_clusters] resolves to two
    interior cells on x; the particles 0 and 4 lie one in each, and they are
    delivered together twice: by the callback of the first cell, whose
    neighbour is the second, and by the callback of the second cell, whose
    neighbour is the ghost copy of the first. *)
Lemma duplicate_delivery_counterexample :
  let ps := two_clusters in
  let g := grid_of (Grid_from_particles PeriodicBoundaries false ps) in
  Grid_from_particles PeriodicBoundaries false ps = Ok g /\
  number_of_cells_ g = Arr3 4 3 2 /\
  NoDup (map id ps) /\
  home_cell PeriodicBoundaries g
    (particle_at 0 (Float64.of_int 0) Float64.zero Float64.zero) = make_index g 1 1 0 /\
  home_cell PeriodicBoundaries g
    (particle_at 4 (Float64.of_int 4) Float64.zero Float64.zero) = make_index g 2 1 0 /\
  exists c1 c2,
    iterate_cells PeriodicBoundaries g = Ok [c1; c2] /\
    delivers 0 4 c1 = true /\ delivers 0 4 c2 = true /\
    deliveries 0 4 [c1; c2] = 2%nat.
Proof.
  intros ps g.
  split; [vm_compute; reflexivity |].
  split; [vm_compute; reflexivity |].
  split; [apply (bool_decide_unpack _); vm_compute; exact I |].
  split; [vm_compute; reflexivity |].
  split; [vm_compute; reflexivity |].
  eexists. eexists. split; [vm_compute; reflexivity |].
  split; [vm_compute; reflexivity |]. split; vm_compute; reflexivity.
Qed.

(** ** Ghost consistency *)

Lemma ghost_shift_spec (g : Grid) (len : array3 Float32.t) (x y z : Z) :
  ghost_shift g len x y z = shift_of (number_of_cells_ g) len x y z.
Proof.
  unfold ghost_shift, ghost_source, shift_of.
  destruct (x =? 0); destruct (x =? at0 (number_of_cells_ g) - 1);
    destruct (y =? 0); destruct (y =? at1 (number_of_cells_ g) - 1);
    destruct (z =? at2 (number_of_cells_ g) - 1); reflexivity.
Qed.

Lemma map_id_shift (s : FourVector) (l : ParticleList) :
  map id (map (shift_particle s) l) = map id l.
Proof. rewrite map_map. apply map_ext. intros p. reflexivity. Qed.

Lemma interior_mirror_index (n : array3 Z) (x y z : Z) :
  3 <= at0 n -> 3 <= at1 n -> 2 <= at2 n -> in_grid n x y z ->
  interior n (mirror_index n x y z) = true.
Proof.
  intros H0 H1 H2 Hin.
  pose proof (wrap_interior n x y z H0 H1 H2 Hin) as Hw.
  unfold interior, mirror_index.
  rewrite cell_coords_make_index by (unfold in_grid; lia).
  rewrite !andb_true_iff, !Z.leb_le. lia.
Qed.

(** A ghost cell of a constructed periodic grid is the shifted copy of the
    interior cell it mirrors, as that cell is in the finished grid. *)
Lemma ghost_cell_copy (ndebug : bool) (ps : ParticleList)
  (mm : array3 Float32.t * array3 Float32.t) (g : Grid) (x y z : Z) :
  ps <> [] -> Grid_from_bounds PeriodicBoundaries ndebug ps mm = Ok g ->
  in_grid (number_of_cells_ g) x y z -> is_ghost_cell g x y z = true ->
  cell g (make_index g x y z) =
    map (shift_particle (shift_of (number_of_cells_ g) (box_length mm.1 mm.2) x y z))
        (cell g (mirror_index (number_of_cells_ g) x y z)).
Proof.
  intros Hne Hg Hin Hghost.
  destruct (periodic_grid_cells ndebug ps mm g Hne Hg) as ((H0 & H1 & H2 & _) & Hcells).
  rewrite (Hcells x y z Hin), Hghost, ghost_shift_spec. f_equal.
  pose proof (wrap_interior _ x y z H0 H1 H2 Hin) as Hw.
  set (n := number_of_cells_ g) in *.
  assert (Hin' : in_grid n (wrap_xy (at0 n) x) (wrap_xy (at1 n) y) (wrap_z (at2 n) z))
    by (unfold in_grid; lia).
  pose proof (Hcells _ _ _ Hin') as Hm.
  replace (is_ghost_cell g (wrap_xy (at0 n) x) (wrap_xy (at1 n) y) (wrap_z (at2 n) z))
    with false in Hm.
  - symmetry. exact Hm.
  - symmetry. unfold is_ghost_cell. fold n. rewrite !orb_false_iff, !Z.eqb_neq. lia.
Qed.

Lemma periodic_calls_forward (g : Grid) (c : Call) (nb : Z * ParticleList) :
  c ∈ map (fun t => call_of g (periodic_args g t))
          (interior_cells (number_of_cells_ g)) ->
  nb ∈ neighbors c -> home_index c < nb.1.
Proof.
  intros Hc Hnb. apply elem_of_map in Hc as ([[x y] z] & -> & _).
  unfold call_of, periodic_args in *. cbn [neighbors home_index] in *.
  apply elem_of_map in Hnb as (j & -> & Hj).
  apply elem_of_neighbor_indices in Hj as (dx & dy & dz & _ & _ & _ & _ & Hlt).
  exact Hlt.
Qed.

Lemma periodic_calls_right_ghost (g : Grid) (y z : Z) :
  let n := number_of_cells_ g in
  3 <= at0 n -> 1 <= y <= at1 n - 2 -> 0 <= z <= at2 n - 2 ->
  exists c,
    c ∈ map (fun t => call_of g (periodic_args g t)) (interior_cells n) /\
    home_index c = make_index g (at0 n - 2) y z /\
    (make_index g (at0 n - 1) y z, cell g (make_index g (at0 n - 1) y z))
      ∈ neighbors c.
Proof.
  intros n H0 Hy Hz.
  exists (call_of g (periodic_args g (at0 n - 2, y, z))). split; [| split].
  - apply elem_of_map. exists (at0 n - 2, y, z). split; [reflexivity |].
    apply elem_of_interior_cells. fold n. lia.
  - reflexivity.
  - unfold call_of, periodic_args. cbn [neighbors]. apply elem_of_map.
    exists (make_index g (at0 n - 1) y z). split; [reflexivity |].
    apply (periodic_neighbors g (at0 n - 2) y z); try (fold n; lia).
    exists 1, 0, 0. unfold forward. repeat split; try lia.
    f_equal; lia.
Qed.

(** C5 -- Ghost consistency, as the code has it.  In a constructed periodic
    grid every ghost cell is the copy of the interior cell it mirrors: the
    same particle identities in the same order, each position with the
    per-axis shift added in double arithmetic.  The traversal returns; every
    neighbour of a callback has a larger linear index than its home cell, so
    the x = 0 ghost cell of a row is never a neighbour of the leftmost interior
    cell of that row; the x = last ghost cell of a row is a neighbour of the
    rightmost interior cell of the row.  In the box of length 10 on x, the
    particle at x = 9.9 of the rightmost interior cell has its image, at the
    double 9.9 - 10, in the x = 0 ghost cell of its row; no neighbour of the
    leftmost interior cell of the row holds it; the two are delivered
    together once, by the callback of the rightmost interior cell, whose
    neighbour is the x = last ghost cell that holds the image at x = 10 of the
    particle at x = 0. *)
Theorem ghost_consistency :
  (forall (ndebug : bool) (ps : ParticleList)
          (mm : array3 Float32.t * array3 Float32.t) (g : Grid) (x y z : Z),
     ps <> [] -> Grid_from_bounds PeriodicBoundaries ndebug ps mm = Ok g ->
     in_grid (number_of_cells_ g) x y z -> is_ghost_cell g x y z = true ->
     let n := number_of_cells_ g in
     let mirror := mirror_index n x y z in
     let shift := shift_of n (box_length mm.1 mm.2) x y z in
     interior n mirror = true /\
     cell g (make_index g x y z) =
       map (fun p => set_4position p (FourVector_add (position p) shift))
           (cell g mirror) /\
     map id (cell g (make_index g x y z)) = map id (cell g mirror) /\
     exists calls,
       iterate_cells PeriodicBoundaries g = Ok calls /\
       (forall c nb, c ∈ calls -> nb ∈ neighbors c -> home_index c < nb.1) /\
       (forall y' z', 1 <= y' <= at1 n - 2 -> 0 <= z' <= at2 n - 2 ->
          exists c, c ∈ calls /\
            home_index c = make_index g (at0 n - 2) y' z' /\
            (make_index g (at0 n - 1) y' z',
             cell g (make_index g (at0 n - 1) y' z')) ∈ neighbors c)) /\
  (let ps := periodic_box in
   let mm := bounds_of ps in
   let g := grid_of (Grid_from_particles PeriodicBoundaries false ps) in
   let x_of (p : ParticleData) := (id p, x1 (position p)) in
   Grid_from_particles PeriodicBoundaries false ps = Ok g /\
   number_of_cells_ g = Arr3 5 5 4 /\
   at0 (box_length mm.1 mm.2) = Float32.of_int 10 /\
   map x_of (cell g (make_index g 3 2 1))
     = [(13, Float64.decimal 99 1); (14, Float64.of_int 10)] /\
   map x_of (cell g (make_index g 0 2 1))
     = [(13, Float64.sub (Float64.decimal 99 1) (Float64.of_int 10));
        (14, Float64.zero)] /\
   map x_of (cell g (make_index g 1 2 1)) = [(12, Float64.zero)] /\
   map x_of (cell g (make_index g 4 2 1)) = [(12, Float64.of_int 10)] /\
   exists calls c_left c_right,
     iterate_cells PeriodicBoundaries g = Ok calls /\
     calls !! 12%nat = Some c_left /\ calls !! 14%nat = Some c_right /\
     home_index c_left = make_index g 1 2 1 /\
     existsb (fun nb => has_id 13 nb.2) (neighbors c_left) = false /\
     home_index c_right = make_index g 3 2 1 /\
     existsb (fun nb => (nb.1 =? make_index g 4 2 1) && has_id 12 nb.2)
             (neighbors c_right) = true /\
     deliveries 12 13 calls = 1%nat).
Proof.
  split.
  - intros ndebug ps mm g x y z Hne Hg Hin Hghost n mirror shift.
    destruct (periodic_grid_cells ndebug ps mm g Hne Hg)
      as ((H0 & H1 & H2 & Hlen) & _). fold n in H0, H1, H2, Hlen.
    pose proof (ghost_cell_copy ndebug ps mm g x y z Hne Hg Hin Hghost) as Hcopy.
    fold n in Hcopy. fold shift in Hcopy. fold mirror in Hcopy.
    split; [apply interior_mirror_index; assumption |].
    split; [exact Hcopy |].
    split; [rewrite Hcopy; apply map_id_shift |].
    eexists. split; [apply iterate_cells_periodic; exact Hlen |]. split.
    + intros c nb Hc Hnb. apply (periodic_calls_forward g c nb Hc Hnb).
    + intros y' z' Hy Hz. apply (periodic_calls_right_ghost g y' z'); assumption.
  - intros ps mm g x_of.
    repeat (split; [vm_compute; reflexivity |]).
    eexists. eexists. eexists.
    split; [vm_compute; reflexivity |].
    repeat (split; [vm_compute; reflexivity |]).
    vm_compute; reflexivity.
Qed.

Lemma ghost_consistency_witness :
  let ps := periodic_box in
  let mm := bounds_of ps in
  let g := grid_of (Grid_from_bounds PeriodicBoundaries false ps mm) in
  let n := number_of_cells_ g in
  ps <> [] /\ Grid_from_bounds PeriodicBoundaries false ps mm = Ok g /\
  in_grid n 0 2 1 /\ is_ghost_cell g 0 2 1 = true /\
  interior n (mirror_index n 0 2 1) = true /\
  map id (cell g (make_index g 0 2 1)) = map id (cell g (mirror_index n 0 2 1)).
Proof.
  intros ps mm g n.
  assert (Hne : ps <> []) by (vm_compute; intros H; discriminate H).
  assert (Hg : Grid_from_bounds PeriodicBoundaries false ps mm = Ok g)
    by (vm_compute; reflexivity).
  assert (Hin : in_grid n 0 2 1) by (vm_compute; intuition discriminate).
  assert (Hghost : is_ghost_cell g 0 2 1 = true) by (vm_compute; reflexivity).
  destruct (proj1 ghost_consistency false ps mm g 0 2 1 Hne Hg Hin Hghost)
    as (Hint & _ & Hids & _).
  auto 10.
Defined.

(** C5, as stated, fails.  In the box of length 10 on x the image of the
    particle at x = 9.9 lies in the x = 0 ghost cell of its row, but that ghost
    cell is not among the neighbours of the leftmost interior cell of the row,
    nor does any neighbour of that cell hold the particle.  The image is at
    the double 9.9 - 10, which is not the double -0.1; and subtracting the
    shift from the ghost copy of a particle at x = 0.1 does not give back
    0.1. *)
Lemma ghost_consistency_counterexample :
  let ps := periodic_box in
  let mm := bounds_of ps in
  let g := grid_of (Grid_from_particles PeriodicBoundaries false ps) in
  let n := number_of_cells_ g in
  Grid_from_particles PeriodicBoundaries false ps = Ok g /\
  home_cell PeriodicBoundaries g
    (particle_at 13 (Float64.decimal 99 1) (Float64.of_int 3) (Float64.of_int 3))
    = make_index g (at0 n - 2) 2 1 /\
  has_id 13 (cell g (make_index g 0 2 1)) = true /\
  (exists calls c_left,
     iterate_cells PeriodicBoundaries g = Ok calls /\
     calls !! 12%nat = Some c_left /\
     home_index c_left = make_index g 1 2 1 /\
     ~ (exists nb, nb ∈ neighbors c_left /\ nb.1 = make_index g 0 2 1) /\
     ~ (exists nb, nb ∈ neighbors c_left /\ has_id 13 nb.2 = true)) /\
  Float64.sub (Float64.decimal 99 1) (Float64.of_int 10) <> Float64.decimal (-1) 1 /\
  (let shift := shift_of n (box_length mm.1 mm.2) 4 1 0 in
   is_ghost_cell g 4 1 0 = true /\
   map (fun p => x1 (FourVector_sub (position p) shift)) (cell g (make_index g 4 1 0))
   <> map (fun p => x1 (position p)) (cell g (mirror_index n 4 1 0))).
Proof.
  intros ps mm g n.
  split; [vm_compute; reflexivity |].
  split; [vm_compute; reflexivity |].
  split; [vm_compute; reflexivity |].
  split.
  { assert (H : exists calls c_left,
               iterate_cells PeriodicBoundaries g = Ok calls /\
               calls !! 12%nat = Some c_left /\
               home_index c_left = make_index g 1 2 1 /\
               existsb (fun nb => (nb.1 =? make_index g 0 2 1) || has_id 13 nb.2)
                       (neighbors c_left) = false).
    { eexists. eexists. split; [vm_compute; reflexivity |].
      split; [vm_compute; reflexivity |]. split; vm_compute; reflexivity. }
    destruct H as (calls & c_left & Hc & Hl & Hh & Hn).
    exists calls, c_left. split; [exact Hc |]. split; [exact Hl |].
    split; [exact Hh |].
    clearbody g. clear Hc Hl Hh.
    split; intros (nb & Hin & Hnb).
    - assert (E : existsb (fun nb => (nb.1 =? make_index g 0 2 1) || has_id 13 nb.2)
                          (neighbors c_left) = true).
      { apply existsb_exists. exists nb. split; [apply list_elem_of_In; exact Hin |].
        apply orb_true_iff. left. apply Z.eqb_eq. exact Hnb. }
      rewrite Hn in E. discriminate E.
    - assert (E : existsb (fun nb => (nb.1 =? make_index g 0 2 1) || has_id 13 nb.2)
                          (neighbors c_left) = true).
      { apply existsb_exists. exists nb. split; [apply list_elem_of_In; exact Hin |].
        apply orb_true_iff. right. exact Hnb. }
      rewrite Hn in E. discriminate E. }
  split.
  { assert (E1 : Float64.sub (Float64.decimal 99 1) (Float64.of_int 10)
                 = S754_finite true 7205759403792768 (-56)) by (vm_compute; reflexivity).
    assert (E2 : Float64.decimal (-1) 1 = S754_finite true 7205759403792794 (-56))
      by (vm_compute; reflexivity).
    rewrite E1, E2. intros H. discriminate H. }
  intros shift. split; [vm_compute; reflexivity |].
  assert (E1 : map (fun p => x1 (FourVector_sub (position p) shift))
                   (cell g (make_index g 4 1 0))
               = [S754_zero false; S754_finite false 7205759403792768 (-56)])
    by (vm_compute; reflexivity).
  assert (E2 : map (fun p => x1 (position p)) (cell g (mirror_index n 4 1 0))
               = [S754_zero false; S754_finite false 7205759403792794 (-56)])
    by (vm_compute; reflexivity).
  rewrite E1, E2. intros H. discriminate H.
Qed.

(** * Further properties of the grid and of its collaborators *)

(** ** The linear index *)

(** X1 -- [make_index(x, y, z)] is the row-major bijection between the cells
    of the grid and the indices of the cell array: it maps every cell into
    the array, [cell_coords] inverts it, every index of the array is the
    index of a cell, and distinct cells have distinct indices. *)
Theorem make_index_bijection (g : Grid) :
  let n := number_of_cells_ g in
  0 < at0 n -> 0 < at1 n ->
  (forall x y z, in_grid n x y z ->
     0 <= make_index g x y z < cell_count n /\
     cell_coords n (make_index g x y z) = (x, y, z)) /\
  (forall i, 0 <= i < cell_count n ->
     exists x y z, cell_coords n i = (x, y, z) /\ in_grid n x y z /\
                   make_index g x y z = i) /\
  (forall x y z x' y' z', in_grid n x y z -> in_grid n x' y' z' ->
     make_index g x y z = make_index g x' y' z' -> (x, y, z) = (x', y', z')).
Proof.
  intros n H0 H1. unfold make_index. fold n. split; [| split].
  - intros x y z Hin. split; [apply make_index_n_range, Hin |].
    apply cell_coords_make_index, Hin.
  - intros i Hi. apply make_index_cell_coords; assumption.
  - intros x y z x' y' z' Hin Hin' E.
    destruct (make_index_n_inj n x y z x' y' z' Hin Hin' E) as (-> & -> & ->).
    reflexivity.
Qed.

Lemma make_index_bijection_witness :
  let g := grid_of (Grid_from_bounds Normal false lattice_3 (bounds_of lattice_3)) in
  let n := number_of_cells_ g in
  0 < at0 n /\ 0 < at1 n /\
  (forall x y z, in_grid n x y z ->
     0 <= make_index g x y z < cell_count n /\
     cell_coords n (make_index g x y z) = (x, y, z)).
Proof.
  intros g n.
  assert (H0 : 0 < at0 n) by (vm_compute; reflexivity).
  assert (H1 : 0 < at1 n) by (vm_compute; reflexivity).
  split; [exact H0 |]. split; [exact H1 |].
  exact (proj1 (make_index_bijection g H0 H1)).
Defined.

(** ** Comparison of floats *)

Lemma SFltb_irrefl (x : spec_float) : SFltb x x = false.
Proof.
  unfold SFltb, SFcompare.
  destruct x as [s | s | | s m e]; try destruct s; try reflexivity;
    rewrite Z.compare_refl; change (Pos.compare_cont Eq m m) with (Pos.compare m m);
    rewrite Pos.compare_refl; reflexivity.
Qed.

Lemma SFltb_finite (s1 s2 : bool) (m1 m2 : positive) (e1 e2 : Z) :
  SFltb (S754_finite s1 m1 e1) (S754_finite s2 m2 e2) = true <->
  (s1 = true /\ s2 = false) \/
  (s1 = false /\ s2 = false /\ (e1 < e2 \/ e1 = e2 /\ (m1 < m2)%positive)) \/
  (s1 = true /\ s2 = true /\ (e2 < e1 \/ e1 = e2 /\ (m2 < m1)%positive)).
Proof.
  unfold SFltb, SFcompare. change (Pos.compare_cont Eq) with Pos.compare.
  destruct s1, s2; destruct (Z.compare_spec e1 e2) as [Ee | Ee | Ee];
    destruct (Pos.compare_spec m1 m2) as [Em | Em | Em]; simpl;
    split; intros H; try discriminate H; try reflexivity;
    try (right; right; split; [reflexivity | split; [reflexivity | lia]]);
    try (right; left; split; [reflexivity | split; [reflexivity | lia]]);
    try (left; split; reflexivity);
    try (destruct H as [[H1 H2] | [(H1 & H2 & H3) | (H1 & H2 & H3)]];
         try discriminate H1; try discriminate H2; lia).
Qed.

Lemma SFltb_trans (x y z : spec_float) :
  SFltb x y = true -> SFltb y z = true -> SFltb x z = true.
Proof.
  destruct x as [sx | sx | | sx mx ex], y as [sy | sy | | sy my ey],
           z as [sz | sz | | sz mz ez];
    try (rewrite !SFltb_finite; intros H1 H2;
         destruct sx, sy, sz; intuition (try discriminate; try lia));
    unfold SFltb, SFcompare;
    try destruct sx; try destruct sy; try destruct sz;
    try discriminate; try reflexivity.
Qed.

(** ** The bounding box *)

Lemma fold_min_max_proj (l : ParticleList) (r : array3 Float32.t * array3 Float32.t) :
  let r' := fold_left min_max_step l r in
  at0 r'.1 = fold_left Float32.min (map (fun p => at0 (float_pos p)) l) (at0 r.1) /\
  at1 r'.1 = fold_left Float32.min (map (fun p => at1 (float_pos p)) l) (at1 r.1) /\
  at2 r'.1 = fold_left Float32.min (map (fun p => at2 (float_pos p)) l) (at2 r.1) /\
  at0 r'.2 = fold_left Float32.max (map (fun p => at0 (float_pos p)) l) (at0 r.2) /\
  at1 r'.2 = fold_left Float32.max (map (fun p => at1 (float_pos p)) l) (at1 r.2) /\
  at2 r'.2 = fold_left Float32.max (map (fun p => at2 (float_pos p)) l) (at2 r.2).
Proof.
  revert r. induction l as [| p l IH]; intros r; [repeat split |].
  cbn [fold_left map]. exact (IH (min_max_step r p)).
Qed.

Lemma fold_min_below (l : list Float32.t) (a x : Float32.t) :
  Float32.ltb x a = false -> Float32.ltb x (fold_left Float32.min l a) = false.
Proof.
  revert a. induction l as [| y l IH]; intros a Ha; [exact Ha |].
  cbn [fold_left]. apply IH. unfold Float32.min.
  destruct (Float32.ltb y a) eqn:Ey; [| exact Ha].
  destruct (Float32.ltb x y) eqn:Ex; [| reflexivity].
  unfold Float32.ltb in *. rewrite (SFltb_trans x y a Ex Ey) in Ha. discriminate Ha.
Qed.

Lemma fold_max_above (l : list Float32.t) (a x : Float32.t) :
  Float32.ltb a x = false -> Float32.ltb (fold_left Float32.max l a) x = false.
Proof.
  revert a. induction l as [| y l IH]; intros a Ha; [exact Ha |].
  cbn [fold_left]. apply IH. unfold Float32.max.
  destruct (Float32.ltb a y) eqn:Ey; [| exact Ha].
  destruct (Float32.ltb y x) eqn:Ex; [| reflexivity].
  unfold Float32.ltb in *. rewrite (SFltb_trans a y x Ey Ex) in Ha. discriminate Ha.
Qed.

Lemma fold_min_lower_bound (l : list Float32.t) (a x : Float32.t) :
  x ∈ l -> Float32.ltb x (fold_left Float32.min l a) = false.
Proof.
  revert a. induction l as [| y l IH]; intros a Hx; [inversion Hx |].
  cbn [fold_left]. apply elem_of_cons in Hx as [-> | Hx]; [| apply IH, Hx].
  apply fold_min_below. unfold Float32.min.
  destruct (Float32.ltb y a) eqn:Ey; [apply SFltb_irrefl | exact Ey].
Qed.

Lemma fold_max_upper_bound (l : list Float32.t) (a x : Float32.t) :
  x ∈ l -> Float32.ltb (fold_left Float32.max l a) x = false.
Proof.
  revert a. induction l as [| y l IH]; intros a Hx; [inversion Hx |].
  cbn [fold_left]. apply elem_of_cons in Hx as [-> | Hx]; [| apply IH, Hx].
  apply fold_max_above. unfold Float32.max.
  destruct (Float32.ltb a y) eqn:Ey; [apply SFltb_irrefl | exact Ey].
Qed.

Lemma fold_min_attained (l : list Float32.t) (a : Float32.t) :
  fold_left Float32.min l a = a \/ fold_left Float32.min l a ∈ l.
Proof.
  revert a. induction l as [| y l IH]; intros a; [left; reflexivity |].
  cbn [fold_left]. destruct (IH (Float32.min a y)) as [E | E].
  - rewrite E. unfold Float32.min. destruct (Float32.ltb y a); [right; left | left; reflexivity].
  - right. right. exact E.
Qed.

Lemma fold_max_attained (l : list Float32.t) (a : Float32.t) :
  fold_left Float32.max l a = a \/ fold_left Float32.max l a ∈ l.
Proof.
  revert a. induction l as [| y l IH]; intros a; [left; reflexivity |].
  cbn [fold_left]. destruct (IH (Float32.max a y)) as [E | E].
  - rewrite E. unfold Float32.max. destruct (Float32.ltb a y); [right; left | left; reflexivity].
  - right. right. exact E.
Qed.

Lemma fold_attained_first (f : Float32.t -> Float32.t -> Float32.t)
  (c : ParticleData -> Float32.t) (first : ParticleData) (l : ParticleList) :
  (fold_left f (map c (first :: l)) (c first) = c first \/
   fold_left f (map c (first :: l)) (c first) ∈ map c (first :: l)) ->
  exists p, p ∈ first :: l /\ fold_left f (map c (first :: l)) (c first) = c p.
Proof.
  intros [E | E].
  - exists first. split; [left | exact E].
  - rewrite list_elem_of_In, in_map_iff in E. destruct E as (p & E & Hp).
    exists p. split; [apply list_elem_of_In, Hp | symmetry; exact E].
Qed.

Lemma elem_of_map_2 {A B : Type} (c : A -> B) (l : list A) (a : A) :
  a ∈ l -> c a ∈ map c l.
Proof. intros H. apply list_elem_of_In, in_map, list_elem_of_In, H. Qed.

(** X2 -- The bounding box of [find_min_max_positions].  For a non-empty
    collection no particle is below the minimum or above the maximum on any
    axis, in the [float] comparison of the code (a NaN coordinate counts as
    neither), and each of the six bounds is the coordinate of some particle
    of the collection. *)
Theorem find_min_max_positions_bounds (ps : ParticleList)
  (mn mx : array3 Float32.t) :
  find_min_max_positions ps = Ok (mn, mx) ->
  (forall p, p ∈ ps ->
     within (at0 mn) (at0 mx) (at0 (float_pos p)) /\
     within (at1 mn) (at1 mx) (at1 (float_pos p)) /\
     within (at2 mn) (at2 mx) (at2 (float_pos p))) /\
  (exists p, p ∈ ps /\ at0 mn = at0 (float_pos p)) /\
  (exists p, p ∈ ps /\ at1 mn = at1 (float_pos p)) /\
  (exists p, p ∈ ps /\ at2 mn = at2 (float_pos p)) /\
  (exists p, p ∈ ps /\ at0 mx = at0 (float_pos p)) /\
  (exists p, p ∈ ps /\ at1 mx = at1 (float_pos p)) /\
  (exists p, p ∈ ps /\ at2 mx = at2 (float_pos p)).
Proof.
  unfold find_min_max_positions. destruct ps as [| first l]; [discriminate |].
  intros H. assert (Hr : fold_left min_max_step (first :: l)
                           (float_pos first, float_pos first) = (mn, mx))
    by congruence. clear H.
  destruct (fold_min_max_proj (first :: l) (float_pos first, float_pos first))
    as (H0 & H1 & H2 & H3 & H4 & H5).
  rewrite Hr in H0, H1, H2, H3, H4, H5. cbn [fst snd] in H0, H1, H2, H3, H4, H5.
  split.
  - intros p Hp. unfold within. rewrite H0, H1, H2, H3, H4, H5.
    repeat split;
      first [ apply fold_min_lower_bound | apply fold_max_upper_bound ];
      first [ apply (elem_of_map_2 (fun p => at0 (float_pos p)))
            | apply (elem_of_map_2 (fun p => at1 (float_pos p)))
            | apply (elem_of_map_2 (fun p => at2 (float_pos p))) ];
      exact Hp.
  - rewrite H0, H1, H2, H3, H4, H5.
    repeat split;
      first [ apply (fold_attained_first Float32.min (fun p => at0 (float_pos p))), fold_min_attained
            | apply (fold_attained_first Float32.min (fun p => at1 (float_pos p))), fold_min_attained
            | apply (fold_attained_first Float32.min (fun p => at2 (float_pos p))), fold_min_attained
            | apply (fold_attained_first Float32.max (fun p => at0 (float_pos p))), fold_max_attained
            | apply (fold_attained_first Float32.max (fun p => at1 (float_pos p))), fold_max_attained
            | apply (fold_attained_first Float32.max (fun p => at2 (float_pos p))), fold_max_attained ].
Qed.

Lemma find_min_max_positions_bounds_witness :
  let ps := lattice_3 in
  let mm := bounds_of ps in
  find_min_max_positions ps = Ok (mm.1, mm.2) /\
  forall p, p ∈ ps ->
    within (at0 mm.1) (at0 mm.2) (at0 (float_pos p)) /\
    within (at1 mm.1) (at1 mm.2) (at1 (float_pos p)) /\
    within (at2 mm.1) (at2 mm.2) (at2 (float_pos p)).
Proof.
  intros ps mm.
  assert (H : find_min_max_positions ps = Ok (mm.1, mm.2))
    by (vm_compute; reflexivity).
  split; [exact H |].
  exact (proj1 (find_min_max_positions_bounds ps mm.1 mm.2 H)).
Defined.

(** ** Empty collections *)

(** X3 -- Empty collections.  [find_min_max_positions], and the
    constructor that calls it, take [begin()] of the empty collection, which
    is undefined.  The other constructor stops at its assertion in a debug
    build.  In a release build it goes on with [max_cells = 0]: when the
    geometry resolution is defined, an open grid is the single empty cell
    and a periodic grid is 2 x 2 x 1 empty ghost cells. *)
Theorem empty_collection (opt : GridOptions) (ndebug : bool)
  (mm : array3 Float32.t * array3 Float32.t) :
  find_min_max_positions [] = Undefined /\
  Grid_from_particles opt ndebug [] = Undefined /\
  Grid_from_bounds opt false [] mm = Undefined /\
  Grid_from_bounds opt true [] mm =
    ('(n, f) ← resolve_geometry 0 mm.1 mm.2;
     Ok (match opt with
         | Normal => mkGrid mm.1 f (Arr3 1 1 1) [[]]
         | PeriodicBoundaries => mkGrid mm.1 f (Arr3 2 2 1) [[]; []; []; []]
         end)).
Proof.
  split; [reflexivity |]. split; [reflexivity |]. split; [reflexivity |].
  unfold Grid_from_bounds, Grid_with_max_cells.
  change (Z.of_nat (length (@nil ParticleData))) with 0. cbn [negb andb].
  change (resolve_geometry_with (cbrt_int 0) mm.1 mm.2)
    with (resolve_geometry 0 mm.1 mm.2).
  destruct (resolve_geometry 0 mm.1 mm.2) as [[n f] | e |] eqn:Hr;
    [| reflexivity | reflexivity].
  cbn [mbind outcome_bind].
  assert (Hax : forall len mn mx r, resolve_axis (cbrt_int 0) len mn mx = Ok r ->
                  r.1 = 0).
  { intros len mn mx r Hax. unfold resolve_axis in Hax.
    apply bind_Ok in Hax as (c & _ & Hax). change (cbrt_int 0) with 0 in Hax.
    replace (Z.max 1 c >? 0) with true in Hax by (symmetry; apply Z.gtb_lt; lia).
    injection Hax as <-. reflexivity. }
  apply resolve_geometry_Ok in Hr as (H0 & H1 & H2).
  apply Hax in H0, H1, H2. cbn [fst] in H0, H1, H2.
  destruct n as [n0 n1 n2]. cbn [at0 at1 at2] in H0, H1, H2. subst n0 n1 n2.
  destruct opt; reflexivity.
Qed.

(** ** Size of the cell array *)

Lemma Grid_from_bounds_length (opt : GridOptions) (ndebug : bool)
  (ps : ParticleList) (mm : array3 Float32.t * array3 Float32.t) (g : Grid)
  (n : array3 Z) (f : array3 Float32.t) :
  Grid_from_bounds opt ndebug ps mm = Ok g ->
  resolve_geometry (Z.of_nat (length ps)) mm.1 mm.2 = Ok (n, f) ->
  1 <= at0 n -> 1 <= at1 n -> 1 <= at2 n ->
  Z.of_nat (length (cells_ g)) = cell_count (number_of_cells_ g).
Proof.
  intros H Hr P0 P1 P2.
  pose proof (Grid_from_bounds_frame _ _ _ _ _ H) as (n' & f' & Hr' & _ & _ & Hn).
  rewrite Hr in Hr'. injection Hr' as <- <-.
  apply Grid_from_bounds_Ok in H as (n' & f' & Hr' & H).
  rewrite Hr in Hr'. injection Hr' as <- <-.
  rewrite Hn. destruct opt.
  - destruct (is_dilute n); [subst g; reflexivity |].
    apply place_particles_Ok in H as ((_ & _ & _ & Hl) & _).
    rewrite Hl. unfold allocate, cell_count. cbn [cells_].
    rewrite length_replicate. nia.
  - destruct H as (g1 & H1 & H2).
    apply place_particles_Ok in H1 as ((_ & _ & _ & Hl) & _).
    apply fill_ghost_cells_frame in H2 as (_ & _ & _ & Hl').
    rewrite Hl', Hl. unfold allocate, cell_count, add_ghost_layers.
    cbn [cells_ at0 at1 at2]. rewrite length_replicate. nia.
Qed.

(** X4 -- The invariant of a constructed grid, in either mode and either
    build: every axis has at least one cell, and the cell array has exactly
    [n0 * n1 * n2] cells. *)
Theorem cell_array_invariant (opt : GridOptions) (ndebug : bool)
  (ps : ParticleList) (mm : array3 Float32.t * array3 Float32.t) (g : Grid) :
  ps <> [] -> Grid_from_bounds opt ndebug ps mm = Ok g ->
  let n := number_of_cells_ g in
  1 <= at0 n /\ 1 <= at1 n /\ 1 <= at2 n /\
  Z.of_nat (length (cells_ g)) = at0 n * at1 n * at2 n.
Proof.
  intros Hne H n.
  pose proof (Grid_from_bounds_frame _ _ _ _ _ H) as (n' & f' & Hr & _ & _ & Hn).
  pose proof (resolve_geometry_bounds _ _ _ _ _ (nonempty_count ps Hne) Hr)
    as (B0 & B1 & B2).
  pose proof (Grid_from_bounds_length _ _ _ _ _ _ _ H Hr
                ltac:(lia) ltac:(lia) ltac:(lia)) as Hl.
  fold n in Hl, Hn. rewrite Hl. unfold cell_count. rewrite Hn.
  destruct opt.
  - destruct (is_dilute n'); cbn [at0 at1 at2]; lia.
  - unfold add_ghost_layers; cbn [at0 at1 at2]; lia.
Qed.

Lemma cell_array_invariant_witness :
  let ps := lattice_3 in
  let g := grid_of (Grid_from_bounds PeriodicBoundaries false ps (bounds_of ps)) in
  let n := number_of_cells_ g in
  ps <> [] /\ Grid_from_bounds PeriodicBoundaries false ps (bounds_of ps) = Ok g /\
  1 <= at0 n /\ 1 <= at1 n /\ 1 <= at2 n /\
  Z.of_nat (length (cells_ g)) = at0 n * at1 n * at2 n.
Proof.
  intros ps g n.
  assert (Hne : ps <> []) by (vm_compute; discriminate).
  assert (Hg : Grid_from_bounds PeriodicBoundaries false ps (bounds_of ps) = Ok g)
    by (vm_compute; reflexivity).
  split; [exact Hne |]. split; [exact Hg |].
  exact (cell_array_invariant PeriodicBoundaries false ps (bounds_of ps) g Hne Hg).
Defined.

(** X5 -- The number of cells does not exceed the number of particles:
    an open grid has at most as many cells as the collection has particles,
    and a periodic grid at most as many interior cells. *)
Theorem cells_bounded_by_particles (opt : GridOptions) (ndebug : bool)
  (ps : ParticleList) (mm : array3 Float32.t * array3 Float32.t) (g : Grid) :
  ps <> [] -> Grid_from_bounds opt ndebug ps mm = Ok g ->
  let n := number_of_cells_ g in
  match opt with
  | Normal => Z.of_nat (length (cells_ g)) <= Z.of_nat (length ps)
  | PeriodicBoundaries =>
      (at0 n - 2) * (at1 n - 2) * (at2 n - 1) <= Z.of_nat (length ps)
  end.
Proof.
  intros Hne H n.
  pose proof (Grid_from_bounds_frame _ _ _ _ _ H) as (n' & f' & Hr & _ & _ & Hn).
  pose proof (nonempty_count ps Hne) as Hc.
  pose proof (resolve_geometry_bounds _ _ _ _ _ Hc Hr) as (B0 & B1 & B2).
  pose proof (Grid_from_bounds_length _ _ _ _ _ _ _ H Hr
                ltac:(lia) ltac:(lia) ltac:(lia)) as Hl.
  destruct (cbrt_int_spec (Z.of_nat (length ps))) as (K0 & K1 & _); [lia |].
  set (k := cbrt_int (Z.of_nat (length ps))) in *.
  assert (Hprod : at0 n' * at1 n' * at2 n' <= Z.of_nat (length ps)).
  { replace (k ^ 3) with (k * k * k) in K1 by ring.
    assert (at0 n' * at1 n' <= k * k) by nia.
    assert (at0 n' * at1 n' * at2 n' <= k * k * k) by nia. lia. }
  fold n in Hn. destruct opt.
  - rewrite Hl. fold n. rewrite Hn. unfold cell_count.
    destruct (is_dilute n'); cbn [at0 at1 at2]; lia.
  - rewrite Hn. unfold add_ghost_layers. cbn [at0 at1 at2].
    replace (at0 n' + 2 - 2) with (at0 n') by lia.
    replace (at1 n' + 2 - 2) with (at1 n') by lia.
    replace (at2 n' + 1 - 1) with (at2 n') by lia. exact Hprod.
Qed.

Lemma cells_bounded_by_particles_witness :
  let ps := lattice_3 in
  let g := grid_of (Grid_from_bounds Normal false ps (bounds_of ps)) in
  ps <> [] /\ Grid_from_bounds Normal false ps (bounds_of ps) = Ok g /\
  Z.of_nat (length (cells_ g)) <= Z.of_nat (length ps).
Proof.
  intros ps g.
  assert (Hne : ps <> []) by (vm_compute; discriminate).
  assert (Hg : Grid_from_bounds Normal false ps (bounds_of ps) = Ok g)
    by (vm_compute; reflexivity).
  split; [exact Hne |]. split; [exact Hg |].
  exact (cells_bounded_by_particles Normal false ps (bounds_of ps) g Hne Hg).
Defined.

(** ** Bucketing *)

Lemma not_single_cell_not_dilute (ndebug : bool) (ps : ParticleList)
  (mm : array3 Float32.t * array3 Float32.t) (g : Grid) :
  Grid_from_bounds Normal ndebug ps mm = Ok g ->
  number_of_cells_ g <> Arr3 1 1 1 ->
  exists n f, resolve_geometry (Z.of_nat (length ps)) mm.1 mm.2 = Ok (n, f) /\
              is_dilute n = false.
Proof.
  intros H Hn.
  pose proof (Grid_from_bounds_frame _ _ _ _ _ H) as (n & f & Hr & _ & _ & Hn').
  exists n, f. split; [exact Hr |].
  destruct (is_dilute n); [congruence | reflexivity].
Qed.

(** X6 -- Bucketing in open mode.  Outside the dilute limit every
    particle has an index inside the cell array, and every cell holds
    exactly the particles of the collection whose index it is, in the order
    of the collection. *)
Theorem open_grid_buckets (ndebug : bool) (ps : ParticleList)
  (mm : array3 Float32.t * array3 Float32.t) (g : Grid) :
  ps <> [] -> Grid_from_bounds Normal ndebug ps mm = Ok g ->
  number_of_cells_ g <> Arr3 1 1 1 ->
  let n := number_of_cells_ g in
  (forall p, p ∈ ps -> 0 <= home_cell Normal g p < cell_count n) /\
  (forall j, 0 <= j < cell_count n ->
     cell g j = filter (fun p => home_cell Normal g p = j) ps).
Proof.
  intros Hne H Hn n.
  destruct (not_single_cell_not_dilute _ _ _ _ H Hn) as (n' & f & Hr & Hd).
  destruct (Grid_from_bounds_open ndebug ps mm g n' f Hne H Hr Hd)
    as (_ & _ & _ & Hhome & Hcell).
  split; [exact Hhome | exact Hcell].
Qed.

Lemma open_grid_buckets_witness :
  let ps := lattice_3 in
  let g := grid_of (Grid_from_bounds Normal false ps (bounds_of ps)) in
  let n := number_of_cells_ g in
  ps <> [] /\ Grid_from_bounds Normal false ps (bounds_of ps) = Ok g /\
  number_of_cells_ g <> Arr3 1 1 1 /\
  (forall p, p ∈ ps -> 0 <= home_cell Normal g p < cell_count n) /\
  (forall j, 0 <= j < cell_count n ->
     cell g j = filter (fun p => home_cell Normal g p = j) ps).
Proof.
  intros ps g n.
  assert (Hne : ps <> []) by (vm_compute; discriminate).
  assert (Hg : Grid_from_bounds Normal false ps (bounds_of ps) = Ok g)
    by (vm_compute; reflexivity).
  assert (En : number_of_cells_ g = Arr3 3 3 3) by (vm_compute; reflexivity).
  assert (Hn : number_of_cells_ g <> Arr3 1 1 1) by (rewrite En; discriminate).
  split; [exact Hne |]. split; [exact Hg |]. split; [exact Hn |].
  exact (open_grid_buckets false ps (bounds_of ps) g Hne Hg Hn).
Defined.

Lemma cells_range (g : Grid) :
  cells_ g = map (cell g) (range 0 (Z.of_nat (length (cells_ g)))).
Proof.
  apply list_eq. intros i. unfold range. rewrite Z.sub_0_r.
  change (map (cell g)) with (fmap (M := list) (cell g)).
  rewrite list_lookup_fmap.
  destruct (decide (i < length (cells_ g))%nat) as [Hi | Hi].
  - rewrite lookup_seqZ_lt by lia. cbn [fmap option_fmap option_map].
    unfold cell. replace (0 + Z.of_nat i <? 0) with false
      by (symmetry; apply Z.ltb_ge; lia).
    replace (Z.to_nat (0 + Z.of_nat i)) with i by lia.
    destruct (lookup_lt_is_Some_2 (cells_ g) i Hi) as [c ->]. reflexivity.
  - rewrite lookup_seqZ_ge by lia. apply lookup_ge_None. lia.
Qed.

Lemma concat_filter_Permutation {A : Type} (h : A -> Z) (js : list Z) (l : list A) :
  NoDup js -> (forall a, a ∈ l -> h a ∈ js) ->
  concat (map (fun j => filter (fun a => h a = j) l) js) ≡ₚ l.
Proof.
  revert l. induction js as [| j js IH]; intros l Hnd Hin.
  - destruct l as [| a l]; [reflexivity |].
    specialize (Hin a ltac:(left)). inversion Hin.
  - apply NoDup_cons in Hnd as [Hj Hnd]. cbn [map concat].
    transitivity (filter (fun a => h a = j) l ++ filter (fun a => ~ h a = j) l);
      [| apply filter_app_complement].
    apply Permutation_app_head.
    rewrite (map_ext_elem (fun j' => filter (fun a => h a = j') l)
               (fun j' => filter (fun a => h a = j')
                            (filter (fun a => ~ h a = j) l)) js).
    + apply IH; [exact Hnd |].
      intros a Ha. apply list_elem_of_filter in Ha as [Hna Ha].
      specialize (Hin a Ha). apply elem_of_cons in Hin as [E | E];
        [contradiction | exact E].
    + intros j' Hj'. rewrite list_filter_filter. apply list_filter_iff.
      intros a. split; [| tauto]. intros E. split; [exact E |].
      intros E'. rewrite E' in E. rewrite E in Hj. contradiction.
Qed.

(** X7 -- An open grid conserves the particles: its cells together hold
    every particle of the collection exactly once. *)
Theorem open_grid_conserves_particles (ndebug : bool) (ps : ParticleList)
  (mm : array3 Float32.t * array3 Float32.t) (g : Grid) :
  ps <> [] -> Grid_from_bounds Normal ndebug ps mm = Ok g ->
  concat (cells_ g) ≡ₚ ps.
Proof.
  intros Hne H.
  pose proof (Grid_from_bounds_frame _ _ _ _ _ H) as (n & f & Hr & _ & _ & Hn).
  destruct (is_dilute n) eqn:Hd.
  - apply Grid_from_bounds_Ok in H as (n' & f' & Hr' & H).
    rewrite Hr in Hr'. injection Hr' as <- <-. rewrite Hd in H. subst g.
    cbn [cells_ concat]. rewrite app_nil_r. reflexivity.
  - destruct (Grid_from_bounds_open ndebug ps mm g n f Hne H Hr Hd)
      as (_ & _ & Hl & Hhome & Hcell).
    rewrite cells_range, Hl.
    rewrite (map_ext_elem (cell g)
               (fun j => filter (fun p => home_cell Normal g p = j) ps)).
    + apply concat_filter_Permutation; [apply NoDup_range |].
      intros p Hp. apply elem_of_range. apply Hhome, Hp.
    + intros j Hj. apply elem_of_range in Hj. apply Hcell. exact Hj.
Qed.

Lemma open_grid_conserves_particles_witness :
  let ps := lattice_3 in
  let g := grid_of (Grid_from_bounds Normal false ps (bounds_of ps)) in
  ps <> [] /\ Grid_from_bounds Normal false ps (bounds_of ps) = Ok g /\
  concat (cells_ g) ≡ₚ ps.
Proof.
  intros ps g.
  assert (Hne : ps <> []) by (vm_compute; discriminate).
  assert (Hg : Grid_from_bounds Normal false ps (bounds_of ps) = Ok g)
    by (vm_compute; reflexivity).
  split; [exact Hne |]. split; [exact Hg |].
  exact (open_grid_conserves_particles false ps (bounds_of ps) g Hne Hg).
Defined.

(** X8 -- Bucketing in periodic mode.  An interior cell holds exactly the
    particles of the collection whose index it is, in the order of the
    collection: the loop that fills the ghost cells leaves it alone. *)
Theorem periodic_interior_cells (ndebug : bool) (ps : ParticleList)
  (mm : array3 Float32.t * array3 Float32.t) (g : Grid) (x y z : Z) :
  ps <> [] -> Grid_from_bounds PeriodicBoundaries ndebug ps mm = Ok g ->
  in_grid (number_of_cells_ g) x y z -> is_ghost_cell g x y z = false ->
  cell g (make_index g x y z) =
    filter (fun p => home_cell PeriodicBoundaries g p = make_index g x y z) ps.
Proof.
  intros Hne H Hin Hghost.
  destruct (periodic_grid_cells ndebug ps mm g Hne H) as (_ & Hcells).
  rewrite (Hcells x y z Hin), Hghost. reflexivity.
Qed.

Lemma periodic_interior_cells_witness :
  let ps := lattice_3 in
  let g := grid_of (Grid_from_bounds PeriodicBoundaries false ps (bounds_of ps)) in
  ps <> [] /\ Grid_from_bounds PeriodicBoundaries false ps (bounds_of ps) = Ok g /\
  in_grid (number_of_cells_ g) 1 1 0 /\ is_ghost_cell g 1 1 0 = false /\
  cell g (make_index g 1 1 0) =
    filter (fun p => home_cell PeriodicBoundaries g p = make_index g 1 1 0) ps.
Proof.
  intros ps g.
  assert (Hne : ps <> []) by (vm_compute; discriminate).
  assert (Hg : Grid_from_bounds PeriodicBoundaries false ps (bounds_of ps) = Ok g)
    by (vm_compute; reflexivity).
  assert (Hin : in_grid (number_of_cells_ g) 1 1 0)
    by (vm_compute; repeat split; discriminate).
  assert (Hgh : is_ghost_cell g 1 1 0 = false) by (vm_compute; reflexivity).
  split; [exact Hne |]. split; [exact Hg |]. split; [exact Hin |].
  split; [exact Hgh |].
  exact (periodic_interior_cells false ps (bounds_of ps) g 1 1 0 Hne Hg Hin Hgh).
Defined.

(** ** Debug and release builds *)

Lemma foldlM_impl {S A : Type} (f f' : S -> A -> outcome S) :
  (forall s a s', f s a = Ok s' -> f' s a = Ok s') ->
  forall l s s', foldlM f s l = Ok s' -> foldlM f' s l = Ok s'.
Proof.
  intros Hf l. induction l as [| a l IH]; intros s s' H; cbn [foldlM] in *.
  - exact H.
  - apply bind_Ok in H as (s1 & H1 & H). apply bind_Ok. exists s1.
    split; [exact (Hf _ _ _ H1) | exact (IH _ _ H)].
Qed.

Lemma place_particle_release (opt : GridOptions) (g g' : Grid) (p : ParticleData) :
  place_particle opt false g p = Ok g' -> place_particle opt true g p = Ok g'.
Proof.
  unfold place_particle. intros H. apply bind_Ok in H as (idx & Hi & H).
  rewrite Hi. cbn [negb andb mbind outcome_bind] in *.
  destruct (out_of_bounds opt g idx); [discriminate H | exact H].
Qed.

(** X10 -- The bounds check does not change the result: whenever a debug
    build returns a grid, the release build returns the same grid. *)
Theorem debug_and_release_agree (opt : GridOptions) (ps : ParticleList)
  (mm : array3 Float32.t * array3 Float32.t) (g : Grid) :
  (Grid_from_bounds opt false ps mm = Ok g ->
   Grid_from_bounds opt true ps mm = Ok g) /\
  (Grid_from_particles opt false ps = Ok g ->
   Grid_from_particles opt true ps = Ok g).
Proof.
  assert (Hb : forall mm', Grid_from_bounds opt false ps mm' = Ok g ->
                           Grid_from_bounds opt true ps mm' = Ok g).
  { intros mm'. unfold Grid_from_bounds, Grid_with_max_cells. cbn [negb andb].
    destruct (Z.of_nat (length ps) <=? 0); [discriminate |].
    intros H. apply bind_Ok in H as ([n f] & Hr & H). rewrite Hr.
    cbn [mbind outcome_bind]. destruct opt.
    - destruct (is_dilute n); [exact H |].
      revert H. unfold place_particles.
      apply (foldlM_impl (place_particle Normal false) (place_particle Normal true)).
      intros s a s'. apply place_particle_release.
    - apply bind_Ok in H as (g1 & H1 & H). apply bind_Ok. exists g1.
      split; [| exact H].
      revert H1. unfold place_particles.
      apply (foldlM_impl (place_particle PeriodicBoundaries false)
                         (place_particle PeriodicBoundaries true)).
      intros s a s'. apply place_particle_release. }
  split; [apply Hb |].
  unfold Grid_from_particles. intros H. apply bind_Ok in H as (mm' & Hm & H).
  rewrite Hm. exact (Hb _ H).
Qed.

(** ** The lower corner of the bounding box *)

Lemma axis_cell_at_min (min_i factor_i : Float32.t) (pos_i : Float64.t) :
  Float32.of_double pos_i = min_i ->
  is_finite min_i = true -> is_finite factor_i = true ->
  exists s, axis_cell min_i factor_i pos_i = S754_zero s.
Proof.
  intros E Hm Hf. unfold axis_cell. rewrite E.
  assert (Hs : exists s, Float32.sub min_i min_i = S754_zero s).
  { unfold Float32.sub. destruct min_i as [s | s | | s m e]; try discriminate Hm.
    - exists (if s then false else false). destruct s; reflexivity.
    - exists false. cbn [SFsub]. rewrite Z.sub_diag. reflexivity. }
  destruct Hs as [s ->].
  destruct factor_i as [sf | sf | | sf mf ef]; try discriminate Hf;
    eexists; reflexivity.
Qed.

(** X11 -- The lower corner of the box.  A particle whose [float] position
    is [min_position_] lands, when the minimum and the index factors are
    finite, in cell (0,0,0) of an open grid and in the first interior cell
    (1,1,0) of a periodic grid. *)
Theorem lower_corner_cell (opt : GridOptions) (g : Grid) (p : ParticleData) :
  float_pos p = min_position_ g ->
  is_finite (at0 (min_position_ g)) = true ->
  is_finite (at1 (min_position_ g)) = true ->
  is_finite (at2 (min_position_ g)) = true ->
  is_finite (at0 (index_factor_ g)) = true ->
  is_finite (at1 (index_factor_ g)) = true ->
  is_finite (at2 (index_factor_ g)) = true ->
  make_index_pos opt g (threevec (position p)) =
    Ok (match opt with
        | Normal => make_index g 0 0 0
        | PeriodicBoundaries => make_index g 1 1 0
        end).
Proof.
  intros E M0 M1 M2 F0 F1 F2. unfold make_index_pos.
  assert (E0 : Float32.of_double (at0 (threevec (position p))) = at0 (min_position_ g))
    by (rewrite <- E; reflexivity).
  assert (E1 : Float32.of_double (at1 (threevec (position p))) = at1 (min_position_ g))
    by (rewrite <- E; reflexivity).
  assert (E2 : Float32.of_double (at2 (threevec (position p))) = at2 (min_position_ g))
    by (rewrite <- E; reflexivity).
  destruct (axis_cell_at_min _ _ _ E0 M0 F0) as [s0 ->].
  destruct (axis_cell_at_min _ _ _ E1 M1 F1) as [s1 ->].
  destruct (axis_cell_at_min _ _ _ E2 M2 F2) as [s2 ->].
  destruct opt; reflexivity.
Qed.

Lemma lower_corner_cell_witness :
  let ps := lattice_3 in
  let g := grid_of (Grid_from_bounds PeriodicBoundaries false ps (bounds_of ps)) in
  let p := particle_at 0 Float64.zero Float64.zero Float64.zero in
  float_pos p = min_position_ g /\
  make_index_pos PeriodicBoundaries g (threevec (position p)) = Ok (make_index g 1 1 0).
Proof.
  intros ps g p.
  assert (E : float_pos p = min_position_ g) by (vm_compute; reflexivity).
  split; [exact E |].
  apply (lower_corner_cell PeriodicBoundaries g p E); vm_compute; reflexivity.
Defined.

(** ** The order of the traversal *)

Lemma range_shift (b k : Z) : map (fun x => b + x) (range 0 k) = range b (b + k).
Proof.
  unfold range. change (map (fun x => b + x)) with (fmap (M := list) (Z.add b)).
  rewrite fmap_add_seqZ. f_equal; lia.
Qed.

Lemma range_app (a b c : Z) : a <= b -> b <= c -> range a b ++ range b c = range a c.
Proof.
  intros H1 H2. unfold range.
  replace (c - a) with ((b - a) + (c - b)) by lia.
  rewrite seqZ_app by lia. do 2 f_equal. lia.
Qed.

Lemma bind_range_blocks (c k m : Z) :
  0 <= k -> 0 <= m ->
  (y ← range 0 m; range (c + y * k) (c + y * k + k)) = range c (c + m * k).
Proof.
  intros Hk Hm. revert m Hm. apply natlike_ind.
  - rewrite range_nil by lia. rewrite range_nil by lia. reflexivity.
  - intros m Hm IH. rewrite (range_snoc 0 (Z.succ m)) by lia.
    replace (Z.succ m - 1) with m by lia.
    rewrite bind_app, bind_singleton, IH.
    rewrite range_app by nia. f_equal. lia.
Qed.

Lemma all_cells_indices (n : array3 Z) :
  0 <= at0 n -> 0 <= at1 n -> 0 <= at2 n ->
  map (fun t : Z * Z * Z => make_index_n n t.1.1 t.1.2 t.2) (all_cells n)
  = range 0 (cell_count n).
Proof.
  intros H0 H1 H2. unfold all_cells, cell_count, make_index_n.
  rewrite map_bind.
  rewrite (bind_ext_elem _ (fun z => range (0 + z * (at1 n * at0 n))
                                       (0 + z * (at1 n * at0 n) + at1 n * at0 n))).
  - rewrite bind_range_blocks by nia. f_equal. lia.
  - intros z _. rewrite map_bind.
    rewrite (bind_ext_elem _ (fun y => range (z * (at1 n * at0 n) + y * at0 n)
                                         (z * (at1 n * at0 n) + y * at0 n + at0 n))).
    + rewrite bind_range_blocks by lia. f_equal; lia.
    + intros y _. rewrite map_bind. cbn [map fst snd].
      rewrite bind_singleton_map.
      rewrite <- range_shift. apply map_ext. intros x. ring.
Qed.

Lemma home_index_call_of (g : Grid) (a : closure_args) :
  home_index (call_of g a) = a.1.1.1.
Proof. destruct a as [[[ci xo] yo] zo]. reflexivity. Qed.

Lemma search_list_call_of (g : Grid) (a : closure_args) :
  search_list (call_of g a) = cell g (home_index (call_of g a)).
Proof. destruct a as [[[ci xo] yo] zo]. reflexivity. Qed.

Lemma normal_grid_calls (ndebug : bool) (ps : ParticleList)
  (mm : array3 Float32.t * array3 Float32.t) (g : Grid) :
  ps <> [] -> Grid_from_bounds Normal ndebug ps mm = Ok g ->
  let n := number_of_cells_ g in
  (1 <= at0 n /\ 1 <= at1 n /\ 1 <= at2 n) /\
  Z.of_nat (length (cells_ g)) = cell_count n /\
  iterate_cells Normal g =
    Ok (map (fun t => call_of g (normal_args g t)) (all_cells n)).
Proof.
  intros Hne H n.
  pose proof (Grid_from_bounds_frame _ _ _ _ _ H) as (n' & f' & Hr & _ & _ & Hn).
  pose proof (resolve_geometry_bounds _ _ _ _ _ (nonempty_count ps Hne) Hr)
    as (B0 & B1 & B2).
  pose proof (Grid_from_bounds_length _ _ _ _ _ _ _ H Hr
                ltac:(lia) ltac:(lia) ltac:(lia)) as Hl.
  assert (Hpos : 1 <= at0 n /\ 1 <= at1 n /\ 1 <= at2 n).
  { unfold n. rewrite Hn. destruct (is_dilute n'); cbn [at0 at1 at2]; lia. }
  split; [exact Hpos |]. split; [exact Hl |].
  apply iterate_cells_normal; [apply Hpos | apply Hpos | apply Hpos | exact Hl].
Qed.

(** X12 -- Traversal of an open grid: there is one callback per cell, in
    increasing order of the linear index, and its home list is the list of
    that cell. *)
Theorem open_traversal_home_cells (ndebug : bool) (ps : ParticleList)
  (mm : array3 Float32.t * array3 Float32.t) (g : Grid) :
  ps <> [] -> Grid_from_bounds Normal ndebug ps mm = Ok g ->
  exists calls,
    iterate_cells Normal g = Ok calls /\
    map home_index calls = range 0 (cell_count (number_of_cells_ g)) /\
    forall c, c ∈ calls -> search_list c = cell g (home_index c).
Proof.
  intros Hne H.
  destruct (normal_grid_calls ndebug ps mm g Hne H) as ((P0 & P1 & P2) & Hl & Hc).
  eexists. split; [exact Hc |]. split.
  - rewrite map_map. rewrite <- all_cells_indices by lia.
    apply map_ext. intros [[x y] z]. reflexivity.
  - intros c Hin. apply elem_of_map in Hin as (t & -> & _).
    apply search_list_call_of.
Qed.

Lemma open_traversal_home_cells_witness :
  let ps := lattice_3 in
  let g := grid_of (Grid_from_bounds Normal false ps (bounds_of ps)) in
  ps <> [] /\ Grid_from_bounds Normal false ps (bounds_of ps) = Ok g /\
  exists calls,
    iterate_cells Normal g = Ok calls /\
    map home_index calls = range 0 (cell_count (number_of_cells_ g)) /\
    forall c, c ∈ calls -> search_list c = cell g (home_index c).
Proof.
  intros ps g.
  assert (Hne : ps <> []) by (vm_compute; discriminate).
  assert (Hg : Grid_from_bounds Normal false ps (bounds_of ps) = Ok g)
    by (vm_compute; reflexivity).
  split; [exact Hne |]. split; [exact Hg |].
  exact (open_traversal_home_cells false ps (bounds_of ps) g Hne Hg).
Defined.

(** ** Neighbour lists *)

Lemma neighbors_call_of (g : Grid) (a : closure_args) :
  neighbors (call_of g a) =
    map (fun j => (j, cell g j))
        (neighbor_indices g a.1.1.1 a.1.1.2 a.1.2 a.2).
Proof. destruct a as [[[ci xo] yo] zo]. reflexivity. Qed.

Lemma map_fst_neighbors (g : Grid) (l : list Z) :
  map fst (map (fun j => (j, cell g j)) l) = l.
Proof. rewrite map_map. cbn [fst]. apply map_id. Qed.

Lemma NoDup_neighbor_indices (g : Grid) (x y z : Z) (xo yo zo : list Z) :
  let n := number_of_cells_ g in
  NoDup xo -> NoDup yo -> NoDup zo ->
  (forall dx, dx ∈ xo -> 0 <= x + dx < at0 n) ->
  (forall dy, dy ∈ yo -> 0 <= y + dy < at1 n) ->
  (forall dz, dz ∈ zo -> 0 <= z + dz < at2 n) ->
  NoDup (neighbor_indices g (make_index g x y z) xo yo zo).
Proof.
  intros n Nx Ny Nz Hx Hy Hz.
  assert (Hinj : forall dx dy dz dx' dy' dz',
            dx ∈ xo -> dy ∈ yo -> dz ∈ zo -> dx' ∈ xo -> dy' ∈ yo -> dz' ∈ zo ->
            make_index g x y z + dz * at1 n * at0 n + dy * at0 n + dx =
            make_index g x y z + dz' * at1 n * at0 n + dy' * at0 n + dx' ->
            dx = dx' /\ dy = dy' /\ dz = dz').
  { intros dx dy dz dx' dy' dz' I1 I2 I3 I4 I5 I6 E.
    unfold make_index in E. fold n in E. rewrite !make_index_offset in E.
    apply make_index_n_inj in E.
    - lia.
    - unfold in_grid. split; [apply Hx, I1 | split; [apply Hy, I2 | apply Hz, I3]].
    - unfold in_grid. split; [apply Hx, I4 | split; [apply Hy, I5 | apply Hz, I6]]. }
  unfold neighbor_indices. fold n.
  apply NoDup_bind; [| | exact Nz].
  - intros dz1 dz2 j I1 I2 H1 H2.
    apply list_elem_of_bind in H1 as (dy1 & H1 & J1).
    apply list_elem_of_bind in H1 as (dx1 & H1 & K1).
    apply list_elem_of_bind in H2 as (dy2 & H2 & J2).
    apply list_elem_of_bind in H2 as (dx2 & H2 & K2).
    destruct (_ >? _) in H1; [| inversion H1].
    destruct (_ >? _) in H2; [| inversion H2].
    apply list_elem_of_singleton in H1, H2.
    apply (Hinj dx1 dy1 dz1 dx2 dy2 dz2); try assumption. congruence.
  - intros dz Idz. apply NoDup_bind; [| | exact Ny].
    + intros dy1 dy2 j I1 I2 H1 H2.
      apply list_elem_of_bind in H1 as (dx1 & H1 & K1).
      apply list_elem_of_bind in H2 as (dx2 & H2 & K2).
      destruct (_ >? _) in H1; [| inversion H1].
      destruct (_ >? _) in H2; [| inversion H2].
      apply list_elem_of_singleton in H1, H2.
      apply (Hinj dx1 dy1 dz dx2 dy2 dz); try assumption. congruence.
    + intros dy Idy. apply NoDup_bind; [| | exact Nx].
      * intros dx1 dx2 j I1 I2 H1 H2.
        destruct (_ >? _) in H1; [| inversion H1].
        destruct (_ >? _) in H2; [| inversion H2].
        apply list_elem_of_singleton in H1, H2.
        apply (Hinj dx1 dy dz dx2 dy dz); try assumption. congruence.
      * intros dx Idx. destruct (_ >? _); [apply NoDup_singleton | apply NoDup_nil_2].
Qed.

Lemma NoDup_stencil (n x : Z) : NoDup (stencil n x).
Proof.
  unfold stencil. destruct (0 <? x), (x <? n - 1);
    apply (bool_decide_unpack _); vm_compute; exact I.
Qed.

Lemma NoDup_zstencil (n z : Z) : NoDup (zstencil n z).
Proof.
  unfold zstencil. destruct (z <? n - 1);
    apply (bool_decide_unpack _); vm_compute; exact I.
Qed.

Lemma elem_of_forward_offsets (dx dy dz : Z) :
  -1 <= dx <= 1 -> -1 <= dy <= 1 -> forward dx dy dz ->
  (dx, dy, dz) ∈ forward_offsets.
Proof.
  unfold forward. intros Hx Hy Hf.
  assert (Ex : dx = -1 \/ dx = 0 \/ dx = 1) by lia.
  assert (Ey : dy = -1 \/ dy = 0 \/ dy = 1) by lia.
  assert (Ez : dz = 0 \/ dz = 1) by lia.
  destruct Ex as [-> | [-> | ->]], Ey as [-> | [-> | ->]], Ez as [-> | ->];
    try (exfalso; lia);
    apply (bool_decide_unpack _); vm_compute; exact I.
Qed.

Lemma length_half_shell (g : Grid) (x y z : Z) (l : list Z) :
  let n := number_of_cells_ g in
  NoDup l ->
  (forall j, j ∈ l -> exists dx dy dz,
     -1 <= dx <= 1 /\ -1 <= dy <= 1 /\ forward dx dy dz /\
     j = make_index g (x + dx) (y + dy) (z + dz)) ->
  (length l <= 13)%nat.
Proof.
  intros n Hnd Hl.
  change 13%nat with
    (length (map (fun t : Z * Z * Z => make_index g (x + t.1.1) (y + t.1.2) (z + t.2))
                 forward_offsets)).
  apply submseteq_length, NoDup_submseteq; [exact Hnd |].
  intros j Hj. destruct (Hl j Hj) as (dx & dy & dz & Hx & Hy & Hf & ->).
  apply elem_of_map. exists (dx, dy, dz). split; [reflexivity |].
  apply elem_of_forward_offsets; assumption.
Qed.

Lemma adjacent_coords (n : array3 Z) (x y z x' y' z' : Z) :
  in_grid n x y z -> in_grid n x' y' z' ->
  (adjacent n (make_index_n n x y z) (make_index_n n x' y' z') = true <->
   -1 <= x' - x <= 1 /\ -1 <= y' - y <= 1 /\ -1 <= z' - z <= 1).
Proof.
  intros H H'. unfold adjacent.
  rewrite (cell_coords_make_index n x y z H), (cell_coords_make_index n x' y' z' H').
  rewrite !andb_true_iff, !near_spec. lia.
Qed.

(** X13 -- The neighbours of a callback of an open grid are exactly the
    cells of the array that touch the home cell and have a larger index:
    each occurs once, there are at most 13 of them, and each is handed over
    with its own list. *)
Theorem open_traversal_neighbors (ndebug : bool) (ps : ParticleList)
  (mm : array3 Float32.t * array3 Float32.t) (g : Grid) (calls : list Call)
  (c : Call) :
  ps <> [] -> Grid_from_bounds Normal ndebug ps mm = Ok g ->
  iterate_cells Normal g = Ok calls -> c ∈ calls ->
  let n := number_of_cells_ g in
  NoDup (map fst (neighbors c)) /\
  (length (neighbors c) <= 13)%nat /\
  (forall nb, nb ∈ neighbors c ->
     home_index c < nb.1 < cell_count n /\
     adjacent n (home_index c) nb.1 = true /\ nb.2 = cell g nb.1) /\
  (forall j, home_index c < j < cell_count n ->
     adjacent n (home_index c) j = true -> (j, cell g j) ∈ neighbors c).
Proof.
  intros Hne H Hcalls Hc n.
  destruct (normal_grid_calls ndebug ps mm g Hne H) as ((P0 & P1 & P2) & Hl & Hit).
  fold n in P0, P1, P2, Hl, Hit.
  rewrite Hit in Hcalls. injection Hcalls as <-.
  apply elem_of_map in Hc as ([[x y] z] & -> & Hin).
  apply elem_of_all_cells in Hin.
  rewrite neighbors_call_of, home_index_call_of.
  unfold normal_args. fold n. cbn [fst snd].
  pose proof (normal_neighbors g x y z) as Hnb. cbv zeta in Hnb. fold n in Hnb.
  set (l := neighbor_indices g (make_index g x y z) (stencil (at0 n) x)
              (stencil (at1 n) y) (zstencil (at2 n) z)) in *.
  assert (Hnd : NoDup l).
  { apply NoDup_neighbor_indices;
      [apply NoDup_stencil | apply NoDup_stencil | apply NoDup_zstencil | | |].
    - intros dx Hdx. apply elem_of_stencil in Hdx. unfold in_grid in Hin. fold n. lia.
    - intros dy Hdy. apply elem_of_stencil in Hdy. unfold in_grid in Hin. fold n. lia.
    - intros dz Hdz. apply elem_of_zstencil in Hdz. unfold in_grid in Hin. fold n. lia. }
  split; [rewrite map_fst_neighbors; exact Hnd |]. split; [| split].
  - rewrite length_map. apply (length_half_shell g x y z l Hnd).
    intros j Hj. apply (Hnb j Hin) in Hj
      as (x' & y' & z' & Hin' & Hx & Hy & Hz & -> & Hlt).
    apply (make_index_n_lt n x y z x' y' z' Hin Hin') in Hlt.
    exists (x' - x), (y' - y), (z' - z). unfold forward.
    replace (x + (x' - x)) with x' by lia.
    replace (y + (y' - y)) with y' by lia.
    replace (z + (z' - z)) with z' by lia.
    repeat split; try lia.
  - intros nb Hin'. apply elem_of_map in Hin' as (j & -> & Hj). cbn [fst snd].
    apply (Hnb j Hin) in Hj as (x' & y' & z' & Hin' & Hx & Hy & Hz & -> & Hlt).
    split; [split; [exact Hlt | apply make_index_n_range, Hin'] |].
    split; [| reflexivity].
    apply adjacent_coords; [exact Hin | exact Hin' | lia].
  - intros j Hj Hadj. apply elem_of_map. exists j. split; [reflexivity |].
    apply (Hnb j Hin).
    pose proof (make_index_n_range n x y z Hin) as Hhome.
    unfold make_index in Hj, Hadj. fold n in Hj, Hadj.
    assert (Hj0 : 0 <= j < cell_count n) by lia.
    destruct (make_index_cell_coords n j ltac:(lia) ltac:(lia) Hj0)
      as (x' & y' & z' & _ & Hin' & E).
    rewrite <- E in Hadj, Hj. apply (adjacent_coords n _ _ _ _ _ _ Hin Hin') in Hadj.
    exists x', y', z'. unfold make_index. fold n.
    split; [exact Hin' |]. repeat split; lia.
Qed.

Lemma open_traversal_neighbors_witness :
  let ps := lattice_3 in
  let g := grid_of (Grid_from_bounds Normal false ps (bounds_of ps)) in
  let calls := calls_of (iterate_cells Normal g) in
  let c := nth 13 calls (mkCall 0 [] []) in
  ps <> [] /\ Grid_from_bounds Normal false ps (bounds_of ps) = Ok g /\
  iterate_cells Normal g = Ok calls /\ c ∈ calls /\
  NoDup (map fst (neighbors c)) /\ (length (neighbors c) <= 13)%nat.
Proof.
  intros ps g calls c.
  assert (Hne : ps <> []) by (vm_compute; discriminate).
  assert (Hg : Grid_from_bounds Normal false ps (bounds_of ps) = Ok g)
    by (vm_compute; reflexivity).
  assert (Hcalls : iterate_cells Normal g = Ok calls) by (vm_compute; reflexivity).
  assert (Hc : c ∈ calls)
    by (apply list_elem_of_lookup; exists 13%nat; vm_compute; reflexivity).
  split; [exact Hne |]. split; [exact Hg |]. split; [exact Hcalls |].
  split; [exact Hc |].
  destruct (open_traversal_neighbors false ps (bounds_of ps) g calls c
              Hne Hg Hcalls Hc) as (Hnd & Hlen & _).
  split; [exact Hnd | exact Hlen].
Defined.

(** ** Periodic traversal *)

Lemma filter_map_comm {A B : Type} (p : B -> bool) (f : A -> B) (l : list A) :
  List.filter p (map f l) = map f (List.filter (fun a => p (f a)) l).
Proof.
  induction l as [| a l IH]; [reflexivity |].
  cbn [map List.filter]. destruct (p (f a)); cbn [map]; rewrite IH; reflexivity.
Qed.

Lemma filter_bind_comm {A B : Type} (p : B -> bool) (f : A -> list B) (l : list A) :
  List.filter p (l ≫= f) = l ≫= fun a => List.filter p (f a).
Proof.
  induction l as [| a l IH]; [reflexivity |].
  rewrite !bind_cons, List.filter_app, IH. reflexivity.
Qed.

Lemma bind_filter_guard {A B : Type} (p : A -> bool) (f : A -> list B) (l : list A) :
  (l ≫= fun a => if p a then f a else []) = List.filter p l ≫= f.
Proof.
  induction l as [| a l IH]; [reflexivity |].
  rewrite bind_cons, IH. cbn [List.filter].
  destruct (p a); [rewrite bind_cons |]; reflexivity.
Qed.

Lemma filter_none {A : Type} (p : A -> bool) (l : list A) :
  (forall a, a ∈ l -> p a = false) -> List.filter p l = [].
Proof.
  induction l as [| a l IH]; intros H; [reflexivity |].
  cbn [List.filter]. rewrite (H a) by left. apply IH.
  intros b Hb. apply H. right. exact Hb.
Qed.

Lemma filter_all {A : Type} (p : A -> bool) (l : list A) :
  (forall a, a ∈ l -> p a = true) -> List.filter p l = l.
Proof.
  induction l as [| a l IH]; intros H; [reflexivity |].
  cbn [List.filter]. rewrite (H a) by left. f_equal. apply IH.
  intros b Hb. apply H. right. exact Hb.
Qed.

Lemma filter_range (a b lo hi : Z) :
  a <= lo -> lo <= hi + 1 -> hi + 1 <= b ->
  List.filter (fun x => (lo <=? x) && (x <=? hi)) (range a b) = range lo (hi + 1).
Proof.
  intros H1 H2 H3.
  rewrite <- (range_app a lo b) by lia.
  rewrite <- (range_app lo (hi + 1) b) by lia.
  rewrite !List.filter_app.
  rewrite (filter_none _ (range a lo)), (filter_none _ (range (hi + 1) b)),
          (filter_all _ (range lo (hi + 1))).
  - rewrite app_nil_r. reflexivity.
  - intros x Hx. apply elem_of_range in Hx.
    apply andb_true_iff. rewrite !Z.leb_le. lia.
  - intros x Hx. apply elem_of_range in Hx.
    apply andb_false_iff. rewrite !Z.leb_gt. lia.
  - intros x Hx. apply elem_of_range in Hx.
    apply andb_false_iff. rewrite !Z.leb_gt. lia.
Qed.

Lemma filter_ext_elem {A : Type} (p q : A -> bool) (l : list A) :
  (forall a, a ∈ l -> p a = q a) -> List.filter p l = List.filter q l.
Proof.
  intros H. apply List.filter_ext_in. intros a Ha. apply H, list_elem_of_In, Ha.
Qed.

Lemma bind_const_nil {A B : Type} (l : list A) :
  (l ≫= fun _ => @nil B) = [].
Proof. induction l as [| a l IH]; [reflexivity | rewrite bind_cons; exact IH]. Qed.

Lemma filter_rows (pz py px : Z -> bool) (lz ly lx : list Z) :
  List.filter (fun t : Z * Z * Z => pz t.2 && (py t.1.2 && px t.1.1))
              (z ← lz; y ← ly; x ← lx; [(x, y, z)])
  = (z ← List.filter pz lz; y ← List.filter py ly; x ← List.filter px lx;
     [(x, y, z)]).
Proof.
  rewrite filter_bind_comm, <- bind_filter_guard.
  apply bind_ext_elem. intros z _.
  rewrite filter_bind_comm, <- bind_filter_guard.
  destruct (pz z) eqn:Ez.
  - apply bind_ext_elem. intros y _.
    rewrite filter_bind_comm, <- bind_filter_guard.
    destruct (py y) eqn:Ey.
    + apply bind_ext_elem. intros x _. cbn [List.filter fst snd].
      rewrite Ez, Ey. cbn [andb]. destruct (px x); reflexivity.
    + etransitivity; [| apply (bind_const_nil lx)].
      apply bind_ext_elem. intros x _.
      cbn [List.filter fst snd]. rewrite Ez, Ey. reflexivity.
  - etransitivity; [| apply (bind_const_nil ly)].
    apply bind_ext_elem. intros y _.
    rewrite filter_bind_comm.
    etransitivity; [| apply (bind_const_nil lx)].
    apply bind_ext_elem. intros x _.
    cbn [List.filter fst snd]. rewrite Ez. reflexivity.
Qed.

Lemma interior_cells_filter (n : array3 Z) :
  2 <= at0 n -> 2 <= at1 n -> 1 <= at2 n ->
  List.filter (fun t : Z * Z * Z => interior n (make_index_n n t.1.1 t.1.2 t.2))
              (all_cells n)
  = interior_cells n.
Proof.
  intros H0 H1 H2.
  set (px := fun x => (1 <=? x) && (x <=? at0 n - 2)).
  set (py := fun y => (1 <=? y) && (y <=? at1 n - 2)).
  set (pz := fun z => (0 <=? z) && (z <=? at2 n - 2)).
  rewrite (filter_ext_elem _ (fun t : Z * Z * Z => pz t.2 && (py t.1.2 && px t.1.1))).
  2:{ intros [[x y] z] Hin. apply elem_of_all_cells in Hin. cbn [fst snd].
      unfold interior. rewrite (cell_coords_make_index n x y z Hin).
      unfold px, py, pz.
      destruct (1 <=? x), (x <=? at0 n - 2), (1 <=? y), (y <=? at1 n - 2),
               (0 <=? z), (z <=? at2 n - 2); reflexivity. }
  unfold all_cells, interior_cells.
  replace (range 0 (at2 n - 1)) with (List.filter pz (range 0 (at2 n)))
    by (unfold pz; rewrite filter_range by lia; f_equal; lia).
  replace (range 1 (at1 n - 1)) with (List.filter py (range 0 (at1 n)))
    by (unfold py; rewrite filter_range by lia; f_equal; lia).
  replace (range 1 (at0 n - 1)) with (List.filter px (range 0 (at0 n)))
    by (unfold px; rewrite filter_range by lia; f_equal; lia).
  apply filter_rows.
Qed.

Lemma periodic_grid_calls (ndebug : bool) (ps : ParticleList)
  (mm : array3 Float32.t * array3 Float32.t) (g : Grid) :
  ps <> [] -> Grid_from_bounds PeriodicBoundaries ndebug ps mm = Ok g ->
  let n := number_of_cells_ g in
  periodic_frame g /\
  iterate_cells PeriodicBoundaries g =
    Ok (map (fun t => call_of g (periodic_args g t)) (interior_cells n)).
Proof.
  intros Hne H n.
  destruct (periodic_grid_cells ndebug ps mm g Hne H) as (Hf & _).
  split; [exact Hf |]. apply iterate_cells_periodic. apply Hf.
Qed.

(** X14 -- Traversal of a periodic grid: the home cells are exactly the
    interior cells, each once, in increasing order of the linear index; a
    ghost cell is never a home cell. *)
Theorem periodic_traversal_home_cells (ndebug : bool) (ps : ParticleList)
  (mm : array3 Float32.t * array3 Float32.t) (g : Grid) :
  ps <> [] -> Grid_from_bounds PeriodicBoundaries ndebug ps mm = Ok g ->
  let n := number_of_cells_ g in
  exists calls,
    iterate_cells PeriodicBoundaries g = Ok calls /\
    map home_index calls = List.filter (interior n) (range 0 (cell_count n)) /\
    forall c, c ∈ calls -> search_list c = cell g (home_index c).
Proof.
  intros Hne H n.
  destruct (periodic_grid_calls ndebug ps mm g Hne H) as ((P0 & P1 & P2 & _) & Hit).
  fold n in P0, P1, P2, Hit.
  eexists. split; [exact Hit |]. split.
  - rewrite <- all_cells_indices by lia.
    rewrite filter_map_comm, interior_cells_filter by lia.
    rewrite map_map. apply map_ext. intros [[x y] z]. reflexivity.
  - intros c Hin. apply elem_of_map in Hin as (t & -> & _).
    apply search_list_call_of.
Qed.

Lemma periodic_traversal_home_cells_witness :
  let ps := lattice_3 in
  let g := grid_of (Grid_from_bounds PeriodicBoundaries false ps (bounds_of ps)) in
  let n := number_of_cells_ g in
  ps <> [] /\ Grid_from_bounds PeriodicBoundaries false ps (bounds_of ps) = Ok g /\
  exists calls,
    iterate_cells PeriodicBoundaries g = Ok calls /\
    map home_index calls = List.filter (interior n) (range 0 (cell_count n)) /\
    forall c, c ∈ calls -> search_list c = cell g (home_index c).
Proof.
  intros ps g n.
  assert (Hne : ps <> []) by (vm_compute; discriminate).
  assert (Hg : Grid_from_bounds PeriodicBoundaries false ps (bounds_of ps) = Ok g)
    by (vm_compute; reflexivity).
  split; [exact Hne |]. split; [exact Hg |].
  exact (periodic_traversal_home_cells false ps (bounds_of ps) g Hne Hg).
Defined.

(** X15 -- In a periodic grid every callback has exactly 13 neighbour
    cells: the cells the 13 forward offsets lead to from the home cell, in
    the order of the loops.  They are distinct cells of the array, after the
    home cell, ghost cells included, each handed over with its own list. *)
Theorem periodic_traversal_neighbors (ndebug : bool) (ps : ParticleList)
  (mm : array3 Float32.t * array3 Float32.t) (g : Grid) (calls : list Call)
  (c : Call) :
  ps <> [] -> Grid_from_bounds PeriodicBoundaries ndebug ps mm = Ok g ->
  iterate_cells PeriodicBoundaries g = Ok calls -> c ∈ calls ->
  let n := number_of_cells_ g in
  map fst (neighbors c) =
    map (fun t : Z * Z * Z =>
           home_index c + t.2 * at1 n * at0 n + t.1.2 * at0 n + t.1.1)
        forward_offsets /\
  NoDup (map fst (neighbors c)) /\
  forall nb, nb ∈ neighbors c ->
    home_index c < nb.1 < cell_count n /\ nb.2 = cell g nb.1.
Proof.
  intros Hne H Hcalls Hc n.
  destruct (periodic_grid_calls ndebug ps mm g Hne H) as ((P0 & P1 & P2 & _) & Hit).
  fold n in P0, P1, P2, Hit.
  rewrite Hit in Hcalls. injection Hcalls as <-.
  apply elem_of_map in Hc as ([[x y] z] & -> & Hin).
  apply elem_of_interior_cells in Hin. destruct Hin as (Hx & Hy & Hz).
  rewrite neighbors_call_of, home_index_call_of, map_fst_neighbors.
  unfold periodic_args. cbn [fst snd].
  set (ci := make_index g x y z).
  split; [| split].
  - unfold neighbor_indices, forward_offsets. fold n.
    cbn [mbind list_bind map app fst snd concat List.map].
    assert (Q0 : 3 <= at0 n) by lia. assert (Q1 : 3 <= at1 n) by lia.
    assert (Q : at0 n + 2 <= at1 n * at0 n) by nia.
    repeat match goal with
           | |- context [?a >? ?b] => destruct (Z.gtb_spec a b); try (exfalso; nia)
           end.
    reflexivity.
  - apply NoDup_neighbor_indices;
      try (apply (bool_decide_unpack _); vm_compute; exact I).
    + intros dx Hdx. apply elem_of_full_stencil in Hdx. fold n. lia.
    + intros dy Hdy. apply elem_of_full_stencil in Hdy. fold n. lia.
    + intros dz Hdz. apply elem_of_forward_stencil in Hdz. fold n. lia.
  - intros nb Hnb. apply elem_of_map in Hnb as (j & -> & Hj). cbn [fst snd].
    split; [| reflexivity].
    apply (periodic_neighbors g x y z j Hx Hy Hz) in Hj
      as (dx & dy & dz & Hdx & Hdy & Hf & ->).
    assert (Hin : in_grid n x y z) by (unfold in_grid; lia).
    assert (Hin' : in_grid n (x + dx) (y + dy) (z + dz))
      by (unfold in_grid, forward in *; lia).
    unfold ci, make_index. fold n. split.
    + apply (make_index_n_lt n _ _ _ _ _ _ Hin Hin'). unfold forward in Hf. lia.
    + apply make_index_n_range, Hin'.
Qed.

Lemma periodic_traversal_neighbors_witness :
  let ps := lattice_3 in
  let g := grid_of (Grid_from_bounds PeriodicBoundaries false ps (bounds_of ps)) in
  let calls := calls_of (iterate_cells PeriodicBoundaries g) in
  let c := nth 0 calls (mkCall 0 [] []) in
  ps <> [] /\ Grid_from_bounds PeriodicBoundaries false ps (bounds_of ps) = Ok g /\
  iterate_cells PeriodicBoundaries g = Ok calls /\ c ∈ calls /\
  map fst (neighbors c) = [7; 10; 11; 12; 25; 26; 27; 30; 31; 32; 35; 36; 37].
Proof.
  intros ps g calls c.
  assert (Hne : ps <> []) by (vm_compute; discriminate).
  assert (Hg : Grid_from_bounds PeriodicBoundaries false ps (bounds_of ps) = Ok g)
    by (vm_compute; reflexivity).
  assert (Hcalls : iterate_cells PeriodicBoundaries g = Ok calls)
    by (vm_compute; reflexivity).
  assert (Hc : c ∈ calls)
    by (apply list_elem_of_lookup; exists 0%nat; vm_compute; reflexivity).
  split; [exact Hne |]. split; [exact Hg |]. split; [exact Hcalls |].
  split; [exact Hc |].
  destruct (periodic_traversal_neighbors false ps (bounds_of ps) g calls c
              Hne Hg Hcalls Hc) as (Hnb & _).
  rewrite Hnb. vm_compute. reflexivity.
Defined.

(** ** Home lists *)

Lemma map_search_list (g : Grid) (calls : list Call) :
  (forall c, c ∈ calls -> search_list c = cell g (home_index c)) ->
  map search_list calls = map (cell g) (map home_index calls).
Proof.
  intros H. rewrite map_map. apply map_ext_elem. exact H.
Qed.

(** X22 -- The home lists of the traversal of an open grid are the cells
    of the grid, in order: together they hold every particle of the
    collection exactly once. *)
Theorem open_traversal_home_lists (ndebug : bool) (ps : ParticleList)
  (mm : array3 Float32.t * array3 Float32.t) (g : Grid) :
  ps <> [] -> Grid_from_bounds Normal ndebug ps mm = Ok g ->
  exists calls,
    iterate_cells Normal g = Ok calls /\
    map search_list calls = cells_ g /\
    concat (map search_list calls) ≡ₚ ps.
Proof.
  intros Hne H.
  destruct (normal_grid_calls ndebug ps mm g Hne H) as ((P0 & P1 & P2) & Hl & Hc).
  eexists. split; [exact Hc |].
  assert (E : map search_list
                (map (fun t => call_of g (normal_args g t))
                     (all_cells (number_of_cells_ g))) = cells_ g).
  { rewrite (map_search_list g).
    - etransitivity; [| symmetry; apply cells_range]. rewrite Hl. f_equal.
      rewrite map_map. rewrite <- all_cells_indices by lia.
      apply map_ext. intros [[x y] z]. reflexivity.
    - intros c Hin. apply elem_of_map in Hin as (t & -> & _).
      apply search_list_call_of. }
  split; [exact E |]. rewrite E.
  pose proof (Grid_from_bounds_frame _ _ _ _ _ H) as (n & f & Hr & _ & _ & Hn).
  destruct (is_dilute n) eqn:Hd.
  - pose proof (Grid_from_bounds_Ok _ _ _ _ _ H) as (n' & f' & Hr' & Hg).
    rewrite Hr in Hr'. injection Hr' as <- <-. rewrite Hd in Hg. subst g.
    cbn [cells_ concat]. rewrite app_nil_r. reflexivity.
  - destruct (Grid_from_bounds_open ndebug ps mm g n f Hne H Hr Hd)
      as (_ & _ & Hl' & Hhome & Hcell).
    rewrite cells_range, Hl'.
    rewrite (map_ext_elem (cell g)
               (fun j => filter (fun p => home_cell Normal g p = j) ps)).
    + apply concat_filter_Permutation; [apply NoDup_range |].
      intros p Hp. apply elem_of_range. apply Hhome, Hp.
    + intros j Hj. apply elem_of_range in Hj. apply Hcell. exact Hj.
Qed.

Lemma open_traversal_home_lists_witness :
  let ps := lattice_3 in
  let g := grid_of (Grid_from_bounds Normal false ps (bounds_of ps)) in
  ps <> [] /\ Grid_from_bounds Normal false ps (bounds_of ps) = Ok g /\
  exists calls,
    iterate_cells Normal g = Ok calls /\
    map search_list calls = cells_ g /\
    concat (map search_list calls) ≡ₚ ps.
Proof.
  intros ps g.
  assert (Hne : ps <> []) by (vm_compute; discriminate).
  assert (Hg : Grid_from_bounds Normal false ps (bounds_of ps) = Ok g)
    by (vm_compute; reflexivity).
  split; [exact Hne |]. split; [exact Hg |].
  exact (open_traversal_home_lists false ps (bounds_of ps) g Hne Hg).
Defined.

Lemma concat_filter_Permutation_sub {A : Type} (h : A -> Z) (js : list Z)
  (l : list A) :
  NoDup js ->
  concat (map (fun j => filter (fun a => h a = j) l) js)
  ≡ₚ filter (fun a => h a ∈ js) l.
Proof.
  intros Hnd.
  rewrite <- (concat_filter_Permutation h js (filter (fun a => h a ∈ js) l) Hnd).
  - rewrite (map_ext_elem (fun j => filter (fun a => h a = j) l)
               (fun j => filter (fun a => h a = j)
                           (filter (fun a => h a ∈ js) l)) js); [reflexivity |].
    intros j Hj. rewrite list_filter_filter. apply list_filter_iff.
    intros a. split; [| tauto]. intros E. split; [exact E |]. rewrite E. exact Hj.
  - intros a Ha. apply list_elem_of_filter in Ha as [Ha _]. exact Ha.
Qed.

Lemma interior_in_range (n : array3 Z) (i : Z) :
  3 <= at0 n -> 3 <= at1 n -> 2 <= at2 n ->
  interior n i = true -> 0 <= i < cell_count n.
Proof.
  intros H0 H1 H2 Hi.
  destruct (interior_decode n i ltac:(lia) ltac:(lia) Hi) as (x & y & z & Hc & <-).
  apply make_index_n_range. unfold in_grid. lia.
Qed.

(** X23 -- The home lists of the traversal of a periodic grid hold,
    together, exactly the particles of the collection whose index is an
    interior cell, each once: a ghost copy is never in a home list, and a
    particle placed in a ghost cell is in none. *)
Theorem periodic_traversal_home_lists (ndebug : bool) (ps : ParticleList)
  (mm : array3 Float32.t * array3 Float32.t) (g : Grid) :
  ps <> [] -> Grid_from_bounds PeriodicBoundaries ndebug ps mm = Ok g ->
  let n := number_of_cells_ g in
  exists calls,
    iterate_cells PeriodicBoundaries g = Ok calls /\
    concat (map search_list calls) ≡ₚ
      filter (fun p => interior n (home_cell PeriodicBoundaries g p) = true) ps.
Proof.
  intros Hne H n.
  destruct (periodic_grid_calls ndebug ps mm g Hne H) as ((P0 & P1 & P2 & Hl) & Hit).
  destruct (periodic_grid_cells ndebug ps mm g Hne H) as (_ & Hcells).
  fold n in P0, P1, P2, Hl, Hit, Hcells.
  eexists. split; [exact Hit |].
  set (js := List.filter (interior n) (range 0 (cell_count n))).
  assert (Ejs : map (fun t : Z * Z * Z => make_index_n n t.1.1 t.1.2 t.2)
                    (interior_cells n) = js).
  { unfold js. rewrite <- all_cells_indices by lia.
    rewrite filter_map_comm, interior_cells_filter by lia. reflexivity. }
  assert (Hjs : forall j, j ∈ js <-> interior n j = true).
  { intros j. unfold js. rewrite list_elem_of_In, List.filter_In, <- list_elem_of_In.
    rewrite elem_of_range. split; [tauto |]. intros Hj.
    split; [apply interior_in_range; assumption | exact Hj]. }
  rewrite map_map.
  rewrite (map_ext_elem _
             (fun t : Z * Z * Z =>
                filter (fun p => home_cell PeriodicBoundaries g p =
                                 make_index_n n t.1.1 t.1.2 t.2) ps)).
  - transitivity
      (concat (map (fun j => filter (fun p => home_cell PeriodicBoundaries g p = j) ps)
                   js)).
    { rewrite <- Ejs, map_map. reflexivity. }
    rewrite concat_filter_Permutation_sub.
    + apply eq_subrelation; [typeclasses eauto |].
      apply list_filter_iff. intros p. apply Hjs.
    + unfold js. apply NoDup_ListNoDup, List.NoDup_filter, NoDup_ListNoDup, NoDup_range.
  - intros [[x y] z] Hin. apply elem_of_interior_cells in Hin.
    rewrite search_list_call_of, home_index_call_of.
    unfold periodic_args. cbn [fst snd].
    assert (Hg : in_grid n x y z) by (unfold in_grid; lia).
    rewrite (Hcells x y z Hg).
    replace (is_ghost_cell g x y z) with false; [reflexivity |].
    symmetry. apply not_true_is_false. rewrite is_ghost_cell_spec. fold n. lia.
Qed.

Lemma periodic_traversal_home_lists_witness :
  let ps := seven_and_one in
  let g := grid_of (Grid_from_bounds PeriodicBoundaries false ps (bounds_of ps)) in
  let n := number_of_cells_ g in
  ps <> [] /\ Grid_from_bounds PeriodicBoundaries false ps (bounds_of ps) = Ok g /\
  exists calls,
    iterate_cells PeriodicBoundaries g = Ok calls /\
    concat (map search_list calls) ≡ₚ
      filter (fun p => interior n (home_cell PeriodicBoundaries g p) = true) ps.
Proof.
  intros ps g n.
  assert (Hne : ps <> []) by (vm_compute; discriminate).
  assert (Hg : Grid_from_bounds PeriodicBoundaries false ps (bounds_of ps) = Ok g)
    by (vm_compute; reflexivity).
  split; [exact Hne |]. split; [exact Hg |].
  exact (periodic_traversal_home_lists false ps (bounds_of ps) g Hne Hg).
Defined.

(** ** Reflection symmetry of the nucleus shape *)

Lemma SFmul_opp_opp (prec emax : Z) (x : spec_float) :
  SFmul prec emax (SFopp x) (SFopp x) = SFmul prec emax x x.
Proof. destruct x as [s | s | | s m e]; try destruct s; reflexivity. Qed.

Lemma y_l_0_opp (l : Z) (cosx : Float64.t) :
  y_l_0 l (SFopp cosx) = y_l_0 l cosx.
Proof. unfold y_l_0, Float64.mul. rewrite SFmul_opp_opp. reflexivity. Qed.

(** X16 -- [y_l_0] is even in [cosx], which it only uses squared: the
    value, or the domain error, is the same at [-cosx]. *)
Theorem y_l_0_even (l : Z) (cosx : Float64.t) :
  y_l_0 l (Float64.neg cosx) = y_l_0 l cosx.
Proof.
  unfold y_l_0, Float64.neg, Float64.mul.
  rewrite (SFmul_opp_opp Float64.prec Float64.emax cosx). reflexivity.
Qed.

(** X17 -- [deformed_woods_saxon] always returns a value: it calls
    [y_l_0] with l = 2 and l = 4 only, so the domain error of [y_l_0] never
    reaches it; and the density is the same at [cosx] and at [-cosx]. *)
Theorem deformed_woods_saxon_returns (Nucleus Angles : Type)
  (get_saturation_density get_nuclear_radius get_diffusiveness :
     Nucleus -> Float64.t)
  (exp : Float64.t -> Float64.t) (d : DeformedNucleus Nucleus Angles)
  (r cosx : Float64.t) :
  let density := deformed_woods_saxon get_saturation_density get_nuclear_radius
                   get_diffusiveness exp d in
  (exists v, density r cosx = Ok v) /\
  density r (Float64.neg cosx) = density r cosx.
Proof.
  intros density. unfold density, deformed_woods_saxon. split.
  - eexists. reflexivity.
  - unfold Float64.neg. rewrite !y_l_0_opp. reflexivity.
Qed.

(** ** The collider modus *)

Section AssignParams.
Variable atoi : string -> Z.
Variable atof : string -> Float64.t.
Variable Sqrts : Type.
Variable to_sqrts : Float64.t -> Sqrts.

Lemma assign_param_spec (m : ColliderModus Sqrts) (p : Parameters) :
  let r := assign_param atoi atof to_sqrts m p in
  r.2 = collider_key (key p) /\
  projectile_ r.1 =
    (if String.eqb (key p) "PROJECTILE" then atoi (value p) else projectile_ m) /\
  target_ r.1 =
    (if String.eqb (key p) "TARGET" then atoi (value p) else target_ m) /\
  sqrts_ r.1 =
    (if String.eqb (key p) "SQRTS" then to_sqrts (Float64.abs (atof (value p)))
     else sqrts_ m).
Proof.
  unfold assign_param, collider_key.
  destruct (String.eqb (key p) "PROJECTILE"), (String.eqb (key p) "TARGET"),
           (String.eqb (key p) "SQRTS"); repeat split.
Qed.

Lemma assign_param_other (m : ColliderModus Sqrts) (p : Parameters) :
  collider_key (key p) = false -> assign_param atoi atof to_sqrts m p = (m, false).
Proof.
  unfold assign_param, collider_key. intros H.
  apply orb_false_iff in H as [H H3]. apply orb_false_iff in H as [H1 H2].
  rewrite H1, H2, H3. reflexivity.
Qed.

Lemma assign_params_cons (m : ColliderModus Sqrts) (p : Parameters)
  (rest : list Parameters) :
  let r := assign_param atoi atof to_sqrts m p in
  let r' := assign_params atoi atof to_sqrts r.1 rest in
  assign_params atoi atof to_sqrts m (p :: rest) =
    (r'.1, if r.2 then r'.2 else p :: r'.2).
Proof.
  cbn [assign_params].
  destruct (assign_param atoi atof to_sqrts m p) as [m' matched]. cbn [fst snd].
  destruct (assign_params atoi atof to_sqrts m' rest) as [m'' rest']. reflexivity.
Qed.

Lemma assign_params_rest (m : ColliderModus Sqrts) (configuration : list Parameters) :
  (assign_params atoi atof to_sqrts m configuration).2 =
    List.filter (fun p => negb (collider_key (key p))) configuration.
Proof.
  revert m. induction configuration as [| p rest IH]; intros m; [reflexivity |].
  rewrite assign_params_cons. cbn [snd List.filter].
  destruct (assign_param_spec m p) as (-> & _).
  rewrite IH. destruct (collider_key (key p)); reflexivity.
Qed.

Lemma assign_params_fixed (m : ColliderModus Sqrts) (l : list Parameters) :
  (forall p, p ∈ l -> collider_key (key p) = false) ->
  assign_params atoi atof to_sqrts m l = (m, l).
Proof.
  induction l as [| p l IH]; intros H; [reflexivity |].
  rewrite assign_params_cons.
  rewrite (assign_param_other m p) by (apply H; left). cbn [fst snd].
  rewrite IH; [reflexivity |]. intros q Hq. apply H. right. exact Hq.
Qed.

(** X18 -- [assign_params] leaves in the configuration exactly the entries
    whose key is none of PROJECTILE, TARGET and SQRTS, in their order;
    running it again on what it left changes neither the modus nor the
    list. *)
Theorem assign_params_remaining (m : ColliderModus Sqrts)
  (configuration : list Parameters) :
  let r := assign_params atoi atof to_sqrts m configuration in
  r.2 = List.filter (fun p => negb (collider_key (key p))) configuration /\
  assign_params atoi atof to_sqrts r.1 r.2 = r.
Proof.
  intros r. split; [apply assign_params_rest |].
  rewrite assign_params_fixed; [destruct r; reflexivity |].
  intros p Hp. unfold r in Hp. rewrite assign_params_rest in Hp.
  apply list_elem_of_In, List.filter_In in Hp as [_ Hp].
  apply negb_true_iff, Hp.
Qed.

Lemma last_value_cons (k : string) (p : Parameters) (rest : list Parameters) :
  last_value k (p :: rest) =
    match last_value k rest with
    | Some v => Some v
    | None => if String.eqb (key p) k then Some (value p) else None
    end.
Proof.
  unfold last_value. cbn [List.filter].
  destruct (String.eqb (key p) k); [| destruct (last _); reflexivity].
  rewrite last_cons. destruct (last _); reflexivity.
Qed.

(** X19 -- In [assign_params] the last entry wins: each of [projectile_],
    [target_] and [sqrts_] ends as the value of the last entry with its key
    ([atoi] of the value, [fabs(atof)] of it for SQRTS), and is unchanged
    when no entry has the key. *)
Theorem assign_params_values (m : ColliderModus Sqrts)
  (configuration : list Parameters) :
  let m' := (assign_params atoi atof to_sqrts m configuration).1 in
  projectile_ m' =
    match last_value "PROJECTILE" configuration with
    | Some v => atoi v
    | None => projectile_ m
    end /\
  target_ m' =
    match last_value "TARGET" configuration with
    | Some v => atoi v
    | None => target_ m
    end /\
  sqrts_ m' =
    match last_value "SQRTS" configuration with
    | Some v => to_sqrts (Float64.abs (atof v))
    | None => sqrts_ m
    end.
Proof.
  revert m. induction configuration as [| p rest IH]; intros m; [repeat split |].
  cbv zeta. rewrite assign_params_cons. cbn [fst].
  destruct (IH (assign_param atoi atof to_sqrts m p).1) as (Hp & Ht & Hs).
  destruct (assign_param_spec m p) as (_ & Ep & Et & Es).
  rewrite !last_value_cons, Hp, Ht, Hs, Ep, Et, Es. clear.
  split; [| split].
  - destruct (last_value "PROJECTILE" rest); [reflexivity |].
    destruct (String.eqb (key p) "PROJECTILE"); reflexivity.
  - destruct (last_value "TARGET" rest); [reflexivity |].
    destruct (String.eqb (key p) "TARGET"); reflexivity.
  - destruct (last_value "SQRTS" rest); [reflexivity |].
    destruct (String.eqb (key p) "SQRTS"); reflexivity.
Qed.
End AssignParams.

(** ** Signs in floating-point products and quotients *)

Lemma binary_round_aux_opp (prec emax : Z) (s : bool) (m e : Z) (l : location) :
  binary_round_aux prec emax (negb s) m e l =
  SFopp (binary_round_aux prec emax s m e l).
Proof.
  unfold binary_round_aux.
  destruct (shr_fexp prec emax m e l) as [mrs' e'].
  destruct (shr_fexp prec emax _ e' loc_Exact) as [mrs'' e''].
  destruct (shr_m mrs''); [reflexivity | | reflexivity].
  destruct (e'' <=? emax - prec); reflexivity.
Qed.

Lemma SFmul_opp_l (prec emax : Z) (x y : spec_float) :
  SFmul prec emax (SFopp x) y = SFopp (SFmul prec emax x y).
Proof.
  destruct x as [sx | sx | | sx mx ex], y as [sy | sy | | sy my ey];
    cbn [SFmul SFopp]; rewrite <- ?negb_xorb_l; try reflexivity.
  apply binary_round_aux_opp.
Qed.

Lemma SFmul_opp_r (prec emax : Z) (x y : spec_float) :
  SFmul prec emax x (SFopp y) = SFopp (SFmul prec emax x y).
Proof.
  destruct x as [sx | sx | | sx mx ex], y as [sy | sy | | sy my ey];
    cbn [SFmul SFopp]; rewrite <- ?negb_xorb_r; try reflexivity.
  apply binary_round_aux_opp.
Qed.

Lemma SFdiv_opp_l (prec emax : Z) (x y : spec_float) :
  SFdiv prec emax (SFopp x) y = SFopp (SFdiv prec emax x y).
Proof.
  destruct x as [sx | sx | | sx mx ex], y as [sy | sy | | sy my ey];
    cbn [SFdiv SFopp]; rewrite <- ?negb_xorb_l; try reflexivity.
  destruct (SFdiv_core_binary prec emax (Z.pos mx) ex (Z.pos my) ey) as [[mz ez] lz].
  apply binary_round_aux_opp.
Qed.

Lemma SFabs_opp (x : spec_float) : SFabs (SFopp x) = SFabs x.
Proof. destruct x; reflexivity. Qed.

Lemma SFltb_zero_opp (x : spec_float) :
  (forall s, x <> S754_zero s) -> x <> S754_nan ->
  SFltb (S754_zero false) (SFopp x) = negb (SFltb (S754_zero false) x).
Proof.
  intros Hz Hn. destruct x as [s | s | | s m e].
  - exfalso. exact (Hz s eq_refl).
  - destruct s; reflexivity.
  - exfalso. exact (Hn eq_refl).
  - destruct s; reflexivity.
Qed.

(** ** The potentials *)

(** X20 -- The sign of the Skyrme potential changes under charge reversal:
    [skyrme_pot] is odd in the baryon density, as long as the ratio of the
    density to the nuclear density is not zero (at zero the sign is -1 on
    both sides). *)
Theorem skyrme_pot_odd (nuclear_density : Float64.t)
  (pow : Float64.t -> Float64.t -> Float64.t) (P : Potentials)
  (baryon_density : Float64.t) :
  (forall s, Float64.div baryon_density nuclear_density <> S754_zero s) ->
  skyrme_pot nuclear_density pow P (Float64.neg baryon_density) =
  Float64.neg (skyrme_pot nuclear_density pow P baryon_density).
Proof.
  intros Hz.
  unfold skyrme_pot, Float64.neg, Float64.div, Float64.abs, Float64.ltb in *.
  rewrite SFdiv_opp_l, SFabs_opp.
  remember (SFdiv Float64.prec Float64.emax baryon_density nuclear_density)
    as tmp eqn:Et. clear Et.
  change (Float64.of_int 0) with (S754_zero false).
  destruct tmp as [s | s | | s m e].
  - exfalso. exact (Hz s eq_refl).
  - rewrite SFltb_zero_opp by discriminate.
    destruct s; cbn [SFltb SFcompare negb];
      unfold Float64.mul; rewrite <- SFmul_opp_l; f_equal.
  - cbn [SFopp SFltb SFcompare SFabs].
    unfold Float64.mul, Float64.add. cbn [SFmul].
    destruct (skyrme_a_ P); reflexivity.
  - rewrite SFltb_zero_opp by discriminate.
    destruct s; cbn [SFltb SFcompare negb];
      unfold Float64.mul; rewrite <- SFmul_opp_l; f_equal.
Qed.

Lemma skyrme_pot_odd_witness :
  let nuclear_density := Float64.decimal 168 3 in
  let pow := fun x _ : Float64.t => x in
  let P := mkPotentials true false (Float64.decimal (-2092) 1)
             (Float64.decimal 1564 1) (Float64.decimal 135 2)
             Float64.zero false Float64.zero in
  let rho := Float64.decimal 336 3 in
  (forall s, Float64.div rho nuclear_density <> S754_zero s) /\
  skyrme_pot nuclear_density pow P (Float64.neg rho) =
  Float64.neg (skyrme_pot nuclear_density pow P rho).
Proof.
  intros nuclear_density pow P rho.
  assert (H : forall s, Float64.div rho nuclear_density <> S754_zero s)
    by (intros s; vm_compute; discriminate).
  split; [exact H |].
  exact (skyrme_pot_odd nuclear_density pow P rho H).
Defined.

(** X21 -- Without a [gamma] the symmetry potential is odd in the isospin
    density and does not depend on the baryon density. *)
Theorem symmetry_pot_odd (nuclear_density : Float64.t)
  (pow : Float64.t -> Float64.t -> Float64.t) (P : Potentials)
  (baryon_isospin_density baryon_density baryon_density' : Float64.t) :
  symmetry_is_rhoB_dependent_ P = false ->
  symmetry_pot nuclear_density pow P (Float64.neg baryon_isospin_density)
               baryon_density =
  Float64.neg (symmetry_pot nuclear_density pow P baryon_isospin_density
                 baryon_density').
Proof.
  intros H. unfold symmetry_pot. rewrite H.
  unfold Float64.neg, Float64.div, Float64.mul.
  rewrite SFmul_opp_r, SFdiv_opp_l. reflexivity.
Qed.

Lemma symmetry_pot_odd_witness :
  let nuclear_density := Float64.decimal 168 3 in
  let pow := fun x _ : Float64.t => x in
  let P := mkPotentials false true Float64.zero Float64.zero Float64.zero
             (Float64.of_int 18) false Float64.zero in
  let rhoI := Float64.decimal 5 2 in
  symmetry_is_rhoB_dependent_ P = false /\
  symmetry_pot nuclear_density pow P (Float64.neg rhoI) (Float64.decimal 168 3) =
  Float64.neg (symmetry_pot nuclear_density pow P rhoI (Float64.decimal 336 3)).
Proof.
  intros nuclear_density pow P rhoI.
  assert (H : symmetry_is_rhoB_dependent_ P = false) by reflexivity.
  split; [exact H |].
  exact (symmetry_pot_odd nuclear_density pow P rhoI _ _ H).
Defined.
